(** * plugin-linear: issue extraction and linked-issue reconciliation

    A shallow embedding of the Linear plugin (package main): the identifier
    extractor [extractIssues] with the regular expression [issuePattern],
    configuration parsing, and the post-publish reconciler with its calls to
    the Linear client.  Go strings are byte sequences and are embedded as
    [string], a sequence of 8-bit [ascii] characters; a byte is read as a
    number in [Z]. *)

From Stdlib Require Import ZArith Ascii String List Lia Bool DecimalString.
From stdpp Require Import base decidable option list gmap strings.

Set Warnings "-register-all".

Local Open Scope Z_scope.

(** ** Bytes and character classes *)

Definition byte_of (c : ascii) : Z := Z.of_N (N_of_ascii c).

Definition in_range (lo hi : Z) (c : ascii) : bool :=
  (lo <=? byte_of c) && (byte_of c <=? hi).

(** The class [[A-Z]] of [issuePattern]. *)
Definition is_upper : ascii -> bool := in_range 65 90.
Definition is_lower : ascii -> bool := in_range 97 122.
(** The class [\d] of [issuePattern] (ASCII digits in Go's syntax). *)
Definition is_digit : ascii -> bool := in_range 48 57.

(** regexp/syntax.IsWordChar: [A-Za-z0-9_]. *)
Definition IsWordChar (c : ascii) : bool :=
  is_upper c || is_lower c || is_digit c || (byte_of c =? 95).

(** A missing neighbour (start or end of the text) is not a word character. *)
Definition word_at (o : option ascii) : bool :=
  match o with
  | Some c => IsWordChar c
  | None => false
  end.

(** ** The regular expression engine, for the fragment [issuePattern] uses

    A pattern is a sequence of instructions, each of which may be wrapped in a
    capture group.  Repetition is greedy and the search backtracks in Perl
    order, which is the leftmost-first semantics of Go's regexp package.
    Matching is on bytes: every byte of a multi-byte UTF-8 sequence is at
    least 0x80, so it is in none of the classes above and is not a word
    character, exactly as the rune it belongs to. *)

Inductive inst : Type :=
  | IWordBoundary                                        (* \b *)
  | ILit (c : ascii)                                     (* a literal byte *)
  | IRepeat (cls : ascii -> bool) (lo : nat) (hi : option nat). (* cls{lo,hi} *)

(** [(captured, instruction)] *)
Definition pattern : Type := list (bool * inst).

Local Close Scope Z_scope.

(** Length of the longest prefix of [s] inside the class. *)
Fixpoint run_length (cls : ascii -> bool) (s : list ascii) : nat :=
  match s with
  | c :: s' => if cls c then S (run_length cls s') else 0
  | [] => 0
  end.

(** The character before the position reached after consuming [seg]. *)
Definition prev_after (prev : option ascii) (seg : list ascii) : option ascii :=
  match last seg with
  | Some c => Some c
  | None => prev
  end.

(** Greedy choice with backtracking: counts [n], [n-1], ..., [lo] in turn. *)
Fixpoint try_counts {R : Type} (k : nat -> option R) (lo n : nat) : option R :=
  if n <? lo then None
  else match k n with
       | Some r => Some r
       | None => match n with
                 | O => None
                 | S n' => try_counts k lo n'
                 end
       end.

(** Match the pattern at the current position; [prev] is the byte before it.
    The result is the segment consumed by each instruction. *)
Fixpoint match_here (p : list (bool * inst)) (prev : option ascii)
    (s : list ascii) : option (list (list ascii)) :=
  match p with
  | [] => Some []
  | (_, IWordBoundary) :: p' =>
      if xorb (word_at prev) (word_at (head s))
      then cons [] <$> match_here p' prev s
      else None
  | (_, ILit c) :: p' =>
      match s with
      | c' :: s' =>
          if Ascii.eqb c c' then cons [c'] <$> match_here p' (Some c') s'
          else None
      | [] => None
      end
  | (_, IRepeat cls lo hi) :: p' =>
      let run := run_length cls s in
      let n := match hi with Some h => Nat.min h run | None => run end in
      try_counts
        (fun c => cons (take c s) <$>
                    match_here p' (prev_after prev (take c s)) (drop c s))
        lo n
  end.

(** The text matched by the capture groups, in order. *)
Fixpoint captures (p : list (bool * inst)) (segs : list (list ascii))
    : list (list ascii) :=
  match p, segs with
  | (true, _) :: p', seg :: segs' => seg :: captures p' segs'
  | (false, _) :: p', _ :: segs' => captures p' segs'
  | _, _ => []
  end.

(** One element of the result of FindAllStringSubmatch: the whole match
    followed by the capture groups. *)
Definition submatch (p : pattern) (segs : list (list ascii)) : list string :=
  string_of_list_ascii (concat segs) :: (string_of_list_ascii <$> captures p segs).

(** Left-to-right scan for successive non-overlapping matches.  After a match
    the scan resumes at its end; otherwise it advances by one byte.  An empty
    match also advances by one byte (the library moreover drops an empty match
    that touches the previous match; [issuePattern] has no empty match).  The
    fuel is the number of scan positions, at most one more than the length of
    the text. *)
Fixpoint find_all (p : pattern) (fuel : nat) (prev : option ascii)
    (s : list ascii) : list (list (list ascii)) :=
  match fuel with
  | O => []
  | S fuel' =>
      match match_here p prev s with
      | Some segs =>
          match concat segs, s with
          | (_ :: _) as m, _ =>
              segs :: find_all p fuel' (prev_after prev m) (drop (length m) s)
          | [], c :: s' => segs :: find_all p fuel' (Some c) s'
          | [], [] => [segs]
          end
      | None =>
          match s with
          | c :: s' => find_all p fuel' (Some c) s'
          | [] => []
          end
      end
  end.

(** regexp.FindAllStringSubmatch(s, -1) *)
Definition FindAllStringSubmatch (p : pattern) (s : string) : list (list string) :=
  let l := list_ascii_of_string s in
  submatch p <$> find_all p (S (length l)) None l.

(** [var issuePattern = regexp.MustCompile(`\b([A-Z]{2,10})-(\d+)\b`)] *)
Definition issuePattern : pattern :=
  [ (false, IWordBoundary);
    (true, IRepeat is_upper 2 (Some 10));
    (false, ILit "-"%char);
    (true, IRepeat is_digit 1 None);
    (false, IWordBoundary) ].


(** ** strings.EqualFold

    The byte loop of the standard library function is embedded as written.
    When it meets a byte outside ASCII it jumps to a second loop that decodes
    UTF-8 and walks the Unicode case-folding table; that loop is the section
    variable [equalFoldUnicode], applied to the two remaining suffixes. *)

Section Extractor.

Variable equalFoldUnicode : string -> string -> bool.

Local Open Scope Z_scope.

Fixpoint EqualFold (s t : string) : bool :=
  match s, t with
  | String sr s', String tr t' =>
      if 128 <=? Z.lor (byte_of sr) (byte_of tr) then equalFoldUnicode s t
      else if byte_of tr =? byte_of sr then EqualFold s' t'
      else
        let '(lo, hi) :=
          if byte_of tr <? byte_of sr then (byte_of tr, byte_of sr)
          else (byte_of sr, byte_of tr) in
        if (65 <=? lo) && (lo <=? 90) && (hi =? lo + 97 - 65)
        then EqualFold s' t'
        else false
  | _, _ => Nat.eqb (String.length s) (String.length t)
  end.

Local Close Scope Z_scope.

(** ** extractIssues *)

(** The body of the inner loop: the prefix test, the [seen] map and the
    append to [issues].  A match of [issuePattern] has three entries, so
    [match[0]] and [match[1]] are always in range (out of range Go panics,
    and [!!!] gives the empty string). *)
Definition extract_match (prefix : string)
    (acc : gmap string bool * list string) (m : list string)
    : gmap string bool * list string :=
  let '(seen, issues) := acc in
  if String.eqb prefix EmptyString || EqualFold (m !!! 1) prefix then
    let id := m !!! 0 in
    if negb (default false (seen !! id))
    then (<[id := true]> seen, issues ++ [id])
    else (seen, issues)
  else (seen, issues).

Definition extract_commit (prefix : string)
    (acc : gmap string bool * list string) (commit : string)
    : gmap string bool * list string :=
  fold_left (extract_match prefix) (FindAllStringSubmatch issuePattern commit) acc.

Definition extractIssues (commits : list string) (prefix : string) : list string :=
  snd (fold_left (extract_commit prefix) commits (∅, [])).

End Extractor.

(** ** Data model *)

(** Go's [error] values are embedded by their message, which is what the
    [%v] and [%w] verbs print. *)
Definition error : Type := string.

Inductive result (A : Type) : Type :=
  | Ok (a : A)
  | Err (e : error).
Arguments Ok {A} a.
Arguments Err {A} e.

Module State.
Record t : Type := mk { ID : string; Name : string; Type_ : string }.
End State.

Module Team.
Record t : Type :=
  mk { ID : string; Key : string; Name : string; States : list State.t }.
End Team.

Module Issue.
Record t : Type :=
  mk { ID : string; Identifier : string; Title : string;
       State : State.t; URL : string }.
End Issue.

Module CreateIssueInput.
Record t : Type :=
  mk { TeamID : string; Title : string; Description : string;
       Priority : Z; ProjectID : string; AssigneeID : string }.
End CreateIssueInput.

Module ReleaseIssueConfig.
Record t : Type :=
  mk { Title : string; Description : string; Labels : list string;
       Priority : Z; Assignee : string }.
End ReleaseIssueConfig.

Module Config.
Record t : Type :=
  mk { APIKey : string;
       TeamID : string;
       TeamKey : string;
       ProjectID : string;
       IssuePrefix : string;
       ReleasedState : string;
       CreateReleaseIssue : bool;
       ReleaseIssue : ReleaseIssueConfig.t;
       UpdateLinkedIssues : bool;
       AddReleaseComment : bool;
       CommentTemplate : string }.

(** [cfg.ReleaseIssue = ri] *)
Definition set_ReleaseIssue (ri : ReleaseIssueConfig.t) (c : t) : t :=
  mk (APIKey c) (TeamID c) (TeamKey c) (ProjectID c) (IssuePrefix c)
     (ReleasedState c) (CreateReleaseIssue c) ri
     (UpdateLinkedIssues c) (AddReleaseComment c) (CommentTemplate c).

(** [cfg.IssuePrefix = p] *)
Definition set_IssuePrefix (p : string) (c : t) : t :=
  mk (APIKey c) (TeamID c) (TeamKey c) (ProjectID c) p
     (ReleasedState c) (CreateReleaseIssue c) (ReleaseIssue c)
     (UpdateLinkedIssues c) (AddReleaseComment c) (CommentTemplate c).

(** [cfg.AddReleaseComment = b] *)
Definition set_AddReleaseComment (b : bool) (c : t) : t :=
  mk (APIKey c) (TeamID c) (TeamKey c) (ProjectID c) (IssuePrefix c)
     (ReleasedState c) (CreateReleaseIssue c) (ReleaseIssue c)
     (UpdateLinkedIssues c) b (CommentTemplate c).
End Config.

(** The parts of the plugin SDK's release context that the plugin reads. *)
Module ConventionalCommit.
Record t : Type := mk { Description : string }.
End ConventionalCommit.

Module CategorizedChanges.
Record t : Type :=
  mk { Features : list ConventionalCommit.t;
       Fixes : list ConventionalCommit.t;
       Breaking : list ConventionalCommit.t;
       Other : list ConventionalCommit.t }.
End CategorizedChanges.

Module ReleaseContext.
Record t : Type :=
  mk { Version : string; TagName : string; Branch : string;
       ReleaseType : string; ReleaseNotes : string; CommitSHA : string;
       Changes : option CategorizedChanges.t }.   (* a pointer, may be nil *)
End ReleaseContext.

Module templateData.
Record t : Type :=
  mk { Version : string; TagName : string; Branch : string;
       ReleaseType : string; ReleaseNotes : string; Date : string;
       CommitSHA : string }.
End templateData.

Module ExecuteResponse.
Record t : Type :=
  mk { Success : bool; Message : string; Error : string;
       Outputs : gmap string (list string) }.
End ExecuteResponse.

Inductive Hook : Type :=
  | HookPostPlan
  | HookPostPublish
  | HookOnError
  | HookOther (name : string).

(** Values of Go's [any] as they occur in a decoded configuration. *)
Inductive any : Type :=
  | AString (s : string)
  | ABool (b : bool)
  | AInt (n : Z)
  | ASlice (l : list any)
  | AMap (m : list (string * any)).

Module ExecuteRequest.
Record t : Type :=
  mk { Hook_ : Hook; Config_ : gmap string any;
       Context : ReleaseContext.t; DryRun : bool }.
End ExecuteRequest.

(** ** Formatting helpers *)

(** The [%d] verb on a non-negative counter. *)
Definition itoa (n : nat) : string := NilEmpty.string_of_uint (Nat.to_uint n).

(** strings.Join *)
Fixpoint Join (elems : list string) (sep : string) : string :=
  match elems with
  | [] => EmptyString
  | [e] => e
  | e :: rest => e +:+ sep +:+ Join rest sep
  end.

(** ** The world outside the plugin

    A run threads the state [W] of everything outside the process (the Linear
    service, the network, the clock) and appends one event to a ghost trace
    for every call it makes, with the call's arguments and its outcome. *)

Inductive Event : Type :=
  | EvRenderTemplate (tmplStr : string) (out : string) (err : option error)
  | EvGetTeam (teamID teamKey : string) (r : result Team.t)
  | EvCreateIssue (input : CreateIssueInput.t) (r : result Issue.t)
  | EvGetIssueByIdentifier (identifier : string) (r : result Issue.t)
  | EvUpdateIssueState (issueID stateID : string) (err : option error)
  | EvAddComment (issueID body : string) (err : option error).

(** The five operations of [*LinearClient] that the plugin's hooks call. *)
Record LinearClient (W : Type) : Type :=
  { GetTeam : string -> string -> W -> result Team.t * W;
    GetIssueByIdentifier : string -> W -> result Issue.t * W;
    CreateIssue : CreateIssueInput.t -> W -> result Issue.t * W;
    UpdateIssueState : string -> string -> W -> option error * W;
    AddComment : string -> string -> W -> option error * W }.
Arguments GetTeam {W} _ _ _ _.
Arguments GetIssueByIdentifier {W} _ _ _.
Arguments CreateIssue {W} _ _ _.
Arguments UpdateIssueState {W} _ _ _ _.
Arguments AddComment {W} _ _ _ _.

(** helpers.ConfigParser of the plugin SDK. *)
Record ConfigParser : Type :=
  { GetString : string -> string -> string -> string; (* key, envVar, default *)
    GetBool : string -> bool -> bool;                  (* key, default *)
    GetInt : string -> Z -> Z }.                       (* key, default *)

Record Run (W : Type) : Type := { world : W; trace : list Event }.
Arguments world {W} _.
Arguments trace {W} _.

Definition M (W A : Type) : Type := Run W -> A * Run W.

Definition ret {W A : Type} (a : A) : M W A := fun st => (a, st).

Definition bind {W A B : Type} (m : M W A) (k : A -> M W B) : M W B :=
  fun st => let (a, st') := m st in k a st'.

(** Perform an operation on the world and log it. *)
Definition perform {W A : Type} (op : W -> A * W) (ev : A -> Event) : M W A :=
  fun st =>
    let (a, w') := op (world st) in
    (a, {| world := w'; trace := trace st ++ [ev a] |}).

Declare Scope run_scope.
Delimit Scope run_scope with run.
Notation "x <- m ;; k" := (bind m (fun x => k))
  (at level 100, m at next level, right associativity) : run_scope.

(** ** The plugin *)

Section Plugin.

(** The state of the outside world. *)
Context {W : Type}.
(** [NewLinearClient(apiKey)] *)
Variable NewLinearClient : string -> LinearClient W.
(** [time.Now().Format("2006-01-02")] *)
Variable time_Now : W -> string * W.
(** Package text/template: parsed templates, [template.New(name).Parse] and
    the Execute method into a buffer. *)
Variable Template : Type.
Variable template_Parse : string -> result Template.
Variable template_Execute : Template -> templateData.t -> result string.
(** The second loop of strings.EqualFold. *)
Variable equalFoldUnicode : string -> string -> bool.
(** [helpers.NewConfigParser(raw)] *)
Variable NewConfigParser : gmap string any -> ConfigParser.

Local Open Scope run_scope.

(** *** renderTemplate *)

(** The body of the function, as a transition of the world: it reads the
    clock when the template parses. *)
Definition renderTemplate_body (tmplStr : string) (ctx : ReleaseContext.t)
    (w : W) : (string * option error) * W :=
  match template_Parse tmplStr with
  | Err err => ((EmptyString, Some err), w)
  | Ok tmpl =>
      let (date, w') := time_Now w in
      let data :=
        {| templateData.Version := ReleaseContext.Version ctx;
           templateData.TagName := ReleaseContext.TagName ctx;
           templateData.Branch := ReleaseContext.Branch ctx;
           templateData.ReleaseType := ReleaseContext.ReleaseType ctx;
           templateData.ReleaseNotes := ReleaseContext.ReleaseNotes ctx;
           templateData.Date := date;
           templateData.CommitSHA := ReleaseContext.CommitSHA ctx |} in
      match template_Execute tmpl data with
      | Err err => ((EmptyString, Some err), w')
      | Ok buf => ((buf, None), w')
      end
  end.

Definition renderTemplate (tmplStr : string) (ctx : ReleaseContext.t)
    : M W (string * option error) :=
  perform (renderTemplate_body tmplStr ctx)
    (fun r => EvRenderTemplate tmplStr (fst r) (snd r)).

(** *** parseConfig *)

(** A line feed. *)
Definition LF : string := String (ascii_of_nat 10) EmptyString.

Definition defaultReleaseDescription : string :=
  "## Release {{.Version}}" +:+ LF +:+ LF
  +:+ "**Released:** {{.Date}}" +:+ LF
  +:+ "**Tag:** {{.TagName}}" +:+ LF
  +:+ "**Type:** {{.ReleaseType}}" +:+ LF +:+ LF
  +:+ "### Changes" +:+ LF
  +:+ "{{.ReleaseNotes}}".

(** The loop over [releaseIssue["labels"].([]any)]. *)
Fixpoint append_labels (labels : list string) (l : list any) : list string :=
  match l with
  | [] => labels
  | AString s :: l' => append_labels (labels ++ [s]) l'
  | _ :: l' => append_labels labels l'
  end.

Definition parseConfig (raw : gmap string any) : Config.t :=
  let parser := NewConfigParser raw in
  let cfg :=
    {| Config.APIKey := GetString parser "api_key" "LINEAR_API_KEY" EmptyString;
       Config.TeamID := GetString parser "team_id" "LINEAR_TEAM_ID" EmptyString;
       Config.TeamKey := GetString parser "team_key" EmptyString EmptyString;
       Config.ProjectID := GetString parser "project_id" EmptyString EmptyString;
       Config.IssuePrefix := GetString parser "issue_prefix" EmptyString EmptyString;
       Config.ReleasedState := GetString parser "released_state" EmptyString "Done";
       Config.CreateReleaseIssue := GetBool parser "create_release_issue" true;
       Config.ReleaseIssue :=
         ReleaseIssueConfig.mk EmptyString EmptyString [] 0 EmptyString;
       Config.UpdateLinkedIssues := GetBool parser "update_linked_issues" true;
       Config.AddReleaseComment := GetBool parser "add_release_comment" true;
       Config.CommentTemplate :=
         GetString parser "comment_template" EmptyString "Released in {{.Version}}" |} in
  (* Parse release issue config *)
  let cfg :=
    match raw !! "release_issue" with
    | Some (AMap releaseIssue) =>
        let releaseIssue : gmap string any := list_to_map releaseIssue in
        let riParser := NewConfigParser releaseIssue in
        let ri :=
          {| ReleaseIssueConfig.Title :=
               GetString riParser "title" EmptyString "Release {{.Version}}";
             ReleaseIssueConfig.Description :=
               GetString riParser "description" EmptyString defaultReleaseDescription;
             ReleaseIssueConfig.Labels := [];
             ReleaseIssueConfig.Priority := GetInt riParser "priority" 4;
             ReleaseIssueConfig.Assignee :=
               GetString riParser "assignee" EmptyString EmptyString |} in
        let ri :=
          match releaseIssue !! "labels" with
          | Some (ASlice labels) =>
              {| ReleaseIssueConfig.Title := ReleaseIssueConfig.Title ri;
                 ReleaseIssueConfig.Description := ReleaseIssueConfig.Description ri;
                 ReleaseIssueConfig.Labels :=
                   append_labels (ReleaseIssueConfig.Labels ri) labels;
                 ReleaseIssueConfig.Priority := ReleaseIssueConfig.Priority ri;
                 ReleaseIssueConfig.Assignee := ReleaseIssueConfig.Assignee ri |}
          | _ => ri
          end in
        Config.set_ReleaseIssue ri cfg
    | _ =>
        Config.set_ReleaseIssue
          {| ReleaseIssueConfig.Title := "Release {{.Version}}";
             ReleaseIssueConfig.Description := defaultReleaseDescription;
             ReleaseIssueConfig.Labels := ["release"];
             ReleaseIssueConfig.Priority := 4;
             ReleaseIssueConfig.Assignee := EmptyString |}
          cfg
    end in
  (* Use team key as issue prefix if not specified *)
  if String.eqb (Config.IssuePrefix cfg) EmptyString
     && negb (String.eqb (Config.TeamKey cfg) EmptyString)
  then Config.set_IssuePrefix (Config.TeamKey cfg) cfg
  else cfg.

(** *** Commit messages

    The four loops that handlePostPlan and handlePostPublish both run over
    [releaseCtx.Changes]. *)
Definition commitMessages (releaseCtx : ReleaseContext.t) : list string :=
  match ReleaseContext.Changes releaseCtx with
  | None => []
  | Some changes =>
      let description := ConventionalCommit.Description in
      map description (CategorizedChanges.Features changes)
      ++ map description (CategorizedChanges.Fixes changes)
      ++ map description (CategorizedChanges.Breaking changes)
      ++ map description (CategorizedChanges.Other changes)
  end.

(** *** handlePostPlan *)

Definition handlePostPlan (cfg : Config.t) (releaseCtx : ReleaseContext.t)
    (dryRun : bool) : M W ExecuteResponse.t :=
  let issues :=
    extractIssues equalFoldUnicode (commitMessages releaseCtx) (Config.IssuePrefix cfg) in
  if Nat.eqb (length issues) 0 then
    ret {| ExecuteResponse.Success := true;
           ExecuteResponse.Message := "No linked Linear issues found in commits";
           ExecuteResponse.Error := EmptyString;
           ExecuteResponse.Outputs := {[ "linked_issues" := [] ]} |}
  else
    ret {| ExecuteResponse.Success := true;
           ExecuteResponse.Message :=
             "Found " +:+ itoa (length issues) +:+ " linked Linear issues: "
             +:+ Join issues ", ";
           ExecuteResponse.Error := EmptyString;
           ExecuteResponse.Outputs := {[ "linked_issues" := issues ]} |}.

(** *** handleOnError *)

Definition handleOnError (cfg : Config.t) (releaseCtx : ReleaseContext.t)
    (dryRun : bool) : M W ExecuteResponse.t :=
  ret {| ExecuteResponse.Success := true;
         ExecuteResponse.Message := "Release failure noted (no Linear action taken)";
         ExecuteResponse.Error := EmptyString;
         ExecuteResponse.Outputs := ∅ |}.

(** *** createReleaseIssue *)

(** The [CreateIssueInput] that createReleaseIssue builds. *)
Definition release_issue_input (cfg : Config.t) (team : Team.t)
    (title description : string) : CreateIssueInput.t :=
  let input :=
    {| CreateIssueInput.TeamID := Team.ID team;
       CreateIssueInput.Title := title;
       CreateIssueInput.Description := description;
       CreateIssueInput.Priority :=
         ReleaseIssueConfig.Priority (Config.ReleaseIssue cfg);
       CreateIssueInput.ProjectID := EmptyString;
       CreateIssueInput.AssigneeID := EmptyString |} in
  if negb (String.eqb (Config.ProjectID cfg) EmptyString)
  then {| CreateIssueInput.TeamID := CreateIssueInput.TeamID input;
          CreateIssueInput.Title := CreateIssueInput.Title input;
          CreateIssueInput.Description := CreateIssueInput.Description input;
          CreateIssueInput.Priority := CreateIssueInput.Priority input;
          CreateIssueInput.ProjectID := Config.ProjectID cfg;
          CreateIssueInput.AssigneeID := CreateIssueInput.AssigneeID input |}
  else input.

Definition createReleaseIssue (client : LinearClient W) (cfg : Config.t)
    (releaseCtx : ReleaseContext.t) (team : Team.t) : M W (result Issue.t) :=
  r <- renderTemplate (ReleaseIssueConfig.Title (Config.ReleaseIssue cfg)) releaseCtx ;;
  match r with
  | (_, Some err) => ret (Err ("failed to render title template: " +:+ err))
  | (title, None) =>
      r <- renderTemplate
             (ReleaseIssueConfig.Description (Config.ReleaseIssue cfg)) releaseCtx ;;
      match r with
      | (_, Some err) =>
          ret (Err ("failed to render description template: " +:+ err))
      | (description, None) =>
          perform (CreateIssue client (release_issue_input cfg team title description))
            (EvCreateIssue (release_issue_input cfg team title description))
      end
  end.

(** *** processLinkedIssues *)

(** The loop over [team.States], which stops at the first state whose name
    folds to the configured one. *)
Fixpoint find_released_state (states : list State.t) (name : string)
    (releasedStateID : string) : string :=
  match states with
  | [] => releasedStateID
  | state :: states' =>
      if EqualFold equalFoldUnicode (State.Name state) name
      then State.ID state
      else find_released_state states' name releasedStateID
  end.

(** The counters and the warnings of processLinkedIssues. *)
Definition outcome : Type := nat * nat * list string.

(** One iteration of the loop over [issueIDs]. *)
Definition process_issue (client : LinearClient W) (cfg : Config.t)
    (releasedStateID comment : string) (acc : outcome) (issueID : string)
    : M W outcome :=
  let '(updated, commented, errs) := acc in
  (* Get issue details *)
  r <- perform (GetIssueByIdentifier client issueID)
         (EvGetIssueByIdentifier issueID) ;;
  match r with
  | Err err =>
      ret (updated, commented,
           errs ++ ["Issue " +:+ issueID +:+ " not found: " +:+ err])
  | Ok issue =>
      (* Update state *)
      ue <-
        (if Config.UpdateLinkedIssues cfg
            && negb (String.eqb releasedStateID EmptyString)
         then
           e <- perform (UpdateIssueState client (Issue.ID issue) releasedStateID)
                  (EvUpdateIssueState (Issue.ID issue) releasedStateID) ;;
           match e with
           | Some err =>
               ret (updated,
                    errs ++ ["Failed to update " +:+ issueID +:+ ": " +:+ err])
           | None => ret (S updated, errs)
           end
         else ret (updated, errs)) ;;
      let '(updated, errs) := ue in
      (* Add comment *)
      if Config.AddReleaseComment cfg && negb (String.eqb comment EmptyString)
      then
        e <- perform (AddComment client (Issue.ID issue) comment)
               (EvAddComment (Issue.ID issue) comment) ;;
        match e with
        | Some err =>
            ret (updated, commented,
                 errs ++ ["Failed to add comment to " +:+ issueID +:+ ": " +:+ err])
        | None => ret (updated, S commented, errs)
        end
      else ret (updated, commented, errs)
  end.

Fixpoint process_issues (client : LinearClient W) (cfg : Config.t)
    (releasedStateID comment : string) (issueIDs : list string) (acc : outcome)
    : M W outcome :=
  match issueIDs with
  | [] => ret acc
  | issueID :: issueIDs' =>
      acc' <- process_issue client cfg releasedStateID comment acc issueID ;;
      process_issues client cfg releasedStateID comment issueIDs' acc'
  end.

(** The block "Find the released state ID": the identifier found, or the
    empty string, and the warning when a configured name matches no state. *)
Definition released_state_id (cfg : Config.t) (team : Team.t)
    : string * list string :=
  if Config.UpdateLinkedIssues cfg
     && negb (String.eqb (Config.ReleasedState cfg) EmptyString)
  then
    let releasedStateID :=
      find_released_state (Team.States team) (Config.ReleasedState cfg)
        EmptyString in
    if String.eqb releasedStateID EmptyString
    then (releasedStateID,
          ["State '" +:+ Config.ReleasedState cfg
           +:+ "' not found in team workflow"])
    else (releasedStateID, [])
  else (EmptyString, []).

(** The block "Render comment template".  [cfg] is a pointer in the source
    and [cfg.AddReleaseComment] is cleared when the template does not render,
    so the configuration is returned with the comment and the warnings. *)
Definition render_comment (cfg : Config.t) (releaseCtx : ReleaseContext.t)
    (errs : list string) : M W (string * list string * Config.t) :=
  if Config.AddReleaseComment cfg
  then
    r <- renderTemplate (Config.CommentTemplate cfg) releaseCtx ;;
    match r with
    | (comment, Some err) =>
        ret (comment,
             errs ++ ["Failed to render comment template: " +:+ err],
             Config.set_AddReleaseComment false cfg)
    | (comment, None) => ret (comment, errs, cfg)
    end
  else ret (EmptyString, errs, cfg).

(** The configuration as the caller sees it afterwards is returned with the
    outcome. *)
Definition processLinkedIssues (client : LinearClient W) (cfg : Config.t)
    (releaseCtx : ReleaseContext.t) (team : Team.t) (issueIDs : list string)
    : M W (outcome * Config.t) :=
  let '(releasedStateID, errs) := released_state_id cfg team in
  rc <- render_comment cfg releaseCtx errs ;;
  let '(comment, errs, cfg) := rc in
  out <- process_issues client cfg releasedStateID comment issueIDs (0, 0, errs) ;;
  ret (out, cfg).

(** *** handlePostPublish *)

Definition handlePostPublish (cfg : Config.t) (releaseCtx : ReleaseContext.t)
    (dryRun : bool) : M W ExecuteResponse.t :=
  let results : list string := [] in
  if dryRun then
    results <-
      (if Config.CreateReleaseIssue cfg
       then
         r <- renderTemplate
                (ReleaseIssueConfig.Title (Config.ReleaseIssue cfg)) releaseCtx ;;
         ret (results ++ ["Would create release issue: " +:+ fst r])
       else ret results) ;;
    let results :=
      if Config.UpdateLinkedIssues cfg
      then results ++ ["Would update linked issues to state: "
                       +:+ Config.ReleasedState cfg]
      else results in
    results <-
      (if Config.AddReleaseComment cfg
       then
         r <- renderTemplate (Config.CommentTemplate cfg) releaseCtx ;;
         ret (results ++ ["Would add comment to linked issues: " +:+ fst r])
       else ret results) ;;
    ret {| ExecuteResponse.Success := true;
           ExecuteResponse.Message := Join results "; ";
           ExecuteResponse.Error := EmptyString;
           ExecuteResponse.Outputs := ∅ |}
  else
    let client := NewLinearClient (Config.APIKey cfg) in
    (* Get team info *)
    r <- perform (GetTeam client (Config.TeamID cfg) (Config.TeamKey cfg))
           (EvGetTeam (Config.TeamID cfg) (Config.TeamKey cfg)) ;;
    match r with
    | Err err =>
        ret {| ExecuteResponse.Success := false;
               ExecuteResponse.Message := EmptyString;
               ExecuteResponse.Error := "Failed to get team: " +:+ err;
               ExecuteResponse.Outputs := ∅ |}
    | Ok team =>
        (* Create release issue *)
        created <-
          (if Config.CreateReleaseIssue cfg
           then
             r <- createReleaseIssue client cfg releaseCtx team ;;
             match r with
             | Err err => ret (Err ("Failed to create release issue: " +:+ err))
             | Ok issue =>
                 ret (Ok (results ++
                            ["Created release issue: " +:+ Issue.Identifier issue
                             +:+ " (" +:+ Issue.URL issue +:+ ")"]))
             end
           else ret (Ok results)) ;;
        match created with
        | Err msg =>
            ret {| ExecuteResponse.Success := false;
                   ExecuteResponse.Message := EmptyString;
                   ExecuteResponse.Error := msg;
                   ExecuteResponse.Outputs := ∅ |}
        | Ok results =>
            (* Extract and update linked issues *)
            results <-
              (if Config.UpdateLinkedIssues cfg || Config.AddReleaseComment cfg
               then
                 let issues :=
                   extractIssues equalFoldUnicode (commitMessages releaseCtx)
                     (Config.IssuePrefix cfg) in
                 if 0 <? length issues
                 then
                   out <- processLinkedIssues client cfg releaseCtx team issues ;;
                   let '(updated, commented, errs, cfg) := out in
                   let results :=
                     if 0 <? updated
                     then results ++ ["Updated " +:+ itoa updated +:+ " issue(s) to '"
                                      +:+ Config.ReleasedState cfg +:+ "'"]
                     else results in
                   let results :=
                     if 0 <? commented
                     then results ++ ["Added release comment to " +:+ itoa commented
                                      +:+ " issue(s)"]
                     else results in
                   ret (results ++ map (fun e => "Warning: " +:+ e) errs)
                 else ret results
               else ret results) ;;
            let results :=
              if Nat.eqb (length results) 0
              then results ++ ["No actions taken"]
              else results in
            ret {| ExecuteResponse.Success := true;
                   ExecuteResponse.Message := Join results "; ";
                   ExecuteResponse.Error := EmptyString;
                   ExecuteResponse.Outputs := ∅ |}
        end
    end.

(** *** Execute *)

Definition Execute (req : ExecuteRequest.t) : M W ExecuteResponse.t :=
  let cfg := parseConfig (ExecuteRequest.Config_ req) in
  match ExecuteRequest.Hook_ req with
  | HookPostPlan =>
      handlePostPlan cfg (ExecuteRequest.Context req) (ExecuteRequest.DryRun req)
  | HookPostPublish =>
      handlePostPublish cfg (ExecuteRequest.Context req) (ExecuteRequest.DryRun req)
  | HookOnError =>
      handleOnError cfg (ExecuteRequest.Context req) (ExecuteRequest.DryRun req)
  | HookOther name =>
      ret {| ExecuteResponse.Success := true;
             ExecuteResponse.Message := "Hook " +:+ name +:+ " not implemented";
             ExecuteResponse.Error := EmptyString;
             ExecuteResponse.Outputs := ∅ |}
  end.

End Plugin.

(** ** client.go: the Linear GraphQL client

    The client's methods are embedded over the parts of net/http and
    encoding/json they call, which are section variables: the marshaller of
    the request, the validity check of http.NewRequestWithContext, the round
    trip of the HTTP client (with the reading of the response body), and one
    decoder for each shape of payload that json.Unmarshal is asked for. *)

(** [n] tab characters, as in the raw strings of the queries. *)
Fixpoint tabs (n : nat) : string :=
  match n with
  | O => EmptyString
  | S n' => String (ascii_of_nat 9) (tabs n')
  end.

Module Viewer.
Record t : Type := mk { ID : string; Name : string; Email : string }.
End Viewer.

Module GraphQLRequest.
Record t : Type :=
  mk { Query : string;
       Variables : option (gmap string any) }.   (* nil for no variables *)
End GraphQLRequest.

Module GraphQLError.
Record t : Type := mk { Message : string; Path : list string; Code : string }.
End GraphQLError.

Module GraphQLResponse.
Record t : Type := mk { Data : string; Errors : list GraphQLError.t }.
End GraphQLResponse.

(** The settings of the [http.Client] the constructor builds. *)
Module HTTPClient.
Record t : Type :=
  mk { Timeout : Z;               (* seconds *)
       TLSMinVersion : Z }.       (* tls.VersionTLS12 is 0x0303 *)
End HTTPClient.

Module Request.
Record t : Type :=
  mk { Method : string; URL : string; Header : gmap string string;
       Body : string }.

(** [req.Header.Set(key, value)] *)
Definition Header_Set (key value : string) (r : t) : t :=
  mk (Method r) (URL r) (<[key := value]> (Header r)) (Body r).
End Request.

(** A response: its status code and what io.ReadAll gives for its body. *)
Module Response.
Record t : Type := mk { StatusCode : nat; Body : result string }.
End Response.

(** The anonymous struct that a team is decoded into. *)
Module TeamNode.
Record t : Type :=
  mk { ID : string; Key : string; Name : string; States : list State.t }.
End TeamNode.

(** The three shapes of what [execute] returns: a response and no error, a
    response together with the error of its first GraphQL error, or an error
    alone. *)
Inductive executed : Type :=
  | Responded (resp : GraphQLResponse.t) (err : option error)
  | Failed (err : error).

(** The query of GetViewer. *)
Definition viewerQuery : string :=
  "query { viewer { id name email } }".

(** The query of GetTeam, by id. *)
Definition teamByIDQuery : string :=
  Join
    [ "query GetTeam($id: String!) {";
      tabs 3 +:+ "team(id: $id) {";
      tabs 4 +:+ "id";
      tabs 4 +:+ "key";
      tabs 4 +:+ "name";
      tabs 4 +:+ "states {";
      tabs 5 +:+ "nodes {";
      tabs 6 +:+ "id";
      tabs 6 +:+ "name";
      tabs 6 +:+ "type";
      tabs 5 +:+ "}";
      tabs 4 +:+ "}";
      tabs 3 +:+ "}";
      tabs 2 +:+ "}" ]
    LF.

(** The query of GetTeam, by key. *)
Definition teamsQuery : string :=
  Join
    [ "query GetTeams {";
      tabs 3 +:+ "teams {";
      tabs 4 +:+ "nodes {";
      tabs 5 +:+ "id";
      tabs 5 +:+ "key";
      tabs 5 +:+ "name";
      tabs 5 +:+ "states {";
      tabs 6 +:+ "nodes {";
      tabs 7 +:+ "id";
      tabs 7 +:+ "name";
      tabs 7 +:+ "type";
      tabs 6 +:+ "}";
      tabs 5 +:+ "}";
      tabs 4 +:+ "}";
      tabs 3 +:+ "}";
      tabs 2 +:+ "}" ]
    LF.

(** The query of GetIssueByIdentifier. *)
Definition issueQuery : string :=
  Join
    [ "query GetIssue($id: String!) {";
      tabs 2 +:+ "issue(id: $id) {";
      tabs 3 +:+ "id";
      tabs 3 +:+ "identifier";
      tabs 3 +:+ "title";
      tabs 3 +:+ "url";
      tabs 3 +:+ "state {";
      tabs 4 +:+ "id";
      tabs 4 +:+ "name";
      tabs 4 +:+ "type";
      tabs 3 +:+ "}";
      tabs 2 +:+ "}";
      tabs 1 +:+ "}" ]
    LF.

(** The query of CreateIssue. *)
Definition createIssueMutation : string :=
  Join
    [ "mutation CreateIssue($input: IssueCreateInput!) {";
      tabs 2 +:+ "issueCreate(input: $input) {";
      tabs 3 +:+ "success";
      tabs 3 +:+ "issue {";
      tabs 4 +:+ "id";
      tabs 4 +:+ "identifier";
      tabs 4 +:+ "title";
      tabs 4 +:+ "url";
      tabs 4 +:+ "state {";
      tabs 5 +:+ "id";
      tabs 5 +:+ "name";
      tabs 5 +:+ "type";
      tabs 4 +:+ "}";
      tabs 3 +:+ "}";
      tabs 2 +:+ "}";
      tabs 1 +:+ "}" ]
    LF.

(** The query of UpdateIssueState. *)
Definition updateIssueStateMutation : string :=
  Join
    [ "mutation UpdateIssueState($id: String!, $input: IssueUpdateInput!) {";
      tabs 2 +:+ "issueUpdate(id: $id, input: $input) {";
      tabs 3 +:+ "success";
      tabs 2 +:+ "}";
      tabs 1 +:+ "}" ]
    LF.

(** The query of AddComment. *)
Definition addCommentMutation : string :=
  Join
    [ "mutation AddComment($input: CommentCreateInput!) {";
      tabs 2 +:+ "commentCreate(input: $input) {";
      tabs 3 +:+ "success";
      tabs 2 +:+ "}";
      tabs 1 +:+ "}" ]
    LF.

Module Client.

Record t : Type :=
  mk { endpoint : string; apiKey : string; httpClient : HTTPClient.t }.

Definition linearAPIEndpoint : string := "https://api.linear.app/graphql".
Definition defaultTimeout : Z := 30.

Definition NewLinearClient (apiKey : string) : t :=
  {| endpoint := linearAPIEndpoint;
     apiKey := apiKey;
     httpClient :=
       {| HTTPClient.Timeout := defaultTimeout;
          HTTPClient.TLSMinVersion := 771 |} |}.

Section Methods.

Context {W : Type}.
(** [json.Marshal(reqBody)] *)
Variable json_Marshal : GraphQLRequest.t -> result string.
(** The error, if any, that http.NewRequestWithContext reports for a method
    and a URL. *)
Variable request_error : string -> string -> option error.
(** [c.httpClient.Do(req)] followed by [io.ReadAll(resp.Body)] *)
Variable http_Do : HTTPClient.t -> Request.t -> W -> result Response.t * W.
(** [json.Unmarshal(body, &gqlResp)] *)
Variable decode_response : string -> result GraphQLResponse.t.
(** [json.Unmarshal(resp.Data, &result)] for each type of [result]. *)
Variable decode_viewer : string -> result Viewer.t.
Variable decode_team : string -> result TeamNode.t.
Variable decode_teams : string -> result (list TeamNode.t).
Variable decode_issue : string -> result Issue.t.
Variable decode_issue_create : string -> result (bool * Issue.t).
Variable decode_issue_update : string -> result bool.
Variable decode_comment_create : string -> result bool.

(** http.NewRequestWithContext: a request with the given method, URL and
    body and no header, unless the method or the URL is refused. *)
Definition NewRequestWithContext (method url body : string) : result Request.t :=
  match request_error method url with
  | Some err => Err err
  | None =>
      Ok {| Request.Method := method; Request.URL := url;
            Request.Header := ∅; Request.Body := body |}
  end.

(** *** execute *)

Definition execute (c : t) (query : string)
    (variables : option (gmap string any)) (w : W) : executed * W :=
  let reqBody :=
    {| GraphQLRequest.Query := query; GraphQLRequest.Variables := variables |} in
  match json_Marshal reqBody with
  | Err err => (Failed ("failed to marshal request: " +:+ err), w)
  | Ok jsonBody =>
      match NewRequestWithContext "POST" (endpoint c) jsonBody with
      | Err err => (Failed ("failed to create request: " +:+ err), w)
      | Ok req =>
          let req := Request.Header_Set "Content-Type" "application/json" req in
          let req := Request.Header_Set "Authorization" (apiKey c) req in
          match http_Do (httpClient c) req w with
          | (Err err, w') => (Failed ("failed to execute request: " +:+ err), w')
          | (Ok resp, w') =>
              match Response.Body resp with
              | Err err => (Failed ("failed to read response: " +:+ err), w')
              | Ok body =>
                  if negb (Nat.eqb (Response.StatusCode resp) 200)
                  then (Failed ("API error: " +:+ body +:+ " (status "
                                +:+ itoa (Response.StatusCode resp) +:+ ")"), w')
                  else
                    match decode_response body with
                    | Err err =>
                        (Failed ("failed to unmarshal response: " +:+ err), w')
                    | Ok gqlResp =>
                        match GraphQLResponse.Errors gqlResp with
                        | e :: _ =>
                            (Responded gqlResp
                               (Some ("GraphQL error: " +:+ GraphQLError.Message e)),
                             w')
                        | [] => (Responded gqlResp None, w')
                        end
                    end
              end
          end
      end
  end.

(** *** GetViewer *)

Definition GetViewer (c : t) (w : W) : result Viewer.t * W :=
  match execute c viewerQuery None w with
  | (Failed err, w') | (Responded _ (Some err), w') => (Err err, w')
  | (Responded resp None, w') =>
      match decode_viewer (GraphQLResponse.Data resp) with
      | Err err => (Err ("failed to parse viewer: " +:+ err), w')
      | Ok viewer => (Ok viewer, w')
      end
  end.

(** *** GetTeam *)

(** [&Team{ID: t.ID, Key: t.Key, Name: t.Name, States: t.States.Nodes}] *)
Definition team_of_node (t : TeamNode.t) : Team.t :=
  {| Team.ID := TeamNode.ID t; Team.Key := TeamNode.Key t;
     Team.Name := TeamNode.Name t; Team.States := TeamNode.States t |}.

(** The loop "Find team by key": the first node with exactly this key. *)
Fixpoint find_team_by_key (nodes : list TeamNode.t) (teamKey : string)
    : result Team.t :=
  match nodes with
  | [] => Err ("team with key '" +:+ teamKey +:+ "' not found")
  | t :: nodes' =>
      if String.eqb (TeamNode.Key t) teamKey then Ok (team_of_node t)
      else find_team_by_key nodes' teamKey
  end.

Definition GetTeam (c : t) (teamID teamKey : string) (w : W) : result Team.t * W :=
  let chosen : option (string * option (gmap string any)) :=
    if negb (String.eqb teamID EmptyString)
    then Some (teamByIDQuery, Some {[ "id" := AString teamID ]})
    else if negb (String.eqb teamKey EmptyString)
    then Some (teamsQuery, None)
    else None in
  match chosen with
  | None => (Err "either team_id or team_key is required", w)
  | Some (query, variables) =>
      match execute c query variables w with
      | (Failed err, w') | (Responded _ (Some err), w') => (Err err, w')
      | (Responded resp None, w') =>
          if negb (String.eqb teamID EmptyString)
          then
            match decode_team (GraphQLResponse.Data resp) with
            | Err err => (Err ("failed to parse team: " +:+ err), w')
            | Ok node => (Ok (team_of_node node), w')
            end
          else
            match decode_teams (GraphQLResponse.Data resp) with
            | Err err => (Err ("failed to parse teams: " +:+ err), w')
            | Ok nodes => (find_team_by_key nodes teamKey, w')
            end
      end
  end.

(** *** GetIssueByIdentifier *)

Definition GetIssueByIdentifier (c : t) (identifier : string) (w : W)
    : result Issue.t * W :=
  match execute c issueQuery (Some {[ "id" := AString identifier ]}) w with
  | (Failed err, w') | (Responded _ (Some err), w') => (Err err, w')
  | (Responded resp None, w') =>
      match decode_issue (GraphQLResponse.Data resp) with
      | Err err => (Err ("failed to parse issue: " +:+ err), w')
      | Ok issue =>
          if String.eqb (Issue.ID issue) EmptyString
          then (Err ("issue " +:+ identifier +:+ " not found"), w')
          else (Ok issue, w')
      end
  end.

(** *** CreateIssue *)

(** The map [gqlInput]: the team and the title always, the other fields when
    they are not zero. *)
Definition gqlInput (input : CreateIssueInput.t) : gmap string any :=
  let m : gmap string any :=
    <["title" := AString (CreateIssueInput.Title input)]>
      (<["teamId" := AString (CreateIssueInput.TeamID input)]> ∅) in
  let m :=
    if negb (String.eqb (CreateIssueInput.Description input) EmptyString)
    then <["description" := AString (CreateIssueInput.Description input)]> m
    else m in
  let m :=
    if (0 <? CreateIssueInput.Priority input)%Z
    then <["priority" := AInt (CreateIssueInput.Priority input)]> m
    else m in
  let m :=
    if negb (String.eqb (CreateIssueInput.ProjectID input) EmptyString)
    then <["projectId" := AString (CreateIssueInput.ProjectID input)]> m
    else m in
  if negb (String.eqb (CreateIssueInput.AssigneeID input) EmptyString)
  then <["assigneeId" := AString (CreateIssueInput.AssigneeID input)]> m
  else m.

Definition CreateIssue (c : t) (input : CreateIssueInput.t) (w : W)
    : result Issue.t * W :=
  match execute c createIssueMutation
          (Some {[ "input" := AMap (map_to_list (gqlInput input)) ]}) w with
  | (Failed err, w') | (Responded _ (Some err), w') => (Err err, w')
  | (Responded resp None, w') =>
      match decode_issue_create (GraphQLResponse.Data resp) with
      | Err err => (Err ("failed to parse create response: " +:+ err), w')
      | Ok (success, issue) =>
          if negb success then (Err "failed to create issue", w')
          else (Ok issue, w')
      end
  end.

(** *** UpdateIssueState *)

Definition UpdateIssueState (c : t) (issueID stateID : string) (w : W)
    : option error * W :=
  match execute c updateIssueStateMutation
          (Some (<["id" := AString issueID]>
                   {[ "input" := AMap [("stateId", AString stateID)] ]})) w with
  | (Failed err, w') | (Responded _ (Some err), w') => (Some err, w')
  | (Responded resp None, w') =>
      match decode_issue_update (GraphQLResponse.Data resp) with
      | Err err => (Some ("failed to parse update response: " +:+ err), w')
      | Ok success =>
          if negb success then (Some "failed to update issue state", w')
          else (None, w')
      end
  end.

(** *** AddComment *)

Definition AddComment (c : t) (issueID body : string) (w : W)
    : option error * W :=
  match execute c addCommentMutation
          (Some {[ "input" :=
                     AMap [("issueId", AString issueID); ("body", AString body)] ]})
          w with
  | (Failed err, w') | (Responded _ (Some err), w') => (Some err, w')
  | (Responded resp None, w') =>
      match decode_comment_create (GraphQLResponse.Data resp) with
      | Err err => (Some ("failed to parse comment response: " +:+ err), w')
      | Ok success =>
          if negb success then (Some "failed to add comment", w')
          else (None, w')
      end
  end.

(** The methods that the hooks call, as the plugin sees the client. *)
Definition ops (c : t) : LinearClient W :=
  Build_LinearClient W (GetTeam c) (GetIssueByIdentifier c) (CreateIssue c)
    (UpdateIssueState c) (AddComment c).

End Methods.

End Client.

(** ** Validate *)

Module ValidationError.
Record t : Type := mk { Field : string; Message : string }.
End ValidationError.

Module ValidateResponse.
Record t : Type := mk { Valid : bool; Errors : list ValidationError.t }.
End ValidateResponse.

(** helpers.ValidationBuilder of the plugin SDK: the errors added so far, in
    the order of the calls; [Build] reports the configuration valid when
    there is none. *)
Definition NewValidationBuilder : list ValidationError.t := [].

Definition AddError (field message : string) (vb : list ValidationError.t)
    : list ValidationError.t :=
  vb ++ [ValidationError.mk field message].

Definition Build (vb : list ValidationError.t) : ValidateResponse.t :=
  {| ValidateResponse.Valid := Nat.eqb (length vb) 0;
     ValidateResponse.Errors := vb |}.

(** strings.HasPrefix *)
Definition HasPrefix (s prefix : string) : bool := String.prefix prefix s.

Section Validation.

Context {W : Type}.
Variable NewConfigParser : gmap string any -> ConfigParser.
(** The method [GetViewer] of the client. *)
Variable GetViewer : Client.t -> W -> result Viewer.t * W.

Definition Validate (config : gmap string any) (w : W) : ValidateResponse.t * W :=
  let vb := NewValidationBuilder in
  let cfg := parseConfig NewConfigParser config in
  (* Validate API key *)
  if String.eqb (Config.APIKey cfg) EmptyString
  then (Build (AddError "api_key" "Linear API key is required" vb), w)
  else
    (* Validate team configuration *)
    let vb :=
      if String.eqb (Config.TeamID cfg) EmptyString
         && String.eqb (Config.TeamKey cfg) EmptyString
      then AddError "team_id" "Either team_id or team_key is required" vb
      else vb in
    (* Validate priority range *)
    let vb :=
      if ((ReleaseIssueConfig.Priority (Config.ReleaseIssue cfg) <? 0)
          || (4 <? ReleaseIssueConfig.Priority (Config.ReleaseIssue cfg)))%Z
      then AddError "release_issue.priority" "Priority must be between 0 and 4" vb
      else vb in
    (* Validate API key format *)
    let vb :=
      if negb (String.eqb (Config.APIKey cfg) EmptyString)
         && negb (HasPrefix (Config.APIKey cfg) "lin_api_")
      then AddError "api_key"
             "Invalid Linear API key format (should start with 'lin_api_')" vb
      else vb in
    (* Test API connectivity if key is provided *)
    if negb (String.eqb (Config.APIKey cfg) EmptyString)
       && HasPrefix (Config.APIKey cfg) "lin_api_"
    then
      let client := Client.NewLinearClient (Config.APIKey cfg) in
      match GetViewer client w with
      | (Err err, w') =>
          (Build (AddError "api_key"
                    ("Failed to authenticate with Linear: " +:+ err) vb), w')
      | (Ok _, w') => (Build vb, w')
      end
    else (Build vb, w).

End Validation.

(** ** Specification vocabulary *)

Section ExtractorSpec.

Variable equalFoldUnicode : string -> string -> bool.

(** The tokens that pass the prefix test, over all commits in the order
    supplied and within a commit from left to right; duplicates included. *)
Definition retained_tokens (commits : list string) (prefix : string) : list string :=
  concat
    (map (fun commit =>
            map (fun m : list string => m !!! 0)
              (List.filter
                 (fun m : list string =>
                    String.eqb prefix EmptyString
                    || EqualFold equalFoldUnicode (m !!! 1) prefix)
                 (FindAllStringSubmatch issuePattern commit)))
       commits).

End ExtractorSpec.

(** The effect of one retained token on [seen] and [issues]. *)
Definition add_id (acc : gmap string bool * list string) (id : string)
    : gmap string bool * list string :=
  if negb (default false (fst acc !! id))
  then (<[id := true]> (fst acc), snd acc ++ [id])
  else acc.

(** [seen] holds exactly the identifiers already in [issues]. *)
Definition seen_ok (acc : gmap string bool * list string) : Prop :=
  forall id, default false (fst acc !! id) = true <-> id ∈ snd acc.

(** [out] lists the distinct elements of [toks], each at the rank of its
    first occurrence. *)
Definition first_occurrence_order (toks out : list string) : Prop :=
  NoDup out
  /\ (forall x, x ∈ out <-> x ∈ toks)
  /\ (forall i j x y,
        out !! i = Some x -> out !! j = Some y -> i < j ->
        exists pre post, toks = pre ++ x :: post /\ (x ∉ pre) /\ (y ∉ pre)).

(** The bytes of a Go string. *)
Definition bytes (s : string) : list ascii := list_ascii_of_string s.

Definition all_bytes (cls : ascii -> bool) (s : string) : bool :=
  forallb cls (bytes s).

(** Whether the neighbouring byte, if there is one, is in the class. *)
Definition class_at (cls : ascii -> bool) (o : option ascii) : bool :=
  match o with
  | Some c => cls c
  | None => false
  end.

(** Letters and digits. *)
Definition is_alnum (c : ascii) : bool := is_upper c || is_lower c || is_digit c.

(** [text] is [pre], then 2 to 10 upper-case letters, a hyphen and one or
    more digits, then [post], and neither the byte before the letters nor the
    byte after the digits is in the class [wordp]. *)
Record token_occurrence (wordp : ascii -> bool)
    (text pre letters digits post : string) : Prop :=
  { occ_text : text = pre +:+ letters +:+ "-" +:+ digits +:+ post;
    occ_letters_length : 2 <= String.length letters <= 10;
    occ_letters : all_bytes is_upper letters = true;
    occ_digits_length : 1 <= String.length digits;
    occ_digits : all_bytes is_digit digits = true;
    occ_left : class_at wordp (last (bytes pre)) = false;
    occ_right : class_at wordp (head (bytes post)) = false }.

(** The shape of a match, on lists of bytes. *)
Definition token_bytes (letters digits : list ascii) : Prop :=
  2 <= length letters <= 10
  /\ Forall (fun c => is_upper c = true) letters
  /\ 1 <= length digits
  /\ Forall (fun c => is_digit c = true) digits.

(** Bytes below 0x80 (utf8.RuneSelf). *)
Definition is_ascii (c : ascii) : bool := (byte_of c <? 128)%Z.

(** ASCII case mapping, as strings.ToUpper acts on ASCII text. *)
Definition to_upper (c : ascii) : ascii :=
  if is_lower c then ascii_of_N (N_of_ascii c - 32) else c.

Fixpoint ToUpper (s : string) : string :=
  match s with
  | EmptyString => EmptyString
  | String c s' => String (to_upper c) (ToUpper s')
  end.

(** ** Runs and traces *)

(** A computation started in world [w] with an empty trace: its result and
    the events it produced. *)
Definition run {W A : Type} (m : M W A) (w : W) : A * list Event :=
  let (a, st) := m {| world := w; trace := [] |} in (a, trace st).

(** Calls to the Linear client, as opposed to template rendering. *)
Definition is_gateway (e : Event) : bool :=
  match e with
  | EvRenderTemplate _ _ _ => false
  | _ => true
  end.

Definition is_fetch (e : Event) : bool :=
  match e with
  | EvGetIssueByIdentifier _ _ => true
  | _ => false
  end.

Definition is_update (e : Event) : bool :=
  match e with
  | EvUpdateIssueState _ _ _ => true
  | _ => false
  end.

Definition is_comment (e : Event) : bool :=
  match e with
  | EvAddComment _ _ _ => true
  | _ => false
  end.

Definition is_render (e : Event) : bool :=
  match e with
  | EvRenderTemplate _ _ _ => true
  | _ => false
  end.

(** Calls that belong to the reconciliation of linked issues. *)
Definition is_reconciliation (e : Event) : bool :=
  is_fetch e || is_update e || is_comment e.

(** The identifiers fetched, in the order of the calls. *)
Fixpoint fetched_ids (tr : list Event) : list string :=
  match tr with
  | [] => []
  | EvGetIssueByIdentifier id _ :: tr' => id :: fetched_ids tr'
  | _ :: tr' => fetched_ids tr'
  end.

(** State updates and comments that succeeded. *)
Fixpoint ok_updates (tr : list Event) : nat :=
  match tr with
  | [] => 0
  | EvUpdateIssueState _ _ None :: tr' => S (ok_updates tr')
  | _ :: tr' => ok_updates tr'
  end.

Fixpoint ok_comments (tr : list Event) : nat :=
  match tr with
  | [] => 0
  | EvAddComment _ _ None :: tr' => S (ok_comments tr')
  | _ :: tr' => ok_comments tr'
  end.

(** Issues that were fetched successfully. *)
Fixpoint ok_fetches (tr : list Event) : nat :=
  match tr with
  | [] => 0
  | EvGetIssueByIdentifier _ (Ok _) :: tr' => S (ok_fetches tr')
  | _ :: tr' => ok_fetches tr'
  end.

(** The warning of each failed call of the per-issue loop, in order;
    [current] is the identifier fetched last. *)
Fixpoint warnings_of (current : string) (tr : list Event) : list string :=
  match tr with
  | [] => []
  | EvGetIssueByIdentifier id (Err err) :: tr' =>
      ("Issue " +:+ id +:+ " not found: " +:+ err) :: warnings_of id tr'
  | EvGetIssueByIdentifier id (Ok _) :: tr' => warnings_of id tr'
  | EvUpdateIssueState _ _ (Some err) :: tr' =>
      ("Failed to update " +:+ current +:+ ": " +:+ err) :: warnings_of current tr'
  | EvAddComment _ _ (Some err) :: tr' =>
      ("Failed to add comment to " +:+ current +:+ ": " +:+ err)
      :: warnings_of current tr'
  | _ :: tr' => warnings_of current tr'
  end.

(** The next call is the fetch of another issue, or there is none. *)
Definition fetch_or_end (next : option Event) : Prop :=
  match next with
  | None => True
  | Some e => is_fetch e = true
  end.

(** What may follow each call of a reconciliation, when state updates go to
    [stateID] if [updOn] and comments carry [comment] if [comOn]. *)
Definition step_ok (updOn : bool) (stateID : string) (comOn : bool)
    (comment : string) (e : Event) (next : option Event) : Prop :=
  match e with
  | EvGetIssueByIdentifier _ (Err _) => fetch_or_end next
  | EvGetIssueByIdentifier _ (Ok issue) =>
      if updOn
      then exists r, next = Some (EvUpdateIssueState (Issue.ID issue) stateID r)
      else if comOn
      then exists r, next = Some (EvAddComment (Issue.ID issue) comment r)
      else fetch_or_end next
  | EvUpdateIssueState issueID _ _ =>
      if comOn
      then exists r, next = Some (EvAddComment issueID comment r)
      else fetch_or_end next
  | EvAddComment _ _ _ => fetch_or_end next
  | EvRenderTemplate _ _ _ => fetch_or_end next
  | EvGetTeam _ _ _ | EvCreateIssue _ _ => False
  end.

(** Whether the loop attempts state updates, and comments. *)
Definition updates_on (cfg : Config.t) (releasedStateID : string) : bool :=
  Config.UpdateLinkedIssues cfg && negb (String.eqb releasedStateID EmptyString).

Definition comments_on (cfg : Config.t) (comment : string) : bool :=
  Config.AddReleaseComment cfg && negb (String.eqb comment EmptyString).

(** Every event of [tr], with the event that follows it ([after] for the
    last one), satisfies [R]. *)
Fixpoint protocol (R : Event -> option Event -> Prop) (tr : list Event)
    (after : option Event) : Prop :=
  match tr with
  | [] => True
  | e :: tr' =>
      R e (match tr' with [] => after | e' :: _ => Some e' end)
      /\ protocol R tr' after
  end.

(** ** Vocabulary for whole runs *)

(** A computation that only appends to the trace and does not read it: run
    after a trace [t] it does what it does after the empty trace, with [t] in
    front. *)
Definition framed {W A : Type} (m : M W A) : Prop :=
  forall w t,
    m {| world := w; trace := t |}
    = (let (a, st) := m {| world := w; trace := [] |} in
       (a, {| world := world st; trace := t ++ trace st |})).

Definition is_get_team (e : Event) : bool :=
  match e with
  | EvGetTeam _ _ _ => true
  | _ => false
  end.

Definition is_create (e : Event) : bool :=
  match e with
  | EvCreateIssue _ _ => true
  | _ => false
  end.

(** Calls that failed. *)
Definition is_failed (e : Event) : bool :=
  match e with
  | EvRenderTemplate _ _ (Some _) => true
  | EvGetTeam _ _ (Err _) => true
  | EvCreateIssue _ (Err _) => true
  | EvGetIssueByIdentifier _ (Err _) => true
  | EvUpdateIssueState _ _ (Some _) => true
  | EvAddComment _ _ (Some _) => true
  | _ => false
  end.

Section RunSpec.

Context {W : Type}.
Variable time_Now : W -> string * W.
Variable Template : Type.
Variable template_Parse : string -> result Template.
Variable template_Execute : Template -> templateData.t -> result string.
Variable equalFoldUnicode : string -> string -> bool.

(** The step "Create release issue" of handlePostPublish: the lines of the
    message so far, or the error that ends the run. *)
Definition create_step (client : LinearClient W) (cfg : Config.t)
    (releaseCtx : ReleaseContext.t) (team : Team.t)
    : M W (result (list string)) :=
  if Config.CreateReleaseIssue cfg
  then
    bind (createReleaseIssue time_Now Template template_Parse template_Execute
            client cfg releaseCtx team)
      (fun r =>
         match r with
         | Err err => ret (Err ("Failed to create release issue: " +:+ err))
         | Ok issue =>
             ret (Ok ([] ++
                        ["Created release issue: " +:+ Issue.Identifier issue
                         +:+ " (" +:+ Issue.URL issue +:+ ")"]))
         end)
  else ret (Ok []).

(** The step "Extract and update linked issues". *)
Definition reconcile_step (client : LinearClient W) (cfg : Config.t)
    (releaseCtx : ReleaseContext.t) (team : Team.t) (results : list string)
    : M W (list string) :=
  if Config.UpdateLinkedIssues cfg || Config.AddReleaseComment cfg
  then
    let issues :=
      extractIssues equalFoldUnicode (commitMessages releaseCtx)
        (Config.IssuePrefix cfg) in
    if 0 <? length issues
    then
      bind (processLinkedIssues time_Now Template template_Parse template_Execute
              equalFoldUnicode client cfg releaseCtx team issues)
        (fun out =>
           let '(updated, commented, errs, cfg) := out in
           let results :=
             if 0 <? updated
             then results ++ ["Updated " +:+ itoa updated +:+ " issue(s) to '"
                              +:+ Config.ReleasedState cfg +:+ "'"]
             else results in
           let results :=
             if 0 <? commented
             then results ++ ["Added release comment to " +:+ itoa commented
                              +:+ " issue(s)"]
             else results in
           ret (results ++ map (fun e => "Warning: " +:+ e) errs))
    else ret results
  else ret results.

End RunSpec.

(** The response of a run that failed, and of one that completed. *)
Definition failure (msg : string) : ExecuteResponse.t :=
  {| ExecuteResponse.Success := false;
     ExecuteResponse.Message := EmptyString;
     ExecuteResponse.Error := msg;
     ExecuteResponse.Outputs := ∅ |}.

Definition completed (results : list string) : ExecuteResponse.t :=
  {| ExecuteResponse.Success := true;
     ExecuteResponse.Message :=
       Join (if Nat.eqb (length results) 0
             then results ++ ["No actions taken"] else results) "; ";
     ExecuteResponse.Error := EmptyString;
     ExecuteResponse.Outputs := ∅ |}.

(** ** Failure of the release issue *)

Section ReleaseIssueSpec.

Context {W : Type}.
Variable time_Now : W -> string * W.
Variable Template : Type.
Variable template_Parse : string -> result Template.
Variable template_Execute : Template -> templateData.t -> result string.

(** Starting in world [w], the title template does not render, or it does
    and the description template does not, or both do and the create-issue
    call with the rendered texts returns an error. *)
Definition release_issue_fails (client : LinearClient W) (cfg : Config.t)
    (ctx : ReleaseContext.t) (team : Team.t) (w : W) : bool :=
  let render := renderTemplate_body time_Now Template template_Parse template_Execute in
  match render (ReleaseIssueConfig.Title (Config.ReleaseIssue cfg)) ctx w with
  | ((_, Some _), _) => true
  | ((title, None), w1) =>
      match render (ReleaseIssueConfig.Description (Config.ReleaseIssue cfg)) ctx w1 with
      | ((_, Some _), _) => true
      | ((description, None), w2) =>
          match CreateIssue client (release_issue_input cfg team title description) w2 with
          | (Err _, _) => true
          | (Ok _, _) => false
          end
      end
  end.

End ReleaseIssueSpec.

(** A render or a create-issue call that returned an error. *)
Definition is_failed_release_step (e : Event) : bool :=
  match e with
  | EvRenderTemplate _ _ (Some _) => true
  | EvCreateIssue _ (Err _) => true
  | _ => false
  end.

(** The lines of the dry-run message. *)
Definition dry_run_lines (cfg : Config.t) (title comment : string) : list string :=
  (if Config.CreateReleaseIssue cfg
   then ["Would create release issue: " +:+ title] else [])
  ++ (if Config.UpdateLinkedIssues cfg
      then ["Would update linked issues to state: " +:+ Config.ReleasedState cfg]
      else [])
  ++ (if Config.AddReleaseComment cfg
      then ["Would add comment to linked issues: " +:+ comment] else []).

(** A property of the state of a run, its world and its trace, that a
    computation keeps. *)
Definition preserves {W A : Type} (J : Run W -> Prop) (m : M W A) : Prop :=
  forall st, J st -> J (snd (m st)).

(** Every call of [client], logged as the hooks log it, keeps [J]. *)
Definition respects {W : Type} (J : Run W -> Prop) (client : LinearClient W)
    : Prop :=
  (forall teamID teamKey,
     preserves J (perform (GetTeam client teamID teamKey) (EvGetTeam teamID teamKey)))
  /\ (forall identifier,
        preserves J (perform (GetIssueByIdentifier client identifier)
                       (EvGetIssueByIdentifier identifier)))
  /\ (forall input,
        preserves J (perform (CreateIssue client input) (EvCreateIssue input)))
  /\ (forall issueID stateID,
        preserves J (perform (UpdateIssueState client issueID stateID)
                       (EvUpdateIssueState issueID stateID)))
  /\ (forall issueID body,
        preserves J (perform (AddComment client issueID body)
                       (EvAddComment issueID body))).

(** A fetch that succeeded returned an issue with an id. *)
Definition fetch_has_id (e : Event) : Prop :=
  match e with
  | EvGetIssueByIdentifier _ (Ok issue) => Issue.ID issue <> EmptyString
  | _ => True
  end.

(** An update or a comment is addressed to an issue and is not empty. *)
Definition well_addressed (e : Event) : Prop :=
  match e with
  | EvUpdateIssueState issueID stateID _ =>
      issueID <> EmptyString /\ stateID <> EmptyString
  | EvAddComment issueID body _ =>
      issueID <> EmptyString /\ body <> EmptyString
  | _ => True
  end.

(** ** The requests on the wire *)

Section Wire.

Context {W : Type}.

(** The round trip of the HTTP client on a world that also keeps the list of
    the requests sent so far. *)
Definition logged_Do
    (http_Do : HTTPClient.t -> Request.t -> W -> result Response.t * W)
    (h : HTTPClient.t) (req : Request.t) (wl : W * list Request.t)
    : result Response.t * (W * list Request.t) :=
  let (r, w') := http_Do h req (fst wl) in (r, (w', snd wl ++ [req])).

(** An operation that sends nothing, on the same world. *)
Definition unlogged {A : Type} (op : W -> A * W) (wl : W * list Request.t)
    : A * (W * list Request.t) :=
  let (a, w') := op (fst wl) in (a, (w', snd wl)).

Variable http_Do : HTTPClient.t -> Request.t -> W -> result Response.t * W.
Variable decode_response : string -> result GraphQLResponse.t.

(** Between the worlds [w] and [w'] the service answered a request of client
    [c] with status 200 and a body that decodes to a response without errors,
    whose data is [data]. *)
Definition answered (c : Client.t) (w w' : W) (data : string) : Prop :=
  exists req resp body gqlResp,
    http_Do (Client.httpClient c) req w = (Ok resp, w')
    /\ Request.URL req = Client.endpoint c
    /\ Response.StatusCode resp = 200
    /\ Response.Body resp = Ok body
    /\ decode_response body = Ok gqlResp
    /\ GraphQLResponse.Errors gqlResp = []
    /\ GraphQLResponse.Data gqlResp = data.

End Wire.

(** A request as client [c] is to send it: a POST to its endpoint, of type
    JSON, authorised with its key. *)
Definition wire_ok (c : Client.t) (req : Request.t) : Prop :=
  Request.Method req = "POST"
  /\ Request.URL req = Client.endpoint c
  /\ Request.Header req !! "Content-Type" = Some "application/json"
  /\ Request.Header req !! "Authorization" = Some (Client.apiKey c).

(** One call sent nothing, or one request, which is as [c] sends it. *)
Definition sends_at_most_one {W : Type} (c : Client.t) (log : list Request.t)
    (wl : W * list Request.t) : Prop :=
  snd wl = log \/ exists req, snd wl = log ++ [req] /\ wire_ok c req.

(** The requests sent since [log] are as [c] sends them, and there are no
    more of them than calls of the client in the trace. *)
Definition on_the_wire {W : Type} (c : Client.t) (log : list Request.t)
    (st : Run (W * list Request.t)) : Prop :=
  exists sent,
    snd (world st) = log ++ sent
    /\ Forall (wire_ok c) sent
    /\ length sent <= length (List.filter is_gateway (trace st)).

(** The string elements of a decoded list. *)
Definition as_string (a : any) : option string :=
  match a with
  | AString s => Some s
  | _ => None
  end.

(** ** A scripted world, for examples

    A small stand-in for the Linear service, the clock, the template package
    and the SDK's configuration parser, on which the hooks can be evaluated. *)

Module Demo.

Definition states : list State.t :=
  [ State.mk "s1" "Backlog" "backlog";
    State.mk "s2" "In Progress" "started";
    State.mk "s3" "Done" "completed" ].

Definition team : Team.t := Team.mk "team-1" "ENG" "Engineering" states.

Definition issue (identifier : string) : Issue.t :=
  Issue.mk ("id-" +:+ identifier) identifier "An issue"
    (State.mk "s2" "In Progress" "started")
    ("https://linear.app/acme/issue/" +:+ identifier).

(** The world is the number of requests served and clock readings so far.
    The service knows every issue but ENG-404, refuses to move ENG-500, and
    rejects an issue with an empty title. *)
Definition client : LinearClient nat :=
  {| GetTeam := fun teamID teamKey w =>
       (if String.eqb teamKey "NOPE" then Err "team with key NOPE not found"
        else Ok team, S w);
     GetIssueByIdentifier := fun identifier w =>
       (if String.eqb identifier "ENG-404" then Err "issue ENG-404 not found"
        else Ok (issue identifier), S w);
     CreateIssue := fun input w =>
       (if String.eqb (CreateIssueInput.Title input) EmptyString
        then Err "issue creation failed"
        else Ok (issue "ENG-1000"), S w);
     UpdateIssueState := fun issueID stateID w =>
       (if String.eqb issueID "id-ENG-500" then Some "issue update failed"
        else None, S w);
     AddComment := fun issueID body w => (None, S w) |}.

Definition NewLinearClient (apiKey : string) : LinearClient nat := client.

Definition time_Now (w : nat) : string * nat := ("2024-12-19", S w).

(** Templates: [{{] does not parse, [{{.Nope}}] does not execute, three
    templates are expanded, every other text is literal. *)
Definition Template : Type := string.

Definition template_Parse (tmplStr : string) : result Template :=
  if String.eqb tmplStr "{{" then Err "template: :1: unclosed action"
  else Ok tmplStr.

Definition template_Execute (tmpl : Template) (data : templateData.t)
    : result string :=
  if String.eqb tmpl "{{.Nope}}"
  then Err "template: :1:2: can't evaluate field Nope"
  else if String.eqb tmpl "Release {{.Version}}"
  then Ok ("Release " +:+ templateData.Version data)
  else if String.eqb tmpl "Released in {{.Version}}"
  then Ok ("Released in " +:+ templateData.Version data)
  else if String.eqb tmpl "{{.Branch}}"
  then Ok (templateData.Branch data)
  else Ok tmpl.

Definition equalFoldUnicode (s t : string) : bool := false.

(** The configuration value when it is of the requested type (and, for
    strings, not empty), else the default; no environment variable is set. *)
Definition NewConfigParser (raw : gmap string any) : ConfigParser :=
  {| GetString := fun key envVar defaultVal =>
       match raw !! key with
       | Some (AString v) => if String.eqb v EmptyString then defaultVal else v
       | _ => defaultVal
       end;
     GetBool := fun key defaultVal =>
       match raw !! key with
       | Some (ABool b) => b
       | _ => defaultVal
       end;
     GetInt := fun key defaultVal =>
       match raw !! key with
       | Some (AInt n) => n
       | _ => defaultVal
       end |}.

Definition parseConfig : gmap string any -> Config.t :=
  parseConfig NewConfigParser.

Definition processLinkedIssues :=
  @processLinkedIssues nat time_Now Template template_Parse template_Execute
    equalFoldUnicode.

Definition handlePostPublish :=
  @handlePostPublish nat NewLinearClient time_Now Template template_Parse
    template_Execute equalFoldUnicode.

Definition Execute :=
  @Execute nat NewLinearClient time_Now Template template_Parse
    template_Execute equalFoldUnicode NewConfigParser.

Definition commit (description : string) : ConventionalCommit.t :=
  ConventionalCommit.mk description.

(** The release of the end-to-end scenarios: one feature and one fix. *)
Definition release (branch : string) (features fixes : list string)
    : ReleaseContext.t :=
  {| ReleaseContext.Version := "1.2.3";
     ReleaseContext.TagName := "v1.2.3";
     ReleaseContext.Branch := branch;
     ReleaseContext.ReleaseType := "minor";
     ReleaseContext.ReleaseNotes := "Notes";
     ReleaseContext.CommitSHA := "abc123";
     ReleaseContext.Changes :=
       Some {| CategorizedChanges.Features := commit <$> features;
               CategorizedChanges.Fixes := commit <$> fixes;
               CategorizedChanges.Breaking := [];
               CategorizedChanges.Other := [] |} |}.

(** The configuration parsed from [team_key: ENG]. *)
Definition cfg : Config.t := parseConfig {[ "team_key" := AString "ENG" ]}.

(** Variations of it. *)
Definition config (releasedState : string) (create update comment : bool)
    (title commentTemplate : string) : Config.t :=
  {| Config.APIKey := "lin_api_test";
     Config.TeamID := EmptyString;
     Config.TeamKey := "ENG";
     Config.ProjectID := EmptyString;
     Config.IssuePrefix := "ENG";
     Config.ReleasedState := releasedState;
     Config.CreateReleaseIssue := create;
     Config.ReleaseIssue :=
       {| ReleaseIssueConfig.Title := title;
          ReleaseIssueConfig.Description := defaultReleaseDescription;
          ReleaseIssueConfig.Labels := ["release"];
          ReleaseIssueConfig.Priority := 4;
          ReleaseIssueConfig.Assignee := EmptyString |};
     Config.UpdateLinkedIssues := update;
     Config.AddReleaseComment := comment;
     Config.CommentTemplate := commentTemplate |}.

End Demo.

(** ** More scenarios on the scripted world *)

Module Scenario.

(** A configuration whose team key the scripted service does not know. *)
Definition lost_team : Config.t :=
  {| Config.APIKey := "lin_api_test";
     Config.TeamID := EmptyString;
     Config.TeamKey := "NOPE";
     Config.ProjectID := EmptyString;
     Config.IssuePrefix := "NOPE";
     Config.ReleasedState := "Done";
     Config.CreateReleaseIssue := true;
     Config.ReleaseIssue :=
       {| ReleaseIssueConfig.Title := "Release {{.Version}}";
          ReleaseIssueConfig.Description := defaultReleaseDescription;
          ReleaseIssueConfig.Labels := ["release"];
          ReleaseIssueConfig.Priority := 4;
          ReleaseIssueConfig.Assignee := EmptyString |};
     Config.UpdateLinkedIssues := true;
     Config.AddReleaseComment := true;
     Config.CommentTemplate := "Released in {{.Version}}" |}.

(** A team whose state "Done" came without an id. *)
Definition blank_state_team : Team.t :=
  Team.mk "team-2" "ENG" "Engineering"
    [ State.mk "s1" "Backlog" "backlog"; State.mk EmptyString "Done" "completed" ].

(** A service behind the HTTP client: it answers every request with status
    200 and the query it was sent; the world counts the requests. *)
Definition json_Marshal (reqBody : GraphQLRequest.t) : result string :=
  Ok (GraphQLRequest.Query reqBody).

Definition request_error (method url : string) : option error := None.

Definition http_Do (h : HTTPClient.t) (req : Request.t) (w : nat)
    : result Response.t * nat :=
  (Ok (Response.mk 200 (Ok (Request.Body req))), S w).

Definition decode_response (body : string) : result GraphQLResponse.t :=
  Ok (GraphQLResponse.mk body []).

Definition engineering : TeamNode.t :=
  TeamNode.mk "team-1" "ENG" "Engineering" Demo.states.

Definition decode_team (data : string) : result TeamNode.t := Ok engineering.

Definition decode_teams (data : string) : result (list TeamNode.t) :=
  Ok [ TeamNode.mk "team-0" "OPS" "Operations" []; engineering;
       TeamNode.mk "team-9" "ENG" "Shadow" [] ].

Definition GetTeam :=
  Client.GetTeam json_Marshal request_error http_Do decode_response
    decode_team decode_teams.

End Scenario.

(** Every comment carries the one rendered text, every update the one state. *)
Definition carries (stateID comment : string) (e : Event) : Prop :=
  match e with
  | EvUpdateIssueState _ s _ => s = stateID
  | EvAddComment _ body _ => body = comment
  | _ => True
  end.

(** * Properties *)

(** ** The extractor: duplicates and order *)

Section ExtractorOrder.

Variable equalFoldUnicode : string -> string -> bool.

Lemma extract_match_add_id prefix ms acc :
  fold_left (extract_match equalFoldUnicode prefix) ms acc
  = fold_left add_id
      (map (fun m : list string => m !!! 0)
         (List.filter
            (fun m : list string =>
               String.eqb prefix EmptyString
               || EqualFold equalFoldUnicode (m !!! 1) prefix) ms))
      acc.
Proof.
  revert acc. induction ms as [|m ms IH]; intros [seen issues]; [reflexivity|].
  cbn [fold_left List.filter]. unfold extract_match at 2.
  destruct (String.eqb prefix EmptyString
            || EqualFold equalFoldUnicode (m !!! 1) prefix).
  - cbn [map fold_left]. rewrite IH. reflexivity.
  - apply IH.
Qed.

Lemma extract_commits_add_id prefix commits acc :
  fold_left (extract_commit equalFoldUnicode prefix) commits acc
  = fold_left add_id (retained_tokens equalFoldUnicode commits prefix) acc.
Proof.
  revert acc. induction commits as [|c commits IH]; intros acc; [reflexivity|].
  cbn [fold_left]. rewrite IH. unfold extract_commit.
  rewrite extract_match_add_id. unfold retained_tokens. cbn [map concat].
  rewrite fold_left_app. reflexivity.
Qed.

Lemma add_id_step done acc t :
  seen_ok acc -> first_occurrence_order done (snd acc) ->
  seen_ok (add_id acc t) /\ first_occurrence_order (done ++ [t]) (snd (add_id acc t)).
Proof.
  destruct acc as [seen issues]. unfold seen_ok, add_id. cbn [fst snd].
  intros Hseen (Hnd & Hel & Hord).
  destruct (default false (seen !! t)) eqn:Ht; cbn [negb fst snd].
  - (* already seen *)
    assert (t ∈ issues) as Hin by (apply Hseen; exact Ht).
    split; [exact Hseen|]. split; [exact Hnd|]. split.
    + intros x. rewrite elem_of_app, list_elem_of_singleton, <- Hel.
      split; [tauto|]. intros [?| ->]; assumption.
    + intros i j x y Hi Hj Hij.
      destruct (Hord i j x y Hi Hj Hij) as (pre & post & -> & Hx & Hy).
      exists pre, (post ++ [t]). rewrite <- app_assoc. auto.
  - (* first occurrence *)
    assert (t ∉ issues) as Hnin.
    { intros Hin. apply Hseen in Hin. congruence. }
    split; [|split; [|split]].
    + intros id. rewrite elem_of_app, list_elem_of_singleton.
      destruct (decide (t = id)) as [->|Hne].
      * rewrite lookup_insert_eq. cbn. tauto.
      * rewrite lookup_insert_ne by exact Hne. rewrite Hseen.
        split; [tauto|]. intros [?|?]; [assumption|congruence].
    + apply NoDup_app. split; [exact Hnd|]. split; [|apply NoDup_singleton].
      intros x Hx Hx'. apply list_elem_of_singleton in Hx'. congruence.
    + intros x. rewrite !elem_of_app, Hel. tauto.
    + intros i j x y Hi Hj Hij.
      destruct (decide (j < length issues)) as [Hj'|Hj'].
      * rewrite lookup_app_l in Hi by lia. rewrite lookup_app_l in Hj by lia.
        destruct (Hord i j x y Hi Hj Hij) as (pre & post & -> & Hx & Hy).
        exists pre, (post ++ [t]). rewrite <- app_assoc. auto.
      * assert (j = length issues) as ->.
        { apply lookup_lt_Some in Hj. rewrite length_app in Hj.
          cbn in Hj. lia. }
        rewrite lookup_app_l in Hi by lia.
        rewrite list_lookup_middle in Hj by reflexivity.
        injection Hj as <-.
        assert (x ∈ done) as Hxd.
        { apply Hel. eapply list_elem_of_lookup_2. exact Hi. }
        apply list_elem_of_split_l in Hxd as (pre & post & -> & Hx).
        exists pre, (post ++ [t]). rewrite <- app_assoc.
        split; [reflexivity|]. split; [exact Hx|].
        intros Hp. apply Hnin, Hel. apply elem_of_app. left. exact Hp.
Qed.

Lemma add_id_fold toks : forall done acc,
  seen_ok acc -> first_occurrence_order done (snd acc) ->
  first_occurrence_order (done ++ toks) (snd (fold_left add_id toks acc)).
Proof.
  induction toks as [|t toks IH]; intros done acc Hs Ho.
  - rewrite app_nil_r. exact Ho.
  - cbn [fold_left].
    destruct (add_id_step done acc t Hs Ho) as [Hs' Ho'].
    replace (done ++ t :: toks) with ((done ++ [t]) ++ toks)
      by (rewrite <- app_assoc; reflexivity).
    apply IH; assumption.
Qed.

(** C1. For every list of commit texts and every prefix filter (empty or
    not), the list returned by [extractIssues] has no duplicates, holds
    exactly the identifiers that pass the filter, and lists them in the order
    of their first occurrences in the sequence of all matches (commits in the
    order supplied, matches within a commit from left to right). *)
Theorem extractIssues_dedup_first_occurrence commits prefix :
  first_occurrence_order
    (retained_tokens equalFoldUnicode commits prefix)
    (extractIssues equalFoldUnicode commits prefix).
Proof.
  unfold extractIssues. rewrite extract_commits_add_id.
  apply (add_id_fold _ [] (∅, [])).
  - intros id. cbn. rewrite lookup_empty. cbn.
    split; [discriminate|]. intros H. inversion H.
  - split; [constructor|]. split.
    + intros x. reflexivity.
    + intros i j x y Hi. discriminate.
Qed.

Lemma extractIssues_elements commits prefix x :
  x ∈ extractIssues equalFoldUnicode commits prefix
  <-> x ∈ retained_tokens equalFoldUnicode commits prefix.
Proof.
  unfold extractIssues. rewrite extract_commits_add_id.
  assert (first_occurrence_order
            ([] ++ retained_tokens equalFoldUnicode commits prefix)
            (snd (fold_left add_id
                    (retained_tokens equalFoldUnicode commits prefix) (∅, []))))
    as (_ & Hel & _).
  { apply add_id_fold.
    - intros id. cbn. rewrite lookup_empty. cbn.
      split; [discriminate|]. intros H. inversion H.
    - split; [constructor|]. split.
      + intros y. reflexivity.
      + intros i j y z Hi. discriminate. }
  apply Hel.
Qed.

Lemma elem_of_retained_tokens commits prefix x :
  x ∈ retained_tokens equalFoldUnicode commits prefix
  <-> exists commit m,
        commit ∈ commits
        /\ m ∈ FindAllStringSubmatch issuePattern commit
        /\ (prefix = EmptyString
            \/ EqualFold equalFoldUnicode (m !!! 1) prefix = true)
        /\ x = m !!! 0.
Proof.
  unfold retained_tokens. rewrite list_elem_of_In, in_concat. split.
  - intros (l & Hl & Hx). apply in_map_iff in Hl as (commit & <- & Hc).
    apply in_map_iff in Hx as (m & <- & Hm).
    apply filter_In in Hm as [Hm Hr].
    exists commit, m. rewrite !list_elem_of_In. repeat split; try assumption.
    apply orb_true_iff in Hr as [Hr|Hr]; [left|right; exact Hr].
    apply String.eqb_eq. exact Hr.
  - intros (commit & m & Hc & Hm & Hr & ->).
    apply list_elem_of_In in Hc. apply list_elem_of_In in Hm.
    eexists. split.
    + apply in_map_iff. exists commit. split; [reflexivity|exact Hc].
    + apply in_map_iff. exists m. split; [reflexivity|].
      apply filter_In. split; [exact Hm|].
      apply orb_true_iff. destruct Hr as [->|Hr]; [left; reflexivity|right; exact Hr].
Qed.

End ExtractorOrder.

(** ** The regular expression: what [issuePattern] matches *)

Lemma is_upper_word c : is_upper c = true -> IsWordChar c = true.
Proof. unfold IsWordChar. intros ->. reflexivity. Qed.

Lemma is_digit_word c : is_digit c = true -> IsWordChar c = true.
Proof.
  unfold IsWordChar. intros ->. rewrite !orb_true_r. reflexivity.
Qed.

Lemma is_upper_not_digit c : is_upper c = true -> is_digit c = false.
Proof.
  unfold is_upper, is_digit, in_range. intros H.
  apply andb_true_iff in H as [H1 H2].
  apply andb_false_iff. right. lia.
Qed.

Lemma is_upper_not_lower c : is_upper c = true -> is_lower c = false.
Proof.
  unfold is_upper, is_lower, in_range. intros H.
  apply andb_true_iff in H as [H1 H2].
  apply andb_false_iff. left. lia.
Qed.

Lemma try_counts_Some {R} (k : nat -> option R) lo n r :
  try_counts k lo n = Some r -> exists c, lo <= c <= n /\ k c = Some r.
Proof.
  induction n as [|n IH]; cbn [try_counts].
  - destruct (0 <? lo) eqn:E; [discriminate|].
    apply Nat.ltb_ge in E. destruct (k 0) eqn:K; [|discriminate].
    intros [= ->]. exists 0. split; [lia|exact K].
  - destruct (S n <? lo) eqn:E; [discriminate|].
    apply Nat.ltb_ge in E. destruct (k (S n)) eqn:K.
    + intros [= ->]. exists (S n). split; [lia|exact K].
    + intros H. destruct (IH H) as (c & Hc & Hk). exists c. split; [lia|exact Hk].
Qed.

Lemma try_counts_first {R} (k : nat -> option R) lo n r :
  lo <= n -> k n = Some r -> try_counts k lo n = Some r.
Proof.
  intros Hn K. destruct n; cbn [try_counts].
  - destruct (0 <? lo) eqn:E; [apply Nat.ltb_lt in E; lia|]. rewrite K. reflexivity.
  - destruct (S n <? lo) eqn:E; [apply Nat.ltb_lt in E; lia|]. rewrite K. reflexivity.
Qed.

Lemma run_length_take cls s c :
  c <= run_length cls s -> length (take c s) = c /\ Forall (fun x => cls x = true) (take c s).
Proof.
  revert c. induction s as [|x s IH]; intros c Hc; cbn in Hc.
  - assert (c = 0) as -> by lia. split; [reflexivity|constructor].
  - destruct c as [|c]; [split; [reflexivity|constructor]|].
    destruct (cls x) eqn:Hx; [|lia].
    destruct (IH c ltac:(lia)) as [Hl Hf].
    cbn [take length]. split; [lia|]. constructor; assumption.
Qed.

Lemma run_length_app cls l rest :
  Forall (fun x => cls x = true) l -> class_at cls (head rest) = false ->
  run_length cls (l ++ rest) = length l.
Proof.
  intros Hl Hr. induction Hl as [|x l Hx Hl IH]; cbn [app run_length length].
  - destruct rest as [|y rest]; [reflexivity|].
    cbn [run_length]. cbn in Hr. rewrite Hr. reflexivity.
  - rewrite Hx, IH. reflexivity.
Qed.

Lemma prev_after_app prev a b :
  prev_after prev (a ++ b) = prev_after (prev_after prev a) b.
Proof.
  unfold prev_after. rewrite last_app.
  destruct (last b); [reflexivity|]. reflexivity.
Qed.

Lemma prev_after_None a : prev_after None a = last a.
Proof. unfold prev_after. destruct (last a); reflexivity. Qed.

Lemma prev_after_cons prev c a :
  prev_after prev (c :: a) = prev_after (Some c) a.
Proof. apply (prev_after_app prev [c] a). Qed.

(** A match is a prefix of the text it was found in. *)
Lemma match_here_prefix p : forall prev s segs,
  match_here p prev s = Some segs -> exists rest, s = concat segs ++ rest.
Proof.
  induction p as [|[captured i] p IH]; intros prev s segs; cbn [match_here].
  - intros [= <-]. exists s. reflexivity.
  - destruct i as [|c|cls lo hi].
    + destruct (xorb _ _); [|discriminate]. intros H.
      apply fmap_Some in H as (segs' & H & ->).
      apply IH in H as [rest ->]. exists rest. reflexivity.
    + destruct s as [|c' s]; [discriminate|].
      destruct (Ascii.eqb c c'); [|discriminate]. intros H.
      apply fmap_Some in H as (segs' & H & ->).
      apply IH in H as [rest ->]. exists rest. reflexivity.
    + intros H. apply try_counts_Some in H as (n & _ & H).
      apply fmap_Some in H as (segs' & H & ->).
      apply IH in H as [rest Hrest]. exists rest.
      cbn [concat]. rewrite <- app_assoc, <- Hrest, take_drop. reflexivity.
Qed.

(** The scan never runs out of fuel: any amount above the length of the text
    gives the same matches. *)
Lemma find_all_fuel p : forall f1 f2 prev s,
  length s < f1 -> length s < f2 ->
  find_all p f1 prev s = find_all p f2 prev s.
Proof.
  induction f1 as [|f1 IH]; intros f2 prev s H1 H2; [lia|].
  destruct f2 as [|f2]; [lia|]. cbn [find_all].
  destruct (match_here p prev s) as [segs|] eqn:Hm.
  - apply match_here_prefix in Hm as [rest Hs].
    destruct (concat segs) as [|a m] eqn:Hc.
    + destruct s as [|c s]; [reflexivity|]. f_equal.
      apply IH; cbn [length] in *; lia.
    + f_equal. rewrite Hs, drop_app_length.
      rewrite Hs, length_app in H1, H2. cbn [length] in H1, H2.
      apply IH; lia.
  - destruct s as [|c s]; [reflexivity|]. apply IH; cbn [length] in *; lia.
Qed.

Lemma last_Forall_word (P : ascii -> bool) l prev :
  (forall c, P c = true -> IsWordChar c = true) ->
  Forall (fun c => P c = true) l -> l <> [] ->
  word_at (prev_after prev l) = true.
Proof.
  intros HP Hl Hne. unfold prev_after.
  destruct (last l) as [c|] eqn:E.
  - cbn. apply HP. rewrite Forall_forall in Hl. apply Hl.
    apply last_Some in E as [l' ->]. apply elem_of_app. right. constructor.
  - apply last_None in E. contradiction.
Qed.

Lemma match_here_issue_sound prev s segs :
  match_here issuePattern prev s = Some segs ->
  exists letters digits post,
    segs = [[]; letters; ["-"%char]; digits; []]
    /\ s = letters ++ "-"%char :: digits ++ post
    /\ token_bytes letters digits
    /\ word_at prev = false
    /\ word_at (head post) = false.
Proof.
  unfold issuePattern. cbn [match_here].
  destruct (xorb (word_at prev) (word_at (head s))) eqn:Hb; [|discriminate].
  intros H. apply fmap_Some in H as (segs1 & H & ->).
  apply try_counts_Some in H as (c & Hc & H).
  apply fmap_Some in H as (segs2 & H & ->).
  destruct (run_length_take is_upper s c ltac:(lia)) as [Hlen Hup].
  destruct (drop c s) as [|h rest] eqn:Hdrop; [discriminate|].
  destruct (Ascii.eqb "-" h) eqn:Hh; [|discriminate].
  apply Ascii.eqb_eq in Hh. subst h.
  apply fmap_Some in H as (segs3 & H & ->).
  apply try_counts_Some in H as (d & Hd & H).
  apply fmap_Some in H as (segs4 & H & ->).
  destruct (run_length_take is_digit rest d ltac:(lia)) as [Hdlen Hdig].
  destruct (xorb _ _) eqn:Hb2 in H; [|discriminate].
  cbn in H. injection H as <-.
  assert (take d rest <> []) as Hdne.
  { intros E. rewrite E in Hdlen. cbn in Hdlen. lia. }
  rewrite (last_Forall_word is_digit _ _ is_digit_word Hdig Hdne) in Hb2.
  exists (take c s), (take d rest), (drop d rest).
  split; [reflexivity|]. split.
  { rewrite take_drop. rewrite <- Hdrop. rewrite take_drop. reflexivity. }
  split. { repeat split; try assumption; lia. }
  split.
  - assert (word_at (head s) = true) as Hw.
    { destruct c as [|c]; [lia|].
      destruct s as [|x s']; [cbn in Hlen; lia|].
      cbn in Hup. inversion Hup; subst.
      cbn. apply is_upper_word. assumption. }
    rewrite Hw in Hb. destruct (word_at prev); [discriminate|reflexivity].
  - destruct (word_at (head (drop d rest))); [discriminate|reflexivity].
Qed.

Lemma match_here_issue_complete prev letters digits post :
  token_bytes letters digits ->
  word_at prev = false -> word_at (head post) = false ->
  match_here issuePattern prev (letters ++ "-"%char :: digits ++ post)
  = Some [[]; letters; ["-"%char]; digits; []].
Proof.
  intros (Hl & Hup & Hd & Hdig) Hprev Hpost.
  unfold issuePattern. cbn [match_here].
  assert (word_at (head (letters ++ "-"%char :: digits ++ post)) = true) as Hw.
  { destruct letters as [|x l]; [cbn in Hl; lia|].
    inversion Hup; subst. cbn. apply is_upper_word. assumption. }
  rewrite Hprev, Hw. cbn [xorb].
  rewrite (run_length_app is_upper letters) by (assumption || reflexivity).
  rewrite (Nat.min_r 10 (length letters)) by lia.
  erewrite try_counts_first; [reflexivity|lia|].
  rewrite take_app_length, drop_app_length. cbn [Ascii.eqb].
  replace (Ascii.eqb "-" "-") with true by reflexivity.
  assert (run_length is_digit (digits ++ post) = length digits) as Hrun.
  { apply run_length_app; [assumption|].
    destruct post as [|y post]; [reflexivity|]. cbn in *.
    destruct (is_digit y) eqn:E; [|reflexivity].
    apply is_digit_word in E. congruence. }
  rewrite Hrun.
  erewrite try_counts_first; [reflexivity|lia|].
  rewrite take_app_length, drop_app_length.
  assert (digits <> []) as Hdne.
  { intros E. rewrite E in Hd. cbn in Hd. lia. }
  rewrite (last_Forall_word is_digit _ _ is_digit_word Hdig Hdne).
  rewrite Hpost. reflexivity.
Qed.

(** Two occurrences of the shape in word-bounded context do not overlap: a
    match that starts before the boundary that precedes a token ends before
    it as well. *)
Lemma match_ends_before_token pre letters digits post letters' digits' post' :
  token_bytes letters digits -> token_bytes letters' digits' ->
  pre <> [] -> word_at (last pre) = false ->
  pre ++ letters ++ "-"%char :: digits ++ post
  = letters' ++ "-"%char :: digits' ++ post' ->
  exists pre', pre = (letters' ++ "-"%char :: digits') ++ pre'.
Proof.
  intros (Hl & Hup & _ & _) (_ & Hup' & Hd' & Hdig') Hne Hlast Heq.
  replace (letters' ++ "-"%char :: digits' ++ post')
    with ((letters' ++ "-"%char :: digits') ++ post') in Heq
    by (rewrite <- app_assoc; reflexivity).
  apply app_eq_app in Heq as [l [[-> _]|[Hm Hx]]]; [eexists; reflexivity|].
  destruct l as [|z l].
  { exists []. rewrite app_nil_r in Hm. rewrite app_nil_r. congruence. }
  exfalso.
  destruct (last pre) as [x|] eqn:Hx'; [|apply last_None in Hx'; contradiction].
  apply last_Some in Hx' as [pre0 ->]. cbn in Hlast.
  rewrite <- app_assoc in Hm. cbn [app] in Hm.
  assert ((letters' ++ "-"%char :: digits') !! length pre0 = Some x) as Hix.
  { rewrite Hm. apply list_lookup_middle. reflexivity. }
  assert ((letters' ++ "-"%char :: digits') !! S (length pre0) = Some z) as Hiz.
  { rewrite Hm. rewrite lookup_app_r by lia.
    replace (S (length pre0) - length pre0) with 1 by lia. reflexivity. }
  destruct (lt_eq_lt_dec (length pre0) (length letters')) as [[Hlt|Heq]|Hgt].
  - rewrite lookup_app_l in Hix by exact Hlt.
    rewrite Forall_lookup in Hup'. apply Hup' in Hix.
    apply is_upper_word in Hix. congruence.
  - rewrite lookup_app_r in Hiz by lia.
    replace (S (length pre0) - length letters') with 1 in Hiz by lia.
    cbn in Hiz. rewrite Forall_lookup in Hdig'. apply Hdig' in Hiz.
    destruct letters as [|l0 letters]; [cbn in Hl; lia|].
    cbn in Hx. injection Hx as -> _. inversion Hup; subst.
    match goal with H : is_upper _ = true |- _ =>
      apply is_upper_not_digit in H end. congruence.
  - rewrite lookup_app_r in Hix by lia.
    destruct (length pre0 - length letters') as [|k] eqn:Hk; [lia|].
    cbn in Hix. rewrite Forall_lookup in Hdig'. apply Hdig' in Hix.
    apply is_digit_word in Hix. congruence.
Qed.

Lemma find_all_issue_sound fuel : forall prev s segs,
  segs ∈ find_all issuePattern fuel prev s ->
  exists pre letters digits post,
    s = pre ++ letters ++ "-"%char :: digits ++ post
    /\ segs = [[]; letters; ["-"%char]; digits; []]
    /\ token_bytes letters digits
    /\ word_at (prev_after prev pre) = false
    /\ word_at (head post) = false.
Proof.
  induction fuel as [|fuel IH]; intros prev s segs; cbn [find_all].
  { intros H. inversion H. }
  destruct (match_here issuePattern prev s) as [segs0|] eqn:Hm.
  - destruct (match_here_issue_sound _ _ _ Hm)
      as (letters & digits & post & -> & -> & Htok & Hprev & Hpost).
    assert (concat [[]; letters; ["-"%char]; digits; []]
            = letters ++ "-"%char :: digits) as Hc.
    { cbn. rewrite !app_nil_r. reflexivity. }
    rewrite Hc.
    destruct (letters ++ "-"%char :: digits) as [|m0 m] eqn:Hne.
    { destruct letters; discriminate. }
    rewrite <- Hne.
    replace (letters ++ "-"%char :: digits ++ post)
      with ((letters ++ "-"%char :: digits) ++ post)
      by (rewrite <- app_assoc; reflexivity).
    rewrite drop_app_length. intros H. apply elem_of_cons in H as [->|H].
    + exists [], letters, digits, post. rewrite <- app_assoc. auto.
    + apply IH in H as (pre & l & d & post' & -> & -> & Htok' & Hp' & Hpost').
      exists ((letters ++ "-"%char :: digits) ++ pre), l, d, post'.
      rewrite <- prev_after_app in Hp'.
      split; [rewrite <- !app_assoc; reflexivity|]. auto.
  - destruct s as [|c s]; [intros H; inversion H|].
    intros H. apply IH in H as (pre & l & d & post' & -> & -> & Htok' & Hp' & Hpost').
    exists (c :: pre), l, d, post'. rewrite prev_after_cons. auto.
Qed.

Lemma find_all_issue_complete fuel : forall prev pre letters digits post,
  length (pre ++ letters ++ "-"%char :: digits ++ post) < fuel ->
  token_bytes letters digits ->
  word_at (prev_after prev pre) = false ->
  word_at (head post) = false ->
  [[]; letters; ["-"%char]; digits; []]
  ∈ find_all issuePattern fuel prev (pre ++ letters ++ "-"%char :: digits ++ post).
Proof.
  induction fuel as [|fuel IH]; intros prev pre letters digits post Hlen Htok Hprev Hpost;
    [lia|].
  cbn [find_all]. destruct pre as [|c pre].
  - cbn [app]. cbn in Hprev.
    rewrite (match_here_issue_complete _ _ _ _ Htok Hprev Hpost).
    assert (concat [[]; letters; ["-"%char]; digits; []]
            = letters ++ "-"%char :: digits) as Hc.
    { cbn. rewrite !app_nil_r. reflexivity. }
    rewrite Hc.
    destruct (letters ++ "-"%char :: digits) as [|m0 m] eqn:Hne.
    { destruct letters; discriminate. }
    apply list_elem_of_here.
  - destruct (match_here issuePattern prev _) as [segs0|] eqn:Hm.
    + destruct (match_here_issue_sound _ _ _ Hm)
        as (l' & d' & post' & -> & Heq & Htok' & Hprev' & Hpost').
      assert (word_at (last (c :: pre)) = false) as Hlast.
      { unfold prev_after in Hprev. destruct (last (c :: pre)) eqn:E; [exact Hprev|].
        reflexivity. }
      destruct (match_ends_before_token (c :: pre) letters digits post l' d' post'
                  Htok Htok' ltac:(discriminate) Hlast Heq) as (pre' & Hpre).
      assert (concat [[]; l'; ["-"%char]; d'; []] = l' ++ "-"%char :: d') as Hc.
      { cbn. rewrite !app_nil_r. reflexivity. }
      rewrite Hc.
      destruct (l' ++ "-"%char :: d') as [|m0 m] eqn:Hne.
      { destruct l'; discriminate. }
      rewrite <- Hne in *. apply list_elem_of_further.
      rewrite Hpre, <- (app_assoc _ pre'), drop_app_length.
      apply IH; try assumption.
      * rewrite Hpre in Hlen. rewrite <- app_assoc, length_app in Hlen.
        destruct l'; cbn [length app] in Hlen; lia.
      * rewrite <- prev_after_app, <- Hpre. exact Hprev.
    + cbn [app]. apply IH; try assumption.
      * cbn [app length] in Hlen. lia.
      * rewrite <- (prev_after_cons prev). exact Hprev.
Qed.

(** ** From lists of bytes to strings *)

Lemma bytes_app a b : bytes (a +:+ b) = bytes a ++ bytes b.
Proof.
  unfold bytes. induction a as [|c a IH]; [reflexivity|].
  cbn [list_ascii_of_string app]. rewrite <- IH. reflexivity.
Qed.

Lemma string_of_bytes_app a b :
  string_of_list_ascii (a ++ b) = string_of_list_ascii a +:+ string_of_list_ascii b.
Proof. induction a as [|c a IH]; [reflexivity|]. cbn. rewrite IH. reflexivity. Qed.

Lemma length_bytes s : length (bytes s) = String.length s.
Proof. unfold bytes. induction s as [|c s IH]; [reflexivity|]. cbn. rewrite IH. reflexivity. Qed.

Lemma all_bytes_Forall cls s :
  all_bytes cls s = true <-> Forall (fun c => cls c = true) (bytes s).
Proof.
  unfold all_bytes. rewrite forallb_forall, Forall_forall.
  split; intros H x Hx; apply H; apply list_elem_of_In; exact Hx.
Qed.

Lemma token_occurrence_bytes text pre letters digits post :
  token_occurrence IsWordChar text pre letters digits post <->
  bytes text = bytes pre ++ bytes letters ++ "-"%char :: bytes digits ++ bytes post
  /\ token_bytes (bytes letters) (bytes digits)
  /\ word_at (last (bytes pre)) = false
  /\ word_at (head (bytes post)) = false.
Proof.
  unfold token_bytes. rewrite !length_bytes, <- !all_bytes_Forall. split.
  - intros [-> ? ? ? ? ? ?]. rewrite !bytes_app. cbn. auto 10.
  - intros (Ht & (Hl & Hu & Hd & Hg) & Hp & Hq). constructor; try assumption.
    rewrite <- (string_of_list_ascii_of_string text). fold (bytes text).
    rewrite Ht, !string_of_bytes_app. cbn [string_of_list_ascii].
    rewrite string_of_bytes_app. unfold bytes.
    rewrite !string_of_list_ascii_of_string. reflexivity.
Qed.

(** What FindAllStringSubmatch returns for [issuePattern]: one entry for each
    word-bounded occurrence of the shape, holding the token, its letters and
    its digits. *)
Lemma FindAllStringSubmatch_issuePattern text m :
  m ∈ FindAllStringSubmatch issuePattern text
  <-> exists pre letters digits post,
        token_occurrence IsWordChar text pre letters digits post
        /\ m = [letters +:+ "-" +:+ digits; letters; digits].
Proof.
  unfold FindAllStringSubmatch. rewrite list_elem_of_fmap. split.
  - intros (segs & -> & Hin).
    apply find_all_issue_sound in Hin
      as (pre & l & d & post & Ht & -> & Htok & Hp & Hq).
    exists (string_of_list_ascii pre), (string_of_list_ascii l),
      (string_of_list_ascii d), (string_of_list_ascii post).
    split.
    + apply token_occurrence_bytes. unfold bytes.
      rewrite !list_ascii_of_string_of_list_ascii.
      rewrite prev_after_None in Hp. auto.
    + unfold submatch. cbn. rewrite app_nil_r.
      rewrite string_of_bytes_app. reflexivity.
  - intros (pre & letters & digits & post & Hocc & ->).
    apply token_occurrence_bytes in Hocc as (Ht & Htok & Hp & Hq).
    exists [[]; bytes letters; ["-"%char]; bytes digits; []]. split.
    + unfold submatch. cbn. rewrite app_nil_r, string_of_bytes_app. cbn.
      unfold bytes. rewrite !string_of_list_ascii_of_string. reflexivity.
    + fold (bytes text). rewrite Ht. apply find_all_issue_complete; auto.
      rewrite prev_after_None. exact Hp.
Qed.

(** ** The extractor: which tokens are emitted *)

Section ExtractorTokens.

Variable equalFoldUnicode : string -> string -> bool.

Lemma extractIssues_tokens commits prefix id :
  id ∈ extractIssues equalFoldUnicode commits prefix
  <-> exists commit pre letters digits post,
        commit ∈ commits
        /\ token_occurrence IsWordChar commit pre letters digits post
        /\ id = letters +:+ "-" +:+ digits
        /\ (prefix = EmptyString
            \/ EqualFold equalFoldUnicode letters prefix = true).
Proof.
  rewrite extractIssues_elements, elem_of_retained_tokens. split.
  - intros (commit & m & Hc & Hm & Hr & ->).
    apply FindAllStringSubmatch_issuePattern in Hm
      as (pre & letters & digits & post & Hocc & ->).
    exists commit, pre, letters, digits, post.
    split; [exact Hc|]. split; [exact Hocc|]. split; [reflexivity|exact Hr].
  - intros (commit & pre & letters & digits & post & Hc & Hocc & -> & Hr).
    exists commit, [letters +:+ "-" +:+ digits; letters; digits].
    split; [exact Hc|]. split; [|split; [exact Hr|reflexivity]].
    apply FindAllStringSubmatch_issuePattern.
    exists pre, letters, digits, post. split; [exact Hocc|reflexivity].
Qed.

(** C5 (amended). A substring of a commit text is extracted exactly when it
    consists of 2 to 10 upper-case ASCII letters, a hyphen and one or more
    decimal digits, and the bytes next to it on both sides, where there are
    any, are not word characters (ASCII letters, digits and the underscore);
    the prefix filter, when one is given, is the only further condition. *)
Theorem issue_token_extracted_iff commits prefix id :
  id ∈ extractIssues equalFoldUnicode commits prefix
  <-> exists commit pre letters digits post,
        commit ∈ commits
        /\ token_occurrence IsWordChar commit pre letters digits post
        /\ id = letters +:+ "-" +:+ digits
        /\ (prefix = EmptyString
            \/ EqualFold equalFoldUnicode letters prefix = true).
Proof. apply extractIssues_tokens. Qed.

End ExtractorTokens.

(** C5 as stated fails: in the text [_AB-1] the token [AB-1] has the shape and
    is bounded by a non-alphanumeric byte on the left and by the end of the
    text on the right, yet it is not extracted, because the underscore is a
    word character and there is no word boundary between it and the letters. *)
Lemma underscore_bounded_token_not_extracted :
  token_occurrence is_alnum "_AB-1" "_" "AB" "1" EmptyString
  /\ "AB-1" ∉ extractIssues (fun _ _ => false) ["_AB-1"] EmptyString.
Proof.
  split.
  - constructor; try reflexivity; cbn; lia.
  - vm_compute. intros H. inversion H.
Qed.

(** ** strings.EqualFold on ASCII text *)

Lemma byte_of_range c : (0 <= byte_of c < 256)%Z.
Proof.
  unfold byte_of. pose proof (N_ascii_bounded c). lia.
Qed.

Lemma byte_of_inj c d : byte_of c = byte_of d -> c = d.
Proof.
  unfold byte_of. intros H. apply N2Z.inj in H.
  rewrite <- (ascii_N_embedding c), <- (ascii_N_embedding d), H. reflexivity.
Qed.

Lemma byte_of_to_upper c :
  byte_of (to_upper c)
  = (if is_lower c then byte_of c - 32 else byte_of c)%Z.
Proof.
  unfold to_upper. destruct (is_lower c) eqn:E; [|reflexivity].
  unfold is_lower, in_range in E. apply andb_true_iff in E as [E1 E2].
  pose proof (byte_of_range c) as Hr. unfold byte_of in *.
  rewrite N_ascii_embedding by lia. lia.
Qed.

Lemma lor_ascii a b :
  (0 <= a < 128 -> 0 <= b < 128 -> Z.lor a b < 128)%Z.
Proof.
  intros Ha Hb.
  assert (0 <= Z.lor a b)%Z as Hn by (apply Z.lor_nonneg; lia).
  destruct (Z.eq_dec (Z.lor a b) 0%Z) as [->|Hz]; [lia|].
  change 128%Z with (2 ^ 7)%Z. apply Z.log2_lt_pow2; [lia|].
  rewrite Z.log2_lor by lia.
  assert (forall x, 0 <= x < 128 -> Z.log2 x < 7)%Z as Hlog.
  { intros x Hx. destruct (Z.eq_dec x 0%Z) as [->|Hx0]; [reflexivity|].
    apply Z.log2_lt_pow2; [lia|]. change (2 ^ 7)%Z with 128%Z. lia. }
  apply Z.max_lub_lt; apply Hlog; assumption.
Qed.

Section EqualFoldAscii.

Variable equalFoldUnicode : string -> string -> bool.

(** On ASCII text [EqualFold] is equality up to the case of letters, and the
    Unicode loop is never entered. *)
Lemma EqualFold_ascii s : forall t,
  all_bytes is_ascii s = true -> all_bytes is_ascii t = true ->
  (EqualFold equalFoldUnicode s t = true <-> ToUpper s = ToUpper t).
Proof.
  induction s as [|sr s IH]; intros [|tr t] Hs Ht; cbn [EqualFold ToUpper].
  - split; reflexivity.
  - split; discriminate.
  - split; discriminate.
  - unfold all_bytes in Hs, Ht. cbn in Hs, Ht.
    apply andb_true_iff in Hs as [Hsr Hs]. apply andb_true_iff in Ht as [Htr Ht].
    specialize (IH t Hs Ht).
    unfold is_ascii in Hsr, Htr.
    pose proof (byte_of_range sr) as Rs. pose proof (byte_of_range tr) as Rt.
    pose proof (lor_ascii (byte_of sr) (byte_of tr) ltac:(lia) ltac:(lia)) as Hlor.
    destruct (128 <=? Z.lor (byte_of sr) (byte_of tr))%Z eqn:E; [lia|]. clear E Hlor.
    assert (to_upper sr = to_upper tr <-> byte_of (to_upper sr) = byte_of (to_upper tr))
      as Hup.
    { split; [intros ->; reflexivity|apply byte_of_inj]. }
    rewrite !byte_of_to_upper in Hup. unfold is_lower, in_range in Hup.
    assert (String (to_upper sr) (ToUpper s) = String (to_upper tr) (ToUpper t)
            <-> to_upper sr = to_upper tr /\ ToUpper s = ToUpper t) as Hstr.
    { split; [intros [= -> ->]; auto|intros [-> ->]; reflexivity]. }
    rewrite Hstr, Hup. clear Hstr Hup.
    destruct (byte_of tr =? byte_of sr)%Z eqn:Eeq.
    + rewrite IH. apply Z.eqb_eq in Eeq. rewrite Eeq. tauto.
    + apply Z.eqb_neq in Eeq.
      destruct (byte_of tr <? byte_of sr)%Z eqn:Elt.
      * destruct ((65 <=? byte_of tr) && (byte_of tr <=? 90)
                  && (byte_of sr =? byte_of tr + 97 - 65))%Z eqn:Ec.
        -- rewrite IH.
           destruct ((97 <=? byte_of sr) && (byte_of sr <=? 122))%Z eqn:E1;
             destruct ((97 <=? byte_of tr) && (byte_of tr <=? 122))%Z eqn:E2;
             split; try tauto; intros; split; try tauto; lia.
        -- destruct ((97 <=? byte_of sr) && (byte_of sr <=? 122))%Z eqn:E1;
             destruct ((97 <=? byte_of tr) && (byte_of tr <=? 122))%Z eqn:E2;
             split; try discriminate; intros [? _]; lia.
      * destruct ((65 <=? byte_of sr) && (byte_of sr <=? 90)
                  && (byte_of tr =? byte_of sr + 97 - 65))%Z eqn:Ec.
        -- rewrite IH.
           destruct ((97 <=? byte_of sr) && (byte_of sr <=? 122))%Z eqn:E1;
             destruct ((97 <=? byte_of tr) && (byte_of tr <=? 122))%Z eqn:E2;
             split; try tauto; intros; split; try tauto; lia.
        -- destruct ((97 <=? byte_of sr) && (byte_of sr <=? 122))%Z eqn:E1;
             destruct ((97 <=? byte_of tr) && (byte_of tr <=? 122))%Z eqn:E2;
             split; try discriminate; intros [? _]; lia.
Qed.

End EqualFoldAscii.

(** ** The extractor: the prefix filter *)

Lemma string_app_assoc (a b c : string) : (a +:+ b) +:+ c = a +:+ b +:+ c.
Proof.
  induction a as [|x a IH]; [reflexivity|].
  change (String x ((a +:+ b) +:+ c) = String x (a +:+ b +:+ c)).
  rewrite IH. reflexivity.
Qed.

Lemma is_digit_not_lower c : is_digit c = true -> is_lower c = false.
Proof.
  unfold is_digit, is_lower, in_range. intros H.
  apply andb_true_iff in H as [H1 H2].
  apply andb_false_iff. left. lia.
Qed.

Lemma is_upper_ascii c : is_upper c = true -> is_ascii c = true.
Proof.
  unfold is_upper, is_ascii, in_range. intros H.
  apply andb_true_iff in H as [H1 H2]. lia.
Qed.

Lemma all_bytes_impl (P Q : ascii -> bool) s :
  (forall c, P c = true -> Q c = true) ->
  all_bytes P s = true -> all_bytes Q s = true.
Proof.
  intros HPQ. rewrite !all_bytes_Forall. intros H.
  eapply Forall_impl; [exact H|exact HPQ].
Qed.

Lemma all_bytes_app P a b :
  all_bytes P (a +:+ b) = all_bytes P a && all_bytes P b.
Proof. unfold all_bytes. rewrite bytes_app. apply forallb_app. Qed.

Section PrefixFilter.

Variable equalFoldUnicode : string -> string -> bool.

(** C6. With a prefix filter, the identifiers emitted are exactly the matched
    tokens whose letters are equal to the filter under [strings.EqualFold]
    (for an ASCII filter: equal up to the case of letters); an emitted
    identifier is a substring of the commit it was found in, byte for byte,
    and holds no lower-case letter, whatever the casing of the filter. *)
Theorem prefix_filter_case_insensitive commits prefix :
  prefix <> EmptyString ->
  (forall id,
     id ∈ extractIssues equalFoldUnicode commits prefix
     <-> exists commit m,
           commit ∈ commits
           /\ m ∈ FindAllStringSubmatch issuePattern commit
           /\ EqualFold equalFoldUnicode (m !!! 1) prefix = true
           /\ id = m !!! 0)
  /\ (all_bytes is_ascii prefix = true ->
      forall id,
        id ∈ extractIssues equalFoldUnicode commits prefix
        <-> exists commit pre letters digits post,
              commit ∈ commits
              /\ token_occurrence IsWordChar commit pre letters digits post
              /\ id = letters +:+ "-" +:+ digits
              /\ ToUpper letters = ToUpper prefix)
  /\ (forall id,
        id ∈ extractIssues equalFoldUnicode commits prefix ->
        (exists commit pre post,
           commit ∈ commits /\ commit = pre +:+ id +:+ post)
        /\ all_bytes (fun c => negb (is_lower c)) id = true).
Proof.
  intros Hne. split; [|split].
  - intros id. rewrite extractIssues_elements, elem_of_retained_tokens.
    split.
    + intros (commit & m & Hc & Hm & [Hp|Hr] & Hid); [contradiction|].
      exists commit, m. auto.
    + intros (commit & m & Hc & Hm & Hr & Hid). exists commit, m. auto.
  - intros Hascii id. rewrite extractIssues_tokens. split.
    + intros (commit & pre & letters & digits & post & Hc & Hocc & Hid & [Hp|Hr]);
        [contradiction|].
      exists commit, pre, letters, digits, post.
      split; [exact Hc|]. split; [exact Hocc|]. split; [exact Hid|].
      apply (EqualFold_ascii equalFoldUnicode); try assumption.
      eapply all_bytes_impl; [exact is_upper_ascii|]. apply Hocc.
    + intros (commit & pre & letters & digits & post & Hc & Hocc & Hid & Hup).
      exists commit, pre, letters, digits, post.
      split; [exact Hc|]. split; [exact Hocc|]. split; [exact Hid|]. right.
      apply (EqualFold_ascii equalFoldUnicode); try assumption.
      eapply all_bytes_impl; [exact is_upper_ascii|]. apply Hocc.
  - intros id Hid. apply extractIssues_tokens in Hid
      as (commit & pre & letters & digits & post & Hc & Hocc & -> & _).
    destruct Hocc as [Ht _ Hup _ Hdig _ _]. split.
    + exists commit, pre, post. split; [exact Hc|].
      rewrite Ht, !string_app_assoc. reflexivity.
    + rewrite !all_bytes_app. apply andb_true_iff. split; [|apply andb_true_iff; split].
      * eapply all_bytes_impl; [|exact Hup].
        intros c Hcu. rewrite (is_upper_not_lower c Hcu). reflexivity.
      * reflexivity.
      * eapply all_bytes_impl; [|exact Hdig].
        intros c Hcd. rewrite (is_digit_not_lower c Hcd). reflexivity.
Qed.

(** The case of TestExtractIssues named "case insensitive prefix", for every
    filter. *)
Example lower_case_token_not_extracted prefix :
  extractIssues equalFoldUnicode ["feat: eng-123 lower case"] prefix = [].
Proof. reflexivity. Qed.

End PrefixFilter.

Lemma prefix_filter_case_insensitive_witness :
  "eng" <> EmptyString
  /\ (forall id,
        id ∈ extractIssues (fun _ _ => false)
               ["feat: ENG-123 and TEAM-456"; "fix: eng-7"] "eng"
        -> (exists commit pre post,
              commit ∈ ["feat: ENG-123 and TEAM-456"; "fix: eng-7"]
              /\ commit = pre +:+ id +:+ post)
           /\ all_bytes (fun c => negb (is_lower c)) id = true).
Proof.
  split; [discriminate|].
  apply (prefix_filter_case_insensitive (fun _ _ => false)
           ["feat: ENG-123 and TEAM-456"; "fix: eng-7"] "eng").
  discriminate.
Defined.

Example extract_multiple :
  extractIssues (fun _ _ => false)
    ["feat: ENG-100"; "fix: ENG-200 and ENG-100"; "chore: OPS-300"] EmptyString
  = ["ENG-100"; "ENG-200"; "OPS-300"].
Proof. vm_compute. reflexivity. Qed.

Example extract_prefix :
  extractIssues (fun _ _ => false) ["feat: ENG-123 and TEAM-456"; "fix: eng-7"] "eng"
  = ["ENG-123"].
Proof. vm_compute. reflexivity. Qed.

Example find_all_contexts :
  FindAllStringSubmatch issuePattern
    "eng-1 A-2 ABCDEFGHIJK-3 AB-CD-12 _XY-1 XY-1_ XY-12a (QQ-7)"
  = [ ["CD-12"; "CD"; "12"]; ["QQ-7"; "QQ"; "7"] ].
Proof. reflexivity. Qed.

(** ** Traces: general facts *)

Lemma fetched_ids_app a b : fetched_ids (a ++ b) = fetched_ids a ++ fetched_ids b.
Proof.
  induction a as [|e a IH]; [reflexivity|].
  destruct e; cbn [app fetched_ids]; rewrite IH; reflexivity.
Qed.

Lemma ok_updates_app a b : ok_updates (a ++ b) = ok_updates a + ok_updates b.
Proof.
  induction a as [|e a IH]; [reflexivity|].
  destruct e as [| | | |? ? [|]|]; cbn [app ok_updates]; rewrite IH; reflexivity.
Qed.

Lemma ok_comments_app a b : ok_comments (a ++ b) = ok_comments a + ok_comments b.
Proof.
  induction a as [|e a IH]; [reflexivity|].
  destruct e as [| | | | |? ? [|]]; cbn [app ok_comments]; rewrite IH; reflexivity.
Qed.

Lemma warnings_of_fetch_first x y tr :
  fetch_or_end (head tr) -> warnings_of x tr = warnings_of y tr.
Proof.
  destruct tr as [|e tr]; [reflexivity|].
  destruct e; cbn; try discriminate. reflexivity.
Qed.

Lemma warnings_of_app cur a b :
  fetch_or_end (head b) ->
  warnings_of cur (a ++ b) = warnings_of cur a ++ warnings_of cur b.
Proof.
  intros Hb. revert cur. induction a as [|e a IH]; intros cur; [reflexivity|].
  destruct e as [| | |id [|]|? ? [|]|? ? [|]]; cbn [app warnings_of];
    rewrite ?IH; try reflexivity;
    rewrite (warnings_of_fetch_first id cur b Hb); reflexivity.
Qed.

Lemma protocol_app R a b after :
  protocol R a (match b with [] => after | e :: _ => Some e end) ->
  protocol R b after ->
  protocol R (a ++ b) after.
Proof.
  intros Ha Hb. induction a as [|e a IH]; [exact Hb|].
  cbn [app protocol] in *. destruct Ha as [He Ha]. split; [|apply IH; exact Ha].
  destruct a as [|e' a]; [|exact He]. cbn [app]. destruct b; exact He.
Qed.

Lemma protocol_split R tr after t1 e t2 :
  protocol R tr after -> tr = t1 ++ e :: t2 ->
  R e (match t2 with [] => after | e' :: _ => Some e' end).
Proof.
  intros H ->. induction t1 as [|x t1 IH]; cbn [app protocol] in H.
  - apply H.
  - apply IH, H.
Qed.

Lemma protocol_impl (R R' : Event -> option Event -> Prop) tr after :
  (forall e next, R e next -> R' e next) ->
  protocol R tr after -> protocol R' tr after.
Proof.
  intros HR. induction tr as [|e tr IH]; [trivial|].
  cbn [protocol]. intros [He Ht]. split; [apply HR, He|apply IH, Ht].
Qed.

(** ** The loop over the linked issues *)

Section Loop.

Context {W : Type}.
Variable client : LinearClient W.
Variable cfg : Config.t.
Variables releasedStateID comment : string.

Ltac run_step :=
  match goal with
  | |- context [GetIssueByIdentifier ?c ?i ?w] =>
      destruct (GetIssueByIdentifier c i w) as [[?|?] ?] eqn:?
  | |- context [UpdateIssueState ?c ?i ?s ?w] =>
      destruct (UpdateIssueState c i s w) as [[?|] ?] eqn:?
  | |- context [AddComment ?c ?i ?b ?w] =>
      destruct (AddComment c i b w) as [[?|] ?] eqn:?
  end.

Lemma process_issue_run updated commented errs issueID st :
  let r := process_issue client cfg releasedStateID comment
             (updated, commented, errs) issueID st in
  exists seg,
    trace (snd r) = trace st ++ seg
    /\ fst r = (ok_updates seg + updated, ok_comments seg + commented,
                errs ++ warnings_of issueID seg)
    /\ fetched_ids seg = [issueID]
    /\ fetch_or_end (head seg)
    /\ forall after, fetch_or_end after ->
         protocol (step_ok (updates_on cfg releasedStateID) releasedStateID
                     (comments_on cfg comment) comment) seg after.
Proof.
  unfold process_issue, bind, perform, ret, updates_on, comments_on.
  destruct (Config.UpdateLinkedIssues cfg && negb (String.eqb releasedStateID EmptyString));
    destruct (Config.AddReleaseComment cfg && negb (String.eqb comment EmptyString));
    repeat (run_step; cbn [fst snd world trace]);
    cbn [fst snd world trace];
    rewrite <- ?app_assoc; cbn [app];
    (eexists; split; [reflexivity|]);
    (split; [cbn [warnings_of ok_updates ok_comments Nat.add];
             rewrite <- ?app_assoc, ?app_nil_r; reflexivity|]);
    (split; [reflexivity|]); (split; [reflexivity|]);
    intros after Hafter; cbn [protocol step_ok]; eauto 10.
Qed.

Lemma process_issues_run issueIDs : forall updated commented errs st,
  let r := process_issues client cfg releasedStateID comment issueIDs
             (updated, commented, errs) st in
  exists tr,
    trace (snd r) = trace st ++ tr
    /\ fst r = (ok_updates tr + updated, ok_comments tr + commented,
                errs ++ warnings_of EmptyString tr)
    /\ fetched_ids tr = issueIDs
    /\ fetch_or_end (head tr)
    /\ protocol (step_ok (updates_on cfg releasedStateID) releasedStateID
                   (comments_on cfg comment) comment) tr None.
Proof.
  induction issueIDs as [|issueID issueIDs IH]; intros updated commented errs st r.
  - exists []. subst r. cbn. rewrite !app_nil_r. auto.
  - subst r. cbn [process_issues]. unfold bind.
    destruct (process_issue_run updated commented errs issueID st)
      as (seg & Htr & Hres & Hids & Hhead & Hprot).
    destruct (process_issue client cfg releasedStateID comment
                (updated, commented, errs) issueID st) as [[[u1 c1] errs1] st1].
    cbn [fst snd] in Htr, Hres. injection Hres as -> -> ->.
    cbv beta iota zeta.
    destruct (IH (ok_updates seg + updated) (ok_comments seg + commented)
                (errs ++ warnings_of issueID seg) st1)
      as (tr & Htr' & Hres' & Hids' & Hhead' & Hprot').
    exists (seg ++ tr). split; [|split; [|split; [|split]]].
    + rewrite Htr', Htr, <- app_assoc. reflexivity.
    + rewrite Hres', ok_updates_app, ok_comments_app.
      f_equal; [f_equal; lia|].
      rewrite <- app_assoc. f_equal.
      rewrite (warnings_of_app _ _ _ Hhead').
      f_equal. apply warnings_of_fetch_first. exact Hhead.
    + rewrite fetched_ids_app, Hids, Hids'. reflexivity.
    + destruct seg; [discriminate|exact Hhead].
    + apply protocol_app; [|exact Hprot'].
      apply Hprot. destruct tr; [exact I|exact Hhead'].
Qed.

End Loop.

(** ** processLinkedIssues as a whole *)

Section Reconciliation.

Context {W : Type}.
Variable time_Now : W -> string * W.
Variable Template : Type.
Variable template_Parse : string -> result Template.
Variable template_Execute : Template -> templateData.t -> result string.
Variable equalFoldUnicode : string -> string -> bool.

Local Abbreviation render_body :=
  (renderTemplate_body time_Now Template template_Parse template_Execute).
Local Abbreviation render_block :=
  (render_comment time_Now Template template_Parse template_Execute).
Local Abbreviation process_linked :=
  (processLinkedIssues time_Now Template template_Parse template_Execute
     equalFoldUnicode).

(** The block that renders the comment: no call when commenting is off,
    otherwise one render, whose failure is a warning and turns commenting
    off. *)
Lemma render_comment_run cfg ctx errs w :
  run (render_block cfg ctx errs) w
  = if Config.AddReleaseComment cfg
    then
      match fst (render_body (Config.CommentTemplate cfg) ctx w) with
      | (comment, Some err) =>
          ((comment, errs ++ ["Failed to render comment template: " +:+ err],
            Config.set_AddReleaseComment false cfg),
           [EvRenderTemplate (Config.CommentTemplate cfg) comment (Some err)])
      | (comment, None) =>
          ((comment, errs, cfg),
           [EvRenderTemplate (Config.CommentTemplate cfg) comment None])
      end
    else ((EmptyString, errs, cfg), []).
Proof.
  unfold run, render_comment, renderTemplate, bind, perform, ret.
  destruct (Config.AddReleaseComment cfg); [|reflexivity].
  cbn [world trace].
  destruct (render_body (Config.CommentTemplate cfg) ctx w)
    as [[comment [err|]] w1]; reflexivity.
Qed.

Lemma processLinkedIssues_run client cfg ctx team issueIDs w :
  forall stateID errs comment errs0 cfg' tr0,
    released_state_id equalFoldUnicode cfg team = (stateID, errs) ->
    run (render_block cfg ctx errs) w = ((comment, errs0, cfg'), tr0) ->
    exists tr,
      run (process_linked client cfg ctx team issueIDs) w
      = ((ok_updates tr, ok_comments tr, errs0 ++ warnings_of EmptyString tr, cfg'),
         tr0 ++ tr)
      /\ fetched_ids tr = issueIDs
      /\ fetch_or_end (head tr)
      /\ protocol
           (step_ok (updates_on cfg' stateID) stateID
              (comments_on cfg' comment) comment)
           tr None.
Proof.
  intros stateID errs comment errs0 cfg' tr0 Hsid Hrc.
  unfold run, processLinkedIssues in *.
  rewrite Hsid. unfold bind at 1.
  destruct (render_block cfg ctx errs {| world := w; trace := [] |})
    as [[[comment1 errs1] cfg1] st1].
  injection Hrc as -> -> -> <-.
  unfold bind, ret.
  destruct (process_issues_run client cfg' stateID comment issueIDs 0 0 errs0 st1)
    as (tr & Htr & Hres & Hids & Hhead & Hprot).
  destruct (process_issues client cfg' stateID comment issueIDs (0, 0, errs0) st1)
    as [[[u c] errs2] st2].
  cbn [fst snd] in Htr, Hres. injection Hres as -> -> ->.
  exists tr. rewrite Htr, !Nat.add_0_r. auto.
Qed.

End Reconciliation.

Example demo_cfg :
  Demo.cfg
  = {| Config.APIKey := EmptyString;
       Config.TeamID := EmptyString;
       Config.TeamKey := "ENG";
       Config.ProjectID := EmptyString;
       Config.IssuePrefix := "ENG";
       Config.ReleasedState := "Done";
       Config.CreateReleaseIssue := true;
       Config.ReleaseIssue :=
         {| ReleaseIssueConfig.Title := "Release {{.Version}}";
            ReleaseIssueConfig.Description := defaultReleaseDescription;
            ReleaseIssueConfig.Labels := ["release"];
            ReleaseIssueConfig.Priority := 4;
            ReleaseIssueConfig.Assignee := EmptyString |};
       Config.UpdateLinkedIssues := true;
       Config.AddReleaseComment := true;
       Config.CommentTemplate := "Released in {{.Version}}" |}.
Proof. vm_compute. reflexivity. Qed.

(** The first end-to-end scenario of the specification. *)
Example scenario_two_issues :
  run (Demo.handlePostPublish Demo.cfg
         (Demo.release "main" ["feat: add X ENG-123"] ["fix: Y ENG-456"]) false) 0
  = ({| ExecuteResponse.Success := true;
        ExecuteResponse.Message :=
          "Created release issue: ENG-1000 (https://linear.app/acme/issue/ENG-1000); "
          +:+ "Updated 2 issue(s) to 'Done'; Added release comment to 2 issue(s)";
        ExecuteResponse.Error := EmptyString;
        ExecuteResponse.Outputs := ∅ |},
     [ EvGetTeam EmptyString "ENG" (Ok Demo.team);
       EvRenderTemplate "Release {{.Version}}" "Release 1.2.3" None;
       EvRenderTemplate defaultReleaseDescription defaultReleaseDescription None;
       EvCreateIssue
         (CreateIssueInput.mk "team-1" "Release 1.2.3" defaultReleaseDescription 4
            EmptyString EmptyString)
         (Ok (Demo.issue "ENG-1000"));
       EvRenderTemplate "Released in {{.Version}}" "Released in 1.2.3" None;
       EvGetIssueByIdentifier "ENG-123" (Ok (Demo.issue "ENG-123"));
       EvUpdateIssueState "id-ENG-123" "s3" None;
       EvAddComment "id-ENG-123" "Released in 1.2.3" None;
       EvGetIssueByIdentifier "ENG-456" (Ok (Demo.issue "ENG-456"));
       EvUpdateIssueState "id-ENG-456" "s3" None;
       EvAddComment "id-ENG-456" "Released in 1.2.3" None ]).
Proof. vm_compute. reflexivity. Qed.

(** The second one: a fetch fails, the other issue is still processed. *)
Example scenario_fetch_fails :
  run (Demo.handlePostPublish
         (Config.set_ReleaseIssue (Config.ReleaseIssue Demo.cfg)
            (Config.mk EmptyString EmptyString "ENG" EmptyString "ENG" "Done" false
               (Config.ReleaseIssue Demo.cfg) true true "Released in {{.Version}}"))
         (Demo.release "main" ["feat: add X ENG-404"] ["fix: Y ENG-456"]) false) 0
  = ({| ExecuteResponse.Success := true;
        ExecuteResponse.Message :=
          "Updated 1 issue(s) to 'Done'; Added release comment to 1 issue(s); "
          +:+ "Warning: Issue ENG-404 not found: issue ENG-404 not found";
        ExecuteResponse.Error := EmptyString;
        ExecuteResponse.Outputs := ∅ |},
     [ EvGetTeam EmptyString "ENG" (Ok Demo.team);
       EvRenderTemplate "Released in {{.Version}}" "Released in 1.2.3" None;
       EvGetIssueByIdentifier "ENG-404" (Err "issue ENG-404 not found");
       EvGetIssueByIdentifier "ENG-456" (Ok (Demo.issue "ENG-456"));
       EvUpdateIssueState "id-ENG-456" "s3" None;
       EvAddComment "id-ENG-456" "Released in 1.2.3" None ]).
Proof. vm_compute. reflexivity. Qed.

(** A property of events that holds of the first event and is passed on by
    the protocol holds of every event. *)
Lemma protocol_Forall (R : Event -> option Event -> Prop) (P : Event -> Prop) tr :
  (forall e next, P e -> R e next ->
     match next with Some e' => P e' | None => True end) ->
  protocol R tr None ->
  match head tr with Some e => P e | None => True end ->
  Forall P tr.
Proof.
  intros Hstep. induction tr as [|e tr IH]; [constructor|].
  cbn [protocol head]. intros [He Ht] Pe. constructor; [exact Pe|].
  apply IH; [exact Ht|]. specialize (Hstep e _ Pe He).
  destruct tr; [exact I|exact Hstep].
Qed.

Lemma fetch_or_end_not (f : Event -> bool) next :
  (forall e, is_fetch e = true -> f e = false) ->
  fetch_or_end next ->
  match next with Some e' => f e' = false | None => True end.
Proof. intros Hf. destruct next; [apply Hf|trivial]. Qed.

(** Without a released state no update is attempted. *)
Lemma protocol_no_update stateID comOn comment tr :
  protocol (step_ok false stateID comOn comment) tr None ->
  match head tr with Some e => is_update e = false | None => True end ->
  Forall (fun e => is_update e = false) tr.
Proof.
  apply protocol_Forall. intros e next Pe He.
  assert (fetch_or_end next ->
          match next with Some e' => is_update e' = false | None => True end) as Hf.
  { destruct next as [[]|]; cbn; auto; discriminate. }
  destruct e as [| | |? [|]| |]; cbn [step_ok] in He; try discriminate;
    try (apply Hf; exact He); try contradiction.
  destruct comOn; cbn in He; [|apply Hf; exact He]. destruct He as [r ->]. reflexivity.
Qed.

(** Without a comment no comment is attempted. *)
Lemma protocol_no_comment updOn stateID comment tr :
  protocol (step_ok updOn stateID false comment) tr None ->
  match head tr with Some e => is_comment e = false | None => True end ->
  Forall (fun e => is_comment e = false) tr.
Proof.
  apply protocol_Forall. intros e next Pe He.
  assert (fetch_or_end next ->
          match next with Some e' => is_comment e' = false | None => True end) as Hf.
  { destruct next as [[]|]; cbn; auto; discriminate. }
  destruct e as [| | |? [|]| |]; cbn [step_ok] in He; try discriminate;
    try (apply Hf; exact He); try contradiction.
  destruct updOn; cbn in He; [|apply Hf; exact He]. destruct He as [r ->]. reflexivity.
Qed.

(** The protocol never leads to a render. *)
Lemma protocol_no_render updOn stateID comOn comment tr :
  protocol (step_ok updOn stateID comOn comment) tr None ->
  match head tr with Some e => is_render e = false | None => True end ->
  Forall (fun e => is_render e = false) tr.
Proof.
  apply protocol_Forall. intros e next Pe He.
  assert (fetch_or_end next ->
          match next with Some e' => is_render e' = false | None => True end) as Hf.
  { destruct next as [[]|]; cbn; auto; discriminate. }
  destruct e as [| | |? [|]| |]; cbn [step_ok] in He; try discriminate;
    try (apply Hf; exact He); try contradiction.
  - destruct updOn; cbn in He; [destruct He as [r ->]; reflexivity|].
    destruct comOn; cbn in He; [destruct He as [r ->]; reflexivity|apply Hf; exact He].
  - destruct comOn; cbn in He; [destruct He as [r ->]; reflexivity|apply Hf; exact He].
Qed.

Lemma protocol_carries updOn stateID comOn comment tr :
  protocol (step_ok updOn stateID comOn comment) tr None ->
  match head tr with Some e => carries stateID comment e | None => True end ->
  Forall (carries stateID comment) tr.
Proof.
  apply protocol_Forall. intros e next Pe He.
  assert (fetch_or_end next ->
          match next with Some e' => carries stateID comment e' | None => True end)
    as Hf.
  { destruct next as [[]|]; cbn; auto; discriminate. }
  destruct e as [| | |? [|]| |]; cbn [step_ok] in He;
    try (apply Hf; exact He); try contradiction.
  - destruct updOn; cbn in He; [destruct He as [r ->]; reflexivity|].
    destruct comOn; cbn in He; [destruct He as [r ->]; reflexivity|apply Hf; exact He].
  - destruct comOn; cbn in He; [destruct He as [r ->]; reflexivity|apply Hf; exact He].
Qed.

(** ** Reconciliation of the linked issues *)

Lemma warnings_of_failed_fetch cur t1 id err t2 :
  ("Issue " +:+ id +:+ " not found: " +:+ err)
  ∈ warnings_of cur (t1 ++ EvGetIssueByIdentifier id (Err err) :: t2).
Proof.
  revert cur. induction t1 as [|e t1 IH]; intros cur.
  - cbn. apply list_elem_of_here.
  - destruct e as [| | |? [|]|? ? [|]|? ? [|]]; cbn [app warnings_of];
      try apply list_elem_of_further; apply IH.
Qed.

(** Warnings of the loop are about a fetch, an update or a comment. *)
Lemma warnings_of_shape cur tr x :
  x ∈ warnings_of cur tr ->
  (exists id err, x = "Issue " +:+ id +:+ " not found: " +:+ err)
  \/ (exists id err, x = "Failed to update " +:+ id +:+ ": " +:+ err)
  \/ (exists id err, x = "Failed to add comment to " +:+ id +:+ ": " +:+ err
                     /\ exists issueID body,
                          EvAddComment issueID body (Some err) ∈ tr).
Proof.
  revert cur. induction tr as [|e tr IH]; intros cur Hx; [inversion Hx|].
  assert (forall cur', x ∈ warnings_of cur' tr ->
            (exists id err, x = "Issue " +:+ id +:+ " not found: " +:+ err)
            \/ (exists id err, x = "Failed to update " +:+ id +:+ ": " +:+ err)
            \/ (exists id err,
                  x = "Failed to add comment to " +:+ id +:+ ": " +:+ err
                  /\ exists issueID body,
                       EvAddComment issueID body (Some err) ∈ e :: tr)) as IH'.
  { intros cur' H. destruct (IH cur' H) as [?|[?|(id & err & ? & i & b & ?)]]; auto.
    right. right. exists id, err. split; [assumption|].
    exists i, b. apply list_elem_of_further. assumption. }
  destruct e as [| | |? [|]|? ? [|]|i b [|]]; cbn [warnings_of] in Hx;
    try (apply IH' in Hx; exact Hx);
    apply elem_of_cons in Hx as [->|Hx]; try (apply IH' in Hx; exact Hx).
  - left. eauto.
  - right. left. eauto.
  - right. right. eexists _, _. split; [reflexivity|].
    exists i, b. apply list_elem_of_here.
Qed.

Section ReconciliationClaims.

Context {W : Type}.
Variable time_Now : W -> string * W.
Variable Template : Type.
Variable template_Parse : string -> result Template.
Variable template_Execute : Template -> templateData.t -> result string.
Variable equalFoldUnicode : string -> string -> bool.

Local Abbreviation render_body :=
  (renderTemplate_body time_Now Template template_Parse template_Execute).
Local Abbreviation render_block :=
  (render_comment time_Now Template template_Parse template_Execute).
Local Abbreviation process_linked :=
  (processLinkedIssues time_Now Template template_Parse template_Execute
     equalFoldUnicode).

Lemma render_block_cases cfg ctx errs w comment errs0 cfg' tr0 :
  run (render_block cfg ctx errs) w = ((comment, errs0, cfg'), tr0) ->
  (Config.AddReleaseComment cfg = false
   /\ comment = EmptyString /\ errs0 = errs /\ cfg' = cfg /\ tr0 = [])
  \/ (Config.AddReleaseComment cfg = true
      /\ fst (render_body (Config.CommentTemplate cfg) ctx w) = (comment, None)
      /\ errs0 = errs /\ cfg' = cfg
      /\ tr0 = [EvRenderTemplate (Config.CommentTemplate cfg) comment None])
  \/ (exists err,
        Config.AddReleaseComment cfg = true
        /\ fst (render_body (Config.CommentTemplate cfg) ctx w) = (comment, Some err)
        /\ errs0 = errs ++ ["Failed to render comment template: " +:+ err]
        /\ cfg' = Config.set_AddReleaseComment false cfg
        /\ tr0 = [EvRenderTemplate (Config.CommentTemplate cfg) comment (Some err)]).
Proof.
  rewrite render_comment_run.
  destruct (Config.AddReleaseComment cfg).
  - destruct (fst (render_body (Config.CommentTemplate cfg) ctx w))
      as [c [err|]]; intros [= <- <- <- <-].
    + right. right. exists err. auto.
    + right. left. auto.
  - intros [= <- <- <- <-]. left. auto.
Qed.

(** The events of one run of processLinkedIssues: at most one render, then
    the loop, which fetches every identifier in order and follows
    [step_ok]. *)
Lemma processLinkedIssues_protocol client cfg ctx team issueIDs w :
  forall stateID errs comment errs0 cfg' tr0,
    released_state_id equalFoldUnicode cfg team = (stateID, errs) ->
    run (render_block cfg ctx errs) w = ((comment, errs0, cfg'), tr0) ->
    exists tr,
      run (process_linked client cfg ctx team issueIDs) w
      = ((ok_updates tr, ok_comments tr, errs0 ++ warnings_of EmptyString tr, cfg'),
         tr0 ++ tr)
      /\ fetched_ids (tr0 ++ tr) = issueIDs
      /\ ok_updates (tr0 ++ tr) = ok_updates tr
      /\ ok_comments (tr0 ++ tr) = ok_comments tr
      /\ warnings_of EmptyString (tr0 ++ tr) = warnings_of EmptyString tr
      /\ protocol
           (step_ok (updates_on cfg' stateID) stateID
              (comments_on cfg' comment) comment)
           (tr0 ++ tr) None.
Proof.
  intros stateID errs comment errs0 cfg' tr0 Hsid Hrc.
  destruct (processLinkedIssues_run time_Now Template template_Parse
              template_Execute equalFoldUnicode client cfg ctx team issueIDs w
              _ _ _ _ _ _ Hsid Hrc) as (tr & Hrun & Hids & Hhead & Hprot).
  exists tr. split; [exact Hrun|].
  apply render_block_cases in Hrc
    as [(_ & _ & _ & _ & ->)|[(_ & _ & _ & _ & ->)|(err & _ & _ & _ & _ & ->)]];
    cbn [app fetched_ids ok_updates ok_comments warnings_of protocol step_ok];
    repeat split; try assumption; destruct tr; assumption.
Qed.

(** C2. In a reconciliation run every identifier is fetched, in order,
    whatever happened to the ones before it; a failed fetch is recorded as a
    warning and is followed by the next fetch (or by nothing), never by a
    state update or a comment; a failed state update is followed by the
    comment attempt for the same issue whenever comments are being made; and
    the two counters are the numbers of successful state updates and of
    successful comments. *)
Theorem linked_issues_processed_independently client cfg ctx team issueIDs w :
  let '((updated, commented, errs, _), tr) :=
    run (process_linked client cfg ctx team issueIDs) w in
  fetched_ids tr = issueIDs
  /\ updated = ok_updates tr
  /\ commented = ok_comments tr
  /\ (forall t1 id err t2,
        tr = t1 ++ EvGetIssueByIdentifier id (Err err) :: t2 ->
        ("Issue " +:+ id +:+ " not found: " +:+ err) ∈ errs
        /\ fetch_or_end (head t2))
  /\ (forall t1 issueID stateID err t2 comment,
        tr = t1 ++ EvUpdateIssueState issueID stateID (Some err) :: t2 ->
        Config.AddReleaseComment cfg = true ->
        fst (render_body (Config.CommentTemplate cfg) ctx w) = (comment, None) ->
        comment <> EmptyString ->
        exists r t3, t2 = EvAddComment issueID comment r :: t3).
Proof.
  destruct (released_state_id equalFoldUnicode cfg team) as [stateID errs] eqn:Hsid.
  destruct (run (render_block cfg ctx errs) w) as [[[comment errs0] cfg'] tr0] eqn:Hrc.
  destruct (processLinkedIssues_protocol client cfg ctx team issueIDs w
              _ _ _ _ _ _ Hsid Hrc)
    as (tr & -> & Hids & Hu & Hc & Hw & Hprot).
  split; [exact Hids|]. split; [symmetry; exact Hu|]. split; [symmetry; exact Hc|].
  split.
  - intros t1 id err t2 Htr. split.
    + apply elem_of_app. right. rewrite <- Hw, Htr.
      apply warnings_of_failed_fetch.
    + pose proof (protocol_split _ _ _ _ _ _ Hprot Htr) as H.
      cbn [step_ok] in H. destruct t2; exact H.
  - intros t1 issueID sid err t2 comment' Htr Hon Hrender Hne.
    pose proof (protocol_split _ _ _ _ _ _ Hprot Htr) as H.
    cbn [step_ok] in H. unfold comments_on in H.
    apply render_block_cases in Hrc
      as [(Hoff & _)|[(_ & Hr & _ & -> & _)|(e & _ & Hr & _)]];
      [congruence| |congruence].
    assert (comment = comment') as -> by congruence.
    rewrite Hon in H.
    destruct (String.eqb_spec comment' EmptyString) as [?|_]; [contradiction|].
    cbn in H. destruct H as [r H]. destruct t2 as [|e t3]; [discriminate|].
    injection H as ->. eauto.
Qed.

Lemma find_released_state_none states name d :
  existsb (fun state => EqualFold equalFoldUnicode (State.Name state) name) states
  = false ->
  find_released_state equalFoldUnicode states name d = d.
Proof.
  induction states as [|state states IH]; [reflexivity|].
  cbn [existsb find_released_state]. intros H.
  apply orb_false_iff in H as [-> H]. apply IH, H.
Qed.

Lemma ok_updates_none tr :
  Forall (fun e => is_update e = false) tr -> ok_updates tr = 0.
Proof.
  induction 1 as [|e tr He _ IH]; [reflexivity|].
  destruct e as [| | | |? ? [|]|]; cbn [ok_updates]; try exact IH; discriminate.
Qed.

Lemma ok_comments_none tr :
  Forall (fun e => is_comment e = false) tr -> ok_comments tr = 0.
Proof.
  induction 1 as [|e tr He _ IH]; [reflexivity|].
  destruct e as [| | | | |? ? [|]]; cbn [ok_comments]; try exact IH; discriminate.
Qed.

(** C4 (amended). When state updates are enabled and the configured
    released-state name is not empty and folds to the name of no state of the
    team, the run still fetches every linked issue; the warning that the state
    was not found, which quotes the name, is recorded exactly once, before any
    other warning; no state update is attempted and the updated count is 0;
    when commenting is enabled and the template renders to a non-empty text,
    every issue that was fetched gets its comment attempt; and the comment
    template is rendered at most once, before the first fetch, every comment
    carrying that one text. *)
Theorem missing_released_state_skips_transitions client cfg ctx team issueIDs w :
  Config.UpdateLinkedIssues cfg = true ->
  Config.ReleasedState cfg <> EmptyString ->
  existsb (fun state =>
             EqualFold equalFoldUnicode (State.Name state) (Config.ReleasedState cfg))
    (Team.States team) = false ->
  let '((updated, commented, errs, _), tr) :=
    run (process_linked client cfg ctx team issueIDs) w in
  let warning :=
    "State '" +:+ Config.ReleasedState cfg +:+ "' not found in team workflow" in
  (exists rest, errs = warning :: rest /\ warning ∉ rest)
  /\ fetched_ids tr = issueIDs
  /\ Forall (fun e => is_update e = false) tr
  /\ updated = 0
  /\ (forall comment,
        Config.AddReleaseComment cfg = true ->
        fst (render_body (Config.CommentTemplate cfg) ctx w) = (comment, None) ->
        comment <> EmptyString ->
        forall t1 id issue t2,
          tr = t1 ++ EvGetIssueByIdentifier id (Ok issue) :: t2 ->
          exists r t3, t2 = EvAddComment (Issue.ID issue) comment r :: t3)
  /\ (exists setup loop comment,
        tr = setup ++ loop
        /\ (setup = []
            \/ exists err,
                 setup = [EvRenderTemplate (Config.CommentTemplate cfg) comment err])
        /\ Forall (fun e => is_render e = false) loop
        /\ Forall (carries EmptyString comment) loop).
Proof.
  intros Hupd Hname Hnone.
  assert (released_state_id equalFoldUnicode cfg team
          = (EmptyString,
             ["State '" +:+ Config.ReleasedState cfg
              +:+ "' not found in team workflow"])) as Hsid.
  { unfold released_state_id. rewrite Hupd.
    destruct (String.eqb_spec (Config.ReleasedState cfg) EmptyString)
      as [?|_]; [contradiction|].
    cbn [andb negb]. rewrite find_released_state_none by exact Hnone.
    reflexivity. }
  destruct (run (render_block cfg ctx
                   ["State '" +:+ Config.ReleasedState cfg
                    +:+ "' not found in team workflow"]) w)
    as [[[comment errs0] cfg'] tr0] eqn:Hrc.
  destruct (processLinkedIssues_run time_Now Template template_Parse
              template_Execute equalFoldUnicode client cfg ctx team issueIDs w
              _ _ _ _ _ _ Hsid Hrc) as (loop & Hrun & _ & Hhead & Hloop).
  destruct (processLinkedIssues_protocol client cfg ctx team issueIDs w
              _ _ _ _ _ _ Hsid Hrc)
    as (tr & Hrun' & Hids & Hu & _ & _ & Hprot).
  assert (tr = loop) as -> by (rewrite Hrun in Hrun'; injection Hrun' as _ _ _ H;
                               apply app_inv_head in H; congruence).
  rewrite Hrun. clear Hrun Hrun'.
  unfold updates_on in Hprot, Hloop. rewrite andb_false_r in Hprot, Hloop.
  assert (Forall (fun e => is_update e = false) (tr0 ++ loop)) as Hnoupd.
  { eapply protocol_no_update; [exact Hprot|].
    apply render_block_cases in Hrc
      as [(_ & _ & _ & _ & ->)|[(_ & _ & _ & _ & ->)|(err & _ & _ & _ & _ & ->)]];
      cbn [app head]; try reflexivity.
    destruct loop as [|[]]; cbn in Hhead |- *; (reflexivity || discriminate || trivial). }
  split; [|split; [exact Hids|split; [exact Hnoupd|split]]].
  - (* the warning *)
    assert (forall x, x ∈ warnings_of EmptyString loop ->
              x <> "State '" +:+ Config.ReleasedState cfg
                   +:+ "' not found in team workflow") as Hother.
    { intros x Hx.
      apply warnings_of_shape in Hx
        as [(i & e & ->)|[(i & e & ->)|(i & e & -> & _)]]; discriminate. }
    apply render_block_cases in Hrc
      as [(_ & _ & -> & _)|[(_ & _ & -> & _)|(err & _ & _ & -> & _)]].
    + eexists. split; [reflexivity|]. intros Hin. exact (Hother _ Hin eq_refl).
    + eexists. split; [reflexivity|]. intros Hin. exact (Hother _ Hin eq_refl).
    + eexists. split; [reflexivity|]. cbn [app]. intros Hin.
      apply elem_of_cons in Hin as [Hin|Hin]; [discriminate|].
      exact (Hother _ Hin eq_refl).
  - rewrite <- Hu. apply ok_updates_none, Hnoupd.
  - (* comments are still attempted *)
    split.
    + intros comment' Hon Hrender Hne t1 id issue t2 Htr.
      pose proof (protocol_split _ _ _ _ _ _ Hprot Htr) as H.
      cbn [step_ok] in H. unfold comments_on in H.
      apply render_block_cases in Hrc
        as [(Hoff & _)|[(_ & Hr & _ & -> & _)|(e & _ & Hr & _)]];
        [congruence| |congruence].
      assert (comment = comment') as -> by congruence.
      rewrite Hon in H.
      destruct (String.eqb_spec comment' EmptyString) as [?|_]; [contradiction|].
      cbn in H. destruct H as [r H]. destruct t2 as [|e t3]; [discriminate|].
      injection H as ->. eauto.
    + exists tr0, loop, comment. split; [reflexivity|]. split.
      * apply render_block_cases in Hrc
          as [(_ & _ & _ & _ & ->)|[(_ & _ & _ & _ & ->)|(err & _ & _ & _ & _ & ->)]];
          eauto.
      * assert (match head loop with
                | Some e => is_fetch e = true
                | None => True
                end) as Hh by (destruct loop; exact Hhead).
        split.
        -- eapply protocol_no_render; [exact Hloop|].
           destruct loop as [|[]]; cbn in Hh |- *; (reflexivity || discriminate || trivial).
        -- eapply protocol_carries; [exact Hloop|].
           destruct loop as [|[]]; cbn in Hh |- *; (reflexivity || discriminate || trivial).
Qed.

(** C9. When commenting is enabled and the comment template renders without
    error to the empty string, no comment is attempted for any linked issue,
    the commented count is 0, and no warning about commenting (neither about
    adding a comment nor about rendering the template) is recorded. *)
Theorem empty_comment_silently_skipped client cfg ctx team issueIDs w :
  Config.AddReleaseComment cfg = true ->
  fst (render_body (Config.CommentTemplate cfg) ctx w) = (EmptyString, None) ->
  let '((updated, commented, errs, _), tr) :=
    run (process_linked client cfg ctx team issueIDs) w in
  Forall (fun e => is_comment e = false) tr
  /\ commented = 0
  /\ (forall x, x ∈ errs ->
        String.prefix "Failed to add comment" x = false
        /\ String.prefix "Failed to render comment template" x = false)
  /\ fetched_ids tr = issueIDs.
Proof.
  intros Hon Hrender.
  destruct (released_state_id equalFoldUnicode cfg team) as [stateID errs] eqn:Hsid.
  destruct (run (render_block cfg ctx errs) w) as [[[comment errs0] cfg'] tr0] eqn:Hrc.
  destruct (processLinkedIssues_protocol client cfg ctx team issueIDs w
              _ _ _ _ _ _ Hsid Hrc)
    as (tr & -> & Hids & _ & Hc & _ & Hprot).
  apply render_block_cases in Hrc
    as [(Hoff & _)|[(_ & Hr & -> & -> & ->)|(e & _ & Hr & _)]];
    [congruence| |congruence].
  assert (comment = EmptyString) as -> by congruence.
  unfold comments_on in Hprot.
  cbn [String.eqb negb] in Hprot. rewrite andb_false_r in Hprot.
  assert (Forall (fun e => is_comment e = false)
            ([EvRenderTemplate (Config.CommentTemplate cfg) EmptyString None] ++ tr))
    as Hnocom.
  { eapply protocol_no_comment; [exact Hprot|reflexivity]. }
  split; [exact Hnocom|]. split; [rewrite <- Hc; apply ok_comments_none, Hnocom|].
  split; [|exact Hids].
  intros x Hx. apply elem_of_app in Hx as [Hx|Hx].
  - unfold released_state_id in Hsid.
    destruct (Config.UpdateLinkedIssues cfg && _) in Hsid.
    + destruct (String.eqb _ EmptyString) in Hsid; injection Hsid as <- <-.
      * apply list_elem_of_singleton in Hx as ->. split; reflexivity.
      * inversion Hx.
    + injection Hsid as <- <-. inversion Hx.
  - apply warnings_of_shape in Hx
      as [(i & e & ->)|[(i & e & ->)|(i & e & -> & iid & body & Hin)]].
    + split; reflexivity.
    + split; reflexivity.
    + exfalso. rewrite Forall_forall in Hnocom.
      assert (is_comment (EvAddComment iid body (Some e)) = false) as Hf.
      { apply Hnocom. apply elem_of_app. right. exact Hin. }
      discriminate.
Qed.

End ReconciliationClaims.

(** ** The post-publish hook *)

Lemma string_app_nil_r (s : string) : s +:+ EmptyString = s.
Proof.
  induction s as [|c s IH]; [reflexivity|].
  change (String c (s +:+ EmptyString) = String c s). rewrite IH. reflexivity.
Qed.

Lemma prefix_app (p s : string) : String.prefix p (p +:+ s) = true.
Proof.
  induction p as [|c p IH]; [destruct s; reflexivity|].
  change (String.prefix (String c p) (String c (p +:+ s)) = true).
  cbn [String.prefix]. destruct (ascii_dec c c); [exact IH|contradiction].
Qed.

Lemma Join_cons e rest sep :
  Join (e :: rest) sep
  = e +:+ match rest with [] => EmptyString | _ => sep +:+ Join rest sep end.
Proof. destruct rest; cbn [Join]; [rewrite string_app_nil_r|]; reflexivity. Qed.

Section PostPublishClaims.

Context {W : Type}.
Variable NewLinearClient : string -> LinearClient W.
Variable time_Now : W -> string * W.
Variable Template : Type.
Variable template_Parse : string -> result Template.
Variable template_Execute : Template -> templateData.t -> result string.
Variable equalFoldUnicode : string -> string -> bool.

Local Abbreviation render_body :=
  (renderTemplate_body time_Now Template template_Parse template_Execute).
Local Abbreviation post_publish :=
  (handlePostPublish NewLinearClient time_Now Template template_Parse
     template_Execute equalFoldUnicode).

(** A template that does not parse renders to the empty string, in every
    world and without reading the clock. *)
Lemma render_body_malformed tmplStr ctx w err :
  template_Parse tmplStr = Err err ->
  render_body tmplStr ctx w = ((EmptyString, Some err), w).
Proof. unfold renderTemplate_body. intros ->. reflexivity. Qed.

(** What a dry run does: at most two renders, and a message made of the
    lines of [dry_run_lines]. *)
Lemma dry_run_result cfg ctx w :
  let title :=
    render_body (ReleaseIssueConfig.Title (Config.ReleaseIssue cfg)) ctx w in
  let w1 := if Config.CreateReleaseIssue cfg then snd title else w in
  let comment := render_body (Config.CommentTemplate cfg) ctx w1 in
  run (post_publish cfg ctx true) w
  = ({| ExecuteResponse.Success := true;
        ExecuteResponse.Message :=
          Join (dry_run_lines cfg (fst (fst title)) (fst (fst comment))) "; ";
        ExecuteResponse.Error := EmptyString;
        ExecuteResponse.Outputs := ∅ |},
     (if Config.CreateReleaseIssue cfg
      then [EvRenderTemplate (ReleaseIssueConfig.Title (Config.ReleaseIssue cfg))
              (fst (fst title)) (snd (fst title))]
      else [])
     ++ (if Config.AddReleaseComment cfg
         then [EvRenderTemplate (Config.CommentTemplate cfg)
                 (fst (fst comment)) (snd (fst comment))]
         else [])).
Proof.
  unfold run, handlePostPublish, renderTemplate, dry_run_lines, bind, perform, ret.
  destruct (Config.CreateReleaseIssue cfg), (Config.UpdateLinkedIssues cfg),
    (Config.AddReleaseComment cfg); cbn [world trace fst snd app];
    repeat match goal with
           | |- context [render_body ?t ?c ?x] =>
               destruct (render_body t c x) as [[? ?] ?]; cbn [world trace fst snd app]
           end; reflexivity.
Qed.

(** C7. A dry run with create_release_issue enabled succeeds, its message
    contains the rendered release-issue title, and it calls no operation of
    the Linear client: the only events are template renders. *)
Theorem dry_run_makes_no_gateway_call cfg ctx w :
  Config.CreateReleaseIssue cfg = true ->
  let '(resp, tr) := run (post_publish cfg ctx true) w in
  let title :=
    fst (fst (render_body (ReleaseIssueConfig.Title (Config.ReleaseIssue cfg)) ctx w)) in
  ExecuteResponse.Success resp = true
  /\ (exists pre post, ExecuteResponse.Message resp = pre +:+ title +:+ post)
  /\ Forall (fun e => is_gateway e = false) tr.
Proof.
  intros Hcreate. rewrite dry_run_result. cbn [ExecuteResponse.Success ExecuteResponse.Message].
  split; [reflexivity|]. split.
  - unfold dry_run_lines. rewrite Hcreate. cbn [app].
    rewrite Join_cons, string_app_assoc. eauto.
  - rewrite Hcreate. destruct (Config.AddReleaseComment cfg);
      repeat constructor.
Qed.

(** C10. In a dry run render errors are discarded: the response is a success
    with no error string whatever the templates are, and when the title or
    the comment template is malformed its line is still in the message, with
    an empty rendered part. *)
Theorem dry_run_discards_render_errors cfg ctx w :
  let '(resp, tr) := run (post_publish cfg ctx true) w in
  ExecuteResponse.Success resp = true
  /\ ExecuteResponse.Error resp = EmptyString
  /\ exists title comment,
       ExecuteResponse.Message resp = Join (dry_run_lines cfg title comment) "; "
       /\ (forall err,
             template_Parse (ReleaseIssueConfig.Title (Config.ReleaseIssue cfg)) = Err err ->
             title = EmptyString)
       /\ (forall err,
             template_Parse (Config.CommentTemplate cfg) = Err err ->
             comment = EmptyString).
Proof.
  rewrite dry_run_result. cbn [ExecuteResponse.Success ExecuteResponse.Message
                                 ExecuteResponse.Error].
  split; [reflexivity|]. split; [reflexivity|].
  eexists _, _. split; [reflexivity|]. split.
  - intros err Herr. rewrite (render_body_malformed _ _ _ _ Herr). reflexivity.
  - intros err Herr. rewrite (render_body_malformed _ _ _ _ Herr). reflexivity.
Qed.

(** C3. In a real run with create_release_issue enabled, once the team is
    resolved, a failure to render the title or the description of the release
    issue, or a failure of the create-issue call, ends the run: the response
    has success=false and a non-empty error string, the failed step is the
    last event, and no linked issue is fetched, updated or commented. *)
Theorem release_issue_failure_is_fatal cfg ctx w team w1 :
  Config.CreateReleaseIssue cfg = true ->
  GetTeam (NewLinearClient (Config.APIKey cfg))
    (Config.TeamID cfg) (Config.TeamKey cfg) w = (Ok team, w1) ->
  release_issue_fails time_Now Template template_Parse template_Execute
    (NewLinearClient (Config.APIKey cfg)) cfg ctx team w1 = true ->
  let '(resp, tr) := run (post_publish cfg ctx false) w in
  ExecuteResponse.Success resp = false
  /\ ExecuteResponse.Error resp <> EmptyString
  /\ String.prefix "Failed to create release issue: " (ExecuteResponse.Error resp) = true
  /\ (exists pre e, tr = pre ++ [e] /\ is_failed_release_step e = true)
  /\ Forall (fun e => is_reconciliation e = false) tr.
Proof.
  intros Hcreate Hteam Hfail.
  unfold run, handlePostPublish, createReleaseIssue, renderTemplate, bind, perform, ret.
  rewrite Hcreate. cbn [world trace]. rewrite Hteam. cbn [world trace fst snd app].
  unfold release_issue_fails in Hfail.
  destruct (render_body (ReleaseIssueConfig.Title (Config.ReleaseIssue cfg)) ctx w1)
    as [[title [terr|]] w2]; cbn [world trace fst snd app].
  { split; [reflexivity|]. split; [discriminate|]. split; [reflexivity|]. split.
    - eexists [_], _. split; [reflexivity|reflexivity].
    - repeat constructor. }
  destruct (render_body (ReleaseIssueConfig.Description (Config.ReleaseIssue cfg)) ctx w2)
    as [[description [derr|]] w3]; cbn [world trace fst snd app].
  { split; [reflexivity|]. split; [discriminate|]. split; [reflexivity|]. split.
    - eexists [_; _], _. split; [reflexivity|reflexivity].
    - repeat constructor. }
  destruct (CreateIssue _ _ w3) as [[issue|cerr] w4]; [discriminate|].
  cbn [world trace fst snd app].
  split; [reflexivity|]. split; [discriminate|]. split; [apply prefix_app|]. split.
  - eexists [_; _; _], _. split; [reflexivity|reflexivity].
  - repeat constructor.
Qed.

End PostPublishClaims.

(** ** Configuration defaults *)

Section ConfigClaims.

Variable NewConfigParser : gmap string any -> ConfigParser.

(** C8 (amended). Provided the SDK's parser returns the default it is given
    for a key that is absent (no environment variable being named), the parsed
    configuration has, for absent keys: released-state name "Done", the three
    toggles true, the comment template "Released in {{.Version}}" (a Go
    template, with the dot), and the team key as issue prefix. *)
Theorem parseConfig_defaults raw :
  (forall key def, raw !! key = None ->
     GetString (NewConfigParser raw) key EmptyString def = def) ->
  (forall key def, raw !! key = None ->
     GetBool (NewConfigParser raw) key def = def) ->
  let cfg := parseConfig NewConfigParser raw in
  (raw !! "released_state" = None -> Config.ReleasedState cfg = "Done")
  /\ (raw !! "create_release_issue" = None -> Config.CreateReleaseIssue cfg = true)
  /\ (raw !! "update_linked_issues" = None -> Config.UpdateLinkedIssues cfg = true)
  /\ (raw !! "add_release_comment" = None -> Config.AddReleaseComment cfg = true)
  /\ (raw !! "comment_template" = None ->
      Config.CommentTemplate cfg = "Released in {{.Version}}")
  /\ (raw !! "issue_prefix" = None -> Config.IssuePrefix cfg = Config.TeamKey cfg).
Proof.
  intros Hstr Hbool cfg. subst cfg. unfold parseConfig. cbv zeta.
  set (fields := Config.mk _ _ _ _ _ _ _ _ _ _ _).
  set (parsed := match raw !! "release_issue" with Some (AMap _) => _ | _ => _ end).
  assert (exists ri, parsed = Config.set_ReleaseIssue ri fields) as [ri Hri].
  { subst parsed. destruct (raw !! "release_issue") as [[]|]; eauto. }
  rewrite Hri. subst fields.
  cbn [Config.set_ReleaseIssue Config.IssuePrefix Config.TeamKey].
  destruct (String.eqb _ EmptyString && negb _) eqn:Hcond;
    cbn [Config.set_ReleaseIssue Config.set_IssuePrefix Config.IssuePrefix
         Config.TeamKey Config.ReleasedState Config.CreateReleaseIssue
         Config.UpdateLinkedIssues Config.AddReleaseComment Config.CommentTemplate];
    repeat split; intros Habsent; try (apply Hstr || apply Hbool); try assumption.
  rewrite (Hstr _ _ Habsent) in Hcond |- *. cbn in Hcond.
  apply negb_false_iff, String.eqb_eq in Hcond. symmetry. exact Hcond.
Qed.

End ConfigClaims.

Lemma parseConfig_defaults_witness :
  let raw : gmap string any := {[ "team_key" := AString "ENG" ]} in
  (forall key def, raw !! key = None ->
     GetString (Demo.NewConfigParser raw) key EmptyString def = def)
  /\ (forall key def, raw !! key = None ->
        GetBool (Demo.NewConfigParser raw) key def = def)
  /\ Config.CommentTemplate (parseConfig Demo.NewConfigParser raw)
     = "Released in {{.Version}}"
  /\ Config.IssuePrefix (parseConfig Demo.NewConfigParser raw) = "ENG".
Proof.
  intros raw.
  assert (forall key def, raw !! key = None ->
            GetString (Demo.NewConfigParser raw) key EmptyString def = def) as Hstr.
  { intros key def H. cbn. rewrite H. reflexivity. }
  assert (forall key def, raw !! key = None ->
            GetBool (Demo.NewConfigParser raw) key def = def) as Hbool.
  { intros key def H. cbn. rewrite H. reflexivity. }
  split; [exact Hstr|]. split; [exact Hbool|].
  destruct (parseConfig_defaults Demo.NewConfigParser raw Hstr Hbool)
    as (_ & _ & _ & _ & Htemplate & Hprefix).
  split.
  - apply Htemplate. reflexivity.
  - rewrite Hprefix by reflexivity. reflexivity.
Defined.

(** C8 as stated fails on the comment template: the default is a Go template
    and has a dot before the field name. *)
Lemma default_comment_template_has_dot :
  Config.CommentTemplate (Demo.parseConfig ∅) = "Released in {{.Version}}"
  /\ Config.CommentTemplate (Demo.parseConfig ∅) <> "Released in {{Version}}".
Proof. split; [reflexivity|discriminate]. Qed.

(** ** The claims on the scripted world *)

Lemma release_issue_failure_witness :
  let cfg := Demo.config "Done" true true true "{{" "Released in {{.Version}}" in
  let ctx := Demo.release "main" ["feat: add X ENG-123"] [] in
  Config.CreateReleaseIssue cfg = true
  /\ GetTeam (Demo.NewLinearClient (Config.APIKey cfg))
       (Config.TeamID cfg) (Config.TeamKey cfg) 0 = (Ok Demo.team, 1)
  /\ release_issue_fails Demo.time_Now Demo.Template Demo.template_Parse
       Demo.template_Execute (Demo.NewLinearClient (Config.APIKey cfg))
       cfg ctx Demo.team 1 = true
  /\ ExecuteResponse.Success (fst (run (Demo.handlePostPublish cfg ctx false) 0))
     = false.
Proof.
  intros cfg ctx.
  split; [reflexivity|]. split; [reflexivity|]. split; [reflexivity|].
  pose proof (release_issue_failure_is_fatal Demo.NewLinearClient Demo.time_Now
                Demo.Template Demo.template_Parse Demo.template_Execute
                Demo.equalFoldUnicode cfg ctx 0 Demo.team 1
                eq_refl eq_refl eq_refl) as H.
  unfold Demo.handlePostPublish.
  destruct (run _ 0) as [resp tr]. apply H.
Defined.

Example release_issue_failure_run :
  run (Demo.handlePostPublish
         (Demo.config "Done" true true true "Release {{.Version}}" "{{")
         (Demo.release EmptyString ["feat: add X ENG-123"] []) false) 0
  = ({| ExecuteResponse.Success := true;
        ExecuteResponse.Message :=
          "Created release issue: ENG-1000 (https://linear.app/acme/issue/ENG-1000); "
          +:+ "Updated 1 issue(s) to 'Done'; "
          +:+ "Warning: Failed to render comment template: template: :1: unclosed action";
        ExecuteResponse.Error := EmptyString;
        ExecuteResponse.Outputs := ∅ |},
     [ EvGetTeam EmptyString "ENG" (Ok Demo.team);
       EvRenderTemplate "Release {{.Version}}" "Release 1.2.3" None;
       EvRenderTemplate defaultReleaseDescription defaultReleaseDescription None;
       EvCreateIssue
         (CreateIssueInput.mk "team-1" "Release 1.2.3" defaultReleaseDescription 4
            EmptyString EmptyString)
         (Ok (Demo.issue "ENG-1000"));
       EvRenderTemplate "{{" EmptyString (Some "template: :1: unclosed action");
       EvGetIssueByIdentifier "ENG-123" (Ok (Demo.issue "ENG-123"));
       EvUpdateIssueState "id-ENG-123" "s3" None ]).
Proof. vm_compute. reflexivity. Qed.

Lemma missing_released_state_witness :
  let cfg := Demo.config "Released" false true true "Release {{.Version}}"
               "Released in {{.Version}}" in
  let ctx := Demo.release "main" [] [] in
  Config.UpdateLinkedIssues cfg = true
  /\ Config.ReleasedState cfg <> EmptyString
  /\ existsb (fun state =>
                EqualFold Demo.equalFoldUnicode (State.Name state)
                  (Config.ReleasedState cfg))
       (Team.States Demo.team) = false
  /\ fetched_ids
       (snd (run (Demo.processLinkedIssues Demo.client cfg ctx Demo.team
                    ["ENG-123"; "ENG-404"; "ENG-456"]) 0))
     = ["ENG-123"; "ENG-404"; "ENG-456"].
Proof.
  intros cfg ctx.
  assert (Config.ReleasedState cfg <> EmptyString) as Hne by discriminate.
  split; [reflexivity|]. split; [exact Hne|]. split; [reflexivity|].
  pose proof (missing_released_state_skips_transitions Demo.time_Now Demo.Template
                Demo.template_Parse Demo.template_Execute Demo.equalFoldUnicode
                Demo.client cfg ctx Demo.team ["ENG-123"; "ENG-404"; "ENG-456"] 0
                eq_refl Hne eq_refl) as H.
  unfold Demo.processLinkedIssues.
  destruct (run _ 0) as [[[[updated commented] errs] cfg'] tr]. apply H.
Defined.

Example missing_released_state_run :
  run (Demo.processLinkedIssues Demo.client
         (Demo.config "Released" false true true "Release {{.Version}}"
            "Released in {{.Version}}")
         (Demo.release "main" [] []) Demo.team ["ENG-123"; "ENG-404"; "ENG-456"]) 0
  = ((0, 2,
      [ "State 'Released' not found in team workflow";
        "Issue ENG-404 not found: issue ENG-404 not found" ],
      Demo.config "Released" false true true "Release {{.Version}}"
        "Released in {{.Version}}"),
     [ EvRenderTemplate "Released in {{.Version}}" "Released in 1.2.3" None;
       EvGetIssueByIdentifier "ENG-123" (Ok (Demo.issue "ENG-123"));
       EvAddComment "id-ENG-123" "Released in 1.2.3" None;
       EvGetIssueByIdentifier "ENG-404" (Err "issue ENG-404 not found");
       EvGetIssueByIdentifier "ENG-456" (Ok (Demo.issue "ENG-456"));
       EvAddComment "id-ENG-456" "Released in 1.2.3" None ]).
Proof. vm_compute. reflexivity. Qed.

(** C4 as stated fails in two ways.  With an empty released-state name, which
    matches no state, the lookup is skipped by the guard on the name and no
    warning is recorded at all.  With commenting enabled and a comment
    template that renders to the empty string, no comment is attempted. *)
Lemma released_state_claim_edge_cases :
  (let cfg := Demo.config EmptyString false true true "Release {{.Version}}"
                "Released in {{.Version}}" in
   Config.UpdateLinkedIssues cfg = true
   /\ existsb (fun state =>
                 EqualFold Demo.equalFoldUnicode (State.Name state)
                   (Config.ReleasedState cfg))
        (Team.States Demo.team) = false
   /\ run (Demo.processLinkedIssues Demo.client cfg (Demo.release "main" [] [])
             Demo.team ["ENG-123"]) 0
      = ((0, 1, [], cfg),
         [ EvRenderTemplate "Released in {{.Version}}" "Released in 1.2.3" None;
           EvGetIssueByIdentifier "ENG-123" (Ok (Demo.issue "ENG-123"));
           EvAddComment "id-ENG-123" "Released in 1.2.3" None ]))
  /\ (let cfg := Demo.config "Released" false true true "Release {{.Version}}"
                   "{{.Branch}}" in
      Config.UpdateLinkedIssues cfg = true
      /\ Config.AddReleaseComment cfg = true
      /\ existsb (fun state =>
                    EqualFold Demo.equalFoldUnicode (State.Name state)
                      (Config.ReleasedState cfg))
           (Team.States Demo.team) = false
      /\ run (Demo.processLinkedIssues Demo.client cfg
                (Demo.release EmptyString [] []) Demo.team ["ENG-123"]) 0
         = ((0, 0, ["State 'Released' not found in team workflow"], cfg),
            [ EvRenderTemplate "{{.Branch}}" EmptyString None;
              EvGetIssueByIdentifier "ENG-123" (Ok (Demo.issue "ENG-123")) ])).
Proof.
  split.
  - split; [reflexivity|]. split; [reflexivity|]. vm_compute. reflexivity.
  - split; [reflexivity|]. split; [reflexivity|]. split; [reflexivity|].
    vm_compute. reflexivity.
Qed.

Lemma dry_run_witness :
  let cfg := Demo.config "Done" true true true "Release {{.Version}}" "{{" in
  let ctx := Demo.release "main" ["feat: add X ENG-123"] [] in
  Config.CreateReleaseIssue cfg = true
  /\ Forall (fun e => is_gateway e = false)
       (snd (run (Demo.handlePostPublish cfg ctx true) 0)).
Proof.
  intros cfg ctx. split; [reflexivity|].
  pose proof (dry_run_makes_no_gateway_call Demo.NewLinearClient Demo.time_Now
                Demo.Template Demo.template_Parse Demo.template_Execute
                Demo.equalFoldUnicode cfg ctx 0 eq_refl) as H.
  unfold Demo.handlePostPublish.
  destruct (run _ 0) as [resp tr]. apply H.
Defined.

Example dry_run_malformed_templates :
  run (Demo.handlePostPublish (Demo.config "Done" true true true "{{" "{{.Nope}}")
         (Demo.release "main" ["feat: add X ENG-123"] []) true) 0
  = ({| ExecuteResponse.Success := true;
        ExecuteResponse.Message :=
          "Would create release issue: ; Would update linked issues to state: Done; "
          +:+ "Would add comment to linked issues: ";
        ExecuteResponse.Error := EmptyString;
        ExecuteResponse.Outputs := ∅ |},
     [ EvRenderTemplate "{{" EmptyString (Some "template: :1: unclosed action");
       EvRenderTemplate "{{.Nope}}" EmptyString
         (Some "template: :1:2: can't evaluate field Nope") ]).
Proof. vm_compute. reflexivity. Qed.

Lemma empty_comment_witness :
  let cfg := Demo.config "Done" false true true "Release {{.Version}}" "{{.Branch}}" in
  let ctx := Demo.release EmptyString [] [] in
  Config.AddReleaseComment cfg = true
  /\ fst (renderTemplate_body Demo.time_Now Demo.Template Demo.template_Parse
            Demo.template_Execute (Config.CommentTemplate cfg) ctx 0)
     = (EmptyString, None)
  /\ Forall (fun e => is_comment e = false)
       (snd (run (Demo.processLinkedIssues Demo.client cfg ctx Demo.team
                    ["ENG-123"; "ENG-500"]) 0)).
Proof.
  intros cfg ctx. split; [reflexivity|]. split; [reflexivity|].
  pose proof (empty_comment_silently_skipped Demo.time_Now Demo.Template
                Demo.template_Parse Demo.template_Execute Demo.equalFoldUnicode
                Demo.client cfg ctx Demo.team ["ENG-123"; "ENG-500"] 0
                eq_refl eq_refl) as H.
  unfold Demo.processLinkedIssues.
  destruct (run _ 0) as [[[[updated commented] errs] cfg'] tr]. apply H.
Defined.

(** A failed state update does not stop the comment for the same issue. *)
Example update_fails_comment_attempted :
  run (Demo.processLinkedIssues Demo.client Demo.cfg (Demo.release "main" [] [])
         Demo.team ["ENG-500"; "ENG-123"]) 0
  = ((1, 2, ["Failed to update ENG-500: issue update failed"], Demo.cfg),
     [ EvRenderTemplate "Released in {{.Version}}" "Released in 1.2.3" None;
       EvGetIssueByIdentifier "ENG-500" (Ok (Demo.issue "ENG-500"));
       EvUpdateIssueState "id-ENG-500" "s3" (Some "issue update failed");
       EvAddComment "id-ENG-500" "Released in 1.2.3" None;
       EvGetIssueByIdentifier "ENG-123" (Ok (Demo.issue "ENG-123"));
       EvUpdateIssueState "id-ENG-123" "s3" None;
       EvAddComment "id-ENG-123" "Released in 1.2.3" None ]).
Proof. vm_compute. reflexivity. Qed.

(** TestExecutePostPublishDryRun, through [Execute] and [parseConfig]. *)
Example execute_post_publish_dry_run :
  run (Demo.Execute
         {| ExecuteRequest.Hook_ := HookPostPublish;
            ExecuteRequest.Config_ :=
              list_to_map
                [ ("api_key", AString "lin_api_test");
                  ("team_key", AString "ENG");
                  ("create_release_issue", ABool true);
                  ("update_linked_issues", ABool true);
                  ("add_release_comment", ABool true);
                  ("released_state", AString "Done") ];
            ExecuteRequest.Context := Demo.release "main" [] [];
            ExecuteRequest.DryRun := true |}) 0
  = ({| ExecuteResponse.Success := true;
        ExecuteResponse.Message :=
          "Would create release issue: Release 1.2.3; "
          +:+ "Would update linked issues to state: Done; "
          +:+ "Would add comment to linked issues: Released in 1.2.3";
        ExecuteResponse.Error := EmptyString;
        ExecuteResponse.Outputs := ∅ |},
     [ EvRenderTemplate "Release {{.Version}}" "Release 1.2.3" None;
       EvRenderTemplate "Released in {{.Version}}" "Released in 1.2.3" None ]).
Proof. vm_compute. reflexivity. Qed.

Example execute_post_plan :
  run (Demo.Execute
         {| ExecuteRequest.Hook_ := HookPostPlan;
            ExecuteRequest.Config_ := {[ "team_key" := AString "ENG" ]};
            ExecuteRequest.Context :=
              Demo.release "main" ["feat: add X ENG-123 (OPS-9)"] ["fix: Y ENG-456, ENG-123"];
            ExecuteRequest.DryRun := false |}) 0
  = ({| ExecuteResponse.Success := true;
        ExecuteResponse.Message := "Found 2 linked Linear issues: ENG-123, ENG-456";
        ExecuteResponse.Error := EmptyString;
        ExecuteResponse.Outputs := {[ "linked_issues" := ["ENG-123"; "ENG-456"] ]} |},
     []).
Proof. vm_compute. reflexivity. Qed.

Example execute_unknown_hook :
  run (Demo.Execute
         {| ExecuteRequest.Hook_ := HookOther "PreVersion";
            ExecuteRequest.Config_ := ∅;
            ExecuteRequest.Context := Demo.release "main" [] [];
            ExecuteRequest.DryRun := false |}) 0
  = ({| ExecuteResponse.Success := true;
        ExecuteResponse.Message := "Hook PreVersion not implemented";
        ExecuteResponse.Error := EmptyString;
        ExecuteResponse.Outputs := ∅ |},
     []).
Proof. vm_compute. reflexivity. Qed.

(** * Further properties *)

(** ** Composition of runs *)

Lemma framed_ret {W A} (a : A) : framed (ret (W := W) a).
Proof. intros w t. cbn. rewrite app_nil_r. reflexivity. Qed.

Lemma framed_perform {W A} (op : W -> A * W) (ev : A -> Event) :
  framed (perform op ev).
Proof. intros w t. unfold perform. cbn. destruct (op w). reflexivity. Qed.

Lemma framed_bind {W A B} (m : M W A) (k : A -> M W B) :
  framed m -> (forall a, framed (k a)) -> framed (bind m k).
Proof.
  intros Hm Hk w t. unfold bind. rewrite (Hm w t).
  destruct (m {| world := w; trace := [] |}) as [a [w1 t1]]. cbn [world trace].
  rewrite (Hk a w1 (t ++ t1)), (Hk a w1 t1).
  destruct (k a {| world := w1; trace := [] |}) as [b [w2 t2]]. cbn [world trace].
  rewrite app_assoc. reflexivity.
Qed.

(** A run of [bind m k] is a run of [m] followed by a run of [k]. *)
Lemma run_bind {W A B} (m : M W A) (k : A -> M W B) w :
  (forall a, framed (k a)) ->
  bind m k {| world := w; trace := [] |}
  = (let (a, st1) := m {| world := w; trace := [] |} in
     let (b, st2) := k a {| world := world st1; trace := [] |} in
     (b, {| world := world st2; trace := trace st1 ++ trace st2 |})).
Proof.
  intros Hk. unfold bind.
  destruct (m {| world := w; trace := [] |}) as [a [w1 t1]]. cbn [world trace].
  apply Hk.
Qed.

Ltac framed_step :=
  match goal with
  | |- framed (bind _ _) => apply framed_bind; [|intros ?]
  | |- framed (perform _ _) => apply framed_perform
  | |- framed (ret _) => apply framed_ret
  | |- framed (renderTemplate _ _ _ _ _ _) => apply framed_perform
  | |- framed (match ?x with _ => _ end) => destruct x
  end.

Lemma Join_nonempty (lines : list string) sep :
  lines <> [] -> Forall (fun l => l <> EmptyString) lines ->
  Join lines sep <> EmptyString.
Proof.
  intros Hne Hall. destruct lines as [|e rest]; [contradiction|].
  inversion Hall as [|? ? He _]; subst. rewrite Join_cons.
  destruct e as [|c e]; [contradiction|]. discriminate.
Qed.

Lemma fetched_ids_none tr :
  Forall (fun e => is_fetch e = false) tr -> fetched_ids tr = [].
Proof.
  induction 1 as [|e tr He _ IH]; [reflexivity|].
  destruct e; cbn [fetched_ids]; try exact IH; discriminate.
Qed.

(** The protocol of the reconciliation has no place for a team lookup or a
    create-issue call. *)
Lemma protocol_reconciliation_only updOn stateID comOn comment tr after :
  protocol (step_ok updOn stateID comOn comment) tr after ->
  Forall (fun e => is_get_team e = false /\ is_create e = false) tr.
Proof.
  induction tr as [|e tr IH]; [constructor|].
  cbn [protocol]. intros [He Ht]. constructor; [|apply IH, Ht].
  destruct e; cbn [step_ok] in He; try contradiction; split; reflexivity.
Qed.

Section WholeRun.

Context {W : Type}.
Variable NewLinearClient : string -> LinearClient W.
Variable time_Now : W -> string * W.
Variable Template : Type.
Variable template_Parse : string -> result Template.
Variable template_Execute : Template -> templateData.t -> result string.
Variable equalFoldUnicode : string -> string -> bool.

Local Abbreviation render_body :=
  (renderTemplate_body time_Now Template template_Parse template_Execute).
Local Abbreviation create_release :=
  (createReleaseIssue time_Now Template template_Parse template_Execute).
Local Abbreviation process_linked :=
  (processLinkedIssues time_Now Template template_Parse template_Execute
     equalFoldUnicode).
Local Abbreviation create_block :=
  (create_step time_Now Template template_Parse template_Execute).
Local Abbreviation reconcile_block :=
  (reconcile_step time_Now Template template_Parse template_Execute
     equalFoldUnicode).
Local Abbreviation post_publish :=
  (handlePostPublish NewLinearClient time_Now Template template_Parse
     template_Execute equalFoldUnicode).
Local Abbreviation post_plan := (@handlePostPlan W equalFoldUnicode).

Lemma framed_createReleaseIssue client cfg ctx team :
  framed (create_release client cfg ctx team).
Proof.
  unfold createReleaseIssue.
  framed_step; [framed_step|]. destruct a as [title [err|]]; [framed_step|].
  framed_step; [framed_step|]. destruct a as [description [err|]]; framed_step.
Qed.

Lemma framed_process_issue (client : LinearClient W) cfg stateID comment acc issueID :
  framed (process_issue client cfg stateID comment acc issueID).
Proof.
  unfold process_issue. destruct acc as [[updated commented] errs].
  framed_step; [framed_step|]. destruct a as [issue|err]; [|framed_step].
  framed_step.
  - destruct (_ && _); [|framed_step].
    framed_step; [framed_step|]. destruct a; framed_step.
  - destruct a as [u e]. destruct (_ && _); [|framed_step].
    framed_step; [framed_step|]. destruct a; framed_step.
Qed.

Lemma framed_process_issues (client : LinearClient W) cfg stateID comment issueIDs :
  forall acc, framed (process_issues client cfg stateID comment issueIDs acc).
Proof.
  induction issueIDs as [|issueID issueIDs IH]; intros acc; cbn [process_issues].
  - apply framed_ret.
  - apply framed_bind; [apply framed_process_issue|]. intros acc'. apply IH.
Qed.

Lemma framed_processLinkedIssues client cfg ctx team issueIDs :
  framed (process_linked client cfg ctx team issueIDs).
Proof.
  unfold processLinkedIssues.
  destruct (released_state_id equalFoldUnicode cfg team) as [stateID errs].
  apply framed_bind.
  - unfold render_comment. destruct (Config.AddReleaseComment cfg); [|framed_step].
    framed_step; [framed_step|]. destruct a as [c [err|]]; framed_step.
  - intros [[comment errs0] cfg']. apply framed_bind.
    + apply framed_process_issues.
    + intros out. apply framed_ret.
Qed.

Lemma framed_create_step client cfg ctx team :
  framed (create_block client cfg ctx team).
Proof.
  unfold create_step. destruct (Config.CreateReleaseIssue cfg); [|framed_step].
  apply framed_bind; [apply framed_createReleaseIssue|].
  intros [issue|err]; framed_step.
Qed.

Lemma framed_reconcile_step client cfg ctx team results :
  framed (reconcile_block client cfg ctx team results).
Proof.
  unfold reconcile_step. destruct (_ || _); [|framed_step].
  destruct (0 <? _); [|framed_step].
  apply framed_bind; [apply framed_processLinkedIssues|].
  intros [[[updated commented] errs] cfg']. framed_step.
Qed.

(** A real run, step by step: the team lookup, then the release issue, then
    the linked issues, each step starting in the world the one before left. *)
Lemma post_publish_run cfg ctx w :
  run (post_publish cfg ctx false) w
  = (let client := NewLinearClient (Config.APIKey cfg) in
     let (r, w1) := GetTeam client (Config.TeamID cfg) (Config.TeamKey cfg) w in
     let lookup := EvGetTeam (Config.TeamID cfg) (Config.TeamKey cfg) r in
     match r with
     | Err err => (failure ("Failed to get team: " +:+ err), [lookup])
     | Ok team =>
         let (created, st2) :=
           create_block client cfg ctx team {| world := w1; trace := [] |} in
         match created with
         | Err msg => (failure msg, lookup :: trace st2)
         | Ok results =>
             let (results', st3) :=
               reconcile_block client cfg ctx team results
                 {| world := world st2; trace := [] |} in
             (completed results', lookup :: trace st2 ++ trace st3)
         end
     end).
Proof.
  unfold run.
  change (post_publish cfg ctx false)
    with (bind (perform (GetTeam (NewLinearClient (Config.APIKey cfg))
                           (Config.TeamID cfg) (Config.TeamKey cfg))
                  (EvGetTeam (Config.TeamID cfg) (Config.TeamKey cfg)))
            (fun r =>
               match r with
               | Err err => ret (failure ("Failed to get team: " +:+ err))
               | Ok team =>
                   bind (create_block (NewLinearClient (Config.APIKey cfg)) cfg ctx team)
                     (fun created =>
                        match created with
                        | Err msg => ret (failure msg)
                        | Ok results =>
                            bind (reconcile_block (NewLinearClient (Config.APIKey cfg))
                                    cfg ctx team results)
                              (fun results' => ret (completed results'))
                        end)
               end)).
  rewrite run_bind.
  2:{ intros [team|err]; [|apply framed_ret].
      apply framed_bind; [apply framed_create_step|].
      intros [results|msg]; [|apply framed_ret].
      apply framed_bind; [apply framed_reconcile_step|]. intros ?. apply framed_ret. }
  unfold perform at 1. cbn [world trace].
  destruct (GetTeam _ _ _ w) as [[team|err] w1]; cbn [world trace app]; [|reflexivity].
  rewrite run_bind.
  2:{ intros [results|msg]; [|apply framed_ret].
      apply framed_bind; [apply framed_reconcile_step|]. intros ?. apply framed_ret. }
  destruct (create_block _ cfg ctx team _) as [[results|msg] [w2 t2]];
    cbn [world trace]; [|cbn; rewrite ?app_nil_r; reflexivity].
  rewrite run_bind by (intros ?; apply framed_ret).
  destruct (reconcile_block _ cfg ctx team results _) as [results' [w3 t3]].
  cbn [world trace ret]. rewrite app_nil_r. reflexivity.
Qed.

End WholeRun.

(** ** Whole runs of the post-publish hook *)

Lemma length_zero_nil {A} (l : list A) : Nat.eqb (length l) 0 = true -> l = [].
Proof. destruct l; [reflexivity|discriminate]. Qed.

Lemma ltb_length_nil {A} (l : list A) : (0 <? length l) = false -> l = [].
Proof. destruct l; [reflexivity|discriminate]. Qed.

Section PostPublishRuns.

Context {W : Type}.
Variable NewLinearClient : string -> LinearClient W.
Variable time_Now : W -> string * W.
Variable Template : Type.
Variable template_Parse : string -> result Template.
Variable template_Execute : Template -> templateData.t -> result string.
Variable equalFoldUnicode : string -> string -> bool.

Local Abbreviation render_body :=
  (renderTemplate_body time_Now Template template_Parse template_Execute).
Local Abbreviation render_block :=
  (render_comment time_Now Template template_Parse template_Execute).
Local Abbreviation process_linked :=
  (processLinkedIssues time_Now Template template_Parse template_Execute
     equalFoldUnicode).
Local Abbreviation create_block :=
  (create_step time_Now Template template_Parse template_Execute).
Local Abbreviation reconcile_block :=
  (reconcile_step time_Now Template template_Parse template_Execute
     equalFoldUnicode).
Local Abbreviation post_publish :=
  (handlePostPublish NewLinearClient time_Now Template template_Parse
     template_Execute equalFoldUnicode).
Local Abbreviation post_plan := (@handlePostPlan W equalFoldUnicode).
Local Abbreviation linked_issues cfg ctx :=
  (extractIssues equalFoldUnicode (commitMessages ctx) (Config.IssuePrefix cfg)).

(** The step that creates the release issue: renders and at most one
    create-issue call, none of either when the step is disabled. *)
Lemma create_step_events client cfg ctx team w :
  let (created, st) := create_block client cfg ctx team {| world := w; trace := [] |} in
  Forall (fun e => is_render e || is_create e = true) (trace st)
  /\ length (List.filter is_create (trace st))
     <= (if Config.CreateReleaseIssue cfg then 1 else 0)
  /\ match created with
     | Err msg => msg <> EmptyString
     | Ok results =>
         Forall (fun l => l <> EmptyString) results
         /\ (Config.CreateReleaseIssue cfg = false -> results = [] /\ trace st = [])
     end.
Proof.
  unfold create_step, createReleaseIssue, renderTemplate, bind, perform, ret.
  destruct (Config.CreateReleaseIssue cfg); cbn [world trace].
  2:{ split; [constructor|]. split; [cbn; lia|]. split; [constructor|auto]. }
  destruct (render_body (ReleaseIssueConfig.Title _) ctx w) as [[title [e|]] w1];
    cbn [world trace fst snd app].
  { split; [repeat constructor|]. split; [cbn; lia|discriminate]. }
  destruct (render_body (ReleaseIssueConfig.Description _) ctx w1)
    as [[description [e|]] w2]; cbn [world trace fst snd app].
  { split; [repeat constructor|]. split; [cbn; lia|discriminate]. }
  destruct (CreateIssue client _ w2) as [[issue|e] w3]; cbn [world trace fst snd app].
  - split; [repeat constructor|]. split; [cbn; lia|].
    split; [repeat constructor; discriminate|discriminate].
  - split; [repeat constructor|]. split; [cbn; lia|discriminate].
Qed.

(** The step that reconciles the linked issues: it only adds non-empty lines
    to the message, fetches the extracted identifiers in order when either
    toggle is on, and never looks up a team or creates an issue. *)
Lemma reconcile_step_events client cfg ctx team results w :
  let (results', st) :=
    reconcile_block client cfg ctx team results {| world := w; trace := [] |} in
  (exists lines, results' = results ++ lines
                 /\ Forall (fun l => l <> EmptyString) lines)
  /\ fetched_ids (trace st)
     = (if Config.UpdateLinkedIssues cfg || Config.AddReleaseComment cfg
        then linked_issues cfg ctx else [])
  /\ Forall (fun e => is_get_team e = false /\ is_create e = false) (trace st).
Proof.
  unfold reconcile_step.
  destruct (Config.UpdateLinkedIssues cfg || Config.AddReleaseComment cfg).
  2:{ cbn. split; [exists []; rewrite app_nil_r; auto|]. split; [reflexivity|constructor]. }
  destruct (0 <? length (linked_issues cfg ctx)) eqn:Hlen.
  2:{ apply ltb_length_nil in Hlen. rewrite Hlen. cbn.
      split; [exists []; rewrite app_nil_r; auto|]. split; [reflexivity|constructor]. }
  clear Hlen. unfold bind.
  destruct (released_state_id equalFoldUnicode cfg team) as [stateID errs] eqn:Hsid.
  destruct (run (render_block cfg ctx errs) w) as [[[comment errs0] cfg'] tr0] eqn:Hrc.
  destruct (processLinkedIssues_protocol time_Now Template template_Parse
              template_Execute equalFoldUnicode client cfg ctx team
              (linked_issues cfg ctx) w _ _ _ _ _ _ Hsid Hrc)
    as (tr & Hrun & Hids & _ & _ & _ & Hprot).
  unfold run in Hrun.
  destruct (process_linked client cfg ctx team (linked_issues cfg ctx)
              {| world := w; trace := [] |}) as [[[[u c] es] cfg2] [w2 t2]].
  cbn [trace] in Hrun. injection Hrun as -> -> -> -> ->.
  cbn [ret trace]. split; [|split].
  - exists ((if 0 <? ok_updates tr
             then ["Updated " +:+ itoa (ok_updates tr) +:+ " issue(s) to '"
                   +:+ Config.ReleasedState cfg' +:+ "'"] else [])
            ++ (if 0 <? ok_comments tr
                then ["Added release comment to " +:+ itoa (ok_comments tr)
                      +:+ " issue(s)"] else [])
            ++ map (fun e => "Warning: " +:+ e) (errs0 ++ warnings_of EmptyString tr)).
    split.
    + destruct (0 <? ok_updates tr), (0 <? ok_comments tr);
        cbn [app]; rewrite <- ?app_assoc; reflexivity.
    + repeat (apply Forall_app; split).
      * destruct (0 <? ok_updates tr); repeat constructor. discriminate.
      * destruct (0 <? ok_comments tr); repeat constructor. discriminate.
      * apply Forall_forall. intros x Hx.
        apply list_elem_of_In, in_map_iff in Hx as (y & <- & _). discriminate.
  - exact Hids.
  - eapply protocol_reconciliation_only, Hprot.
Qed.

(** X1. If the team lookup fails, a real run ends there: the response has
    success=false and the error "Failed to get team: " followed by the cause,
    and the lookup is the only call made: nothing is rendered, created,
    fetched, updated or commented. *)
Theorem team_lookup_failure_is_fatal cfg ctx w err w1 :
  GetTeam (NewLinearClient (Config.APIKey cfg))
    (Config.TeamID cfg) (Config.TeamKey cfg) w = (Err err, w1) ->
  run (post_publish cfg ctx false) w
  = (failure ("Failed to get team: " +:+ err),
     [EvGetTeam (Config.TeamID cfg) (Config.TeamKey cfg) (Err err)]).
Proof. intros H. rewrite post_publish_run. cbv zeta. rewrite H. reflexivity. Qed.

(** X2. Every response of the post-publish hook is either a success with an
    empty error string or a failure with an empty message and a non-empty
    error string; a real run that succeeds always has a non-empty message. *)
Theorem post_publish_response_shape cfg ctx dryRun w :
  let resp := fst (run (post_publish cfg ctx dryRun) w) in
  ((ExecuteResponse.Success resp = true
    /\ ExecuteResponse.Error resp = EmptyString)
   \/ (ExecuteResponse.Success resp = false
       /\ ExecuteResponse.Message resp = EmptyString
       /\ ExecuteResponse.Error resp <> EmptyString))
  /\ (dryRun = false -> ExecuteResponse.Success resp = true ->
      ExecuteResponse.Message resp <> EmptyString).
Proof.
  destruct dryRun.
  { rewrite dry_run_result. cbn. split; [left; auto|discriminate]. }
  rewrite post_publish_run. cbv zeta.
  destruct (GetTeam _ _ _ w) as [[team|err] w1].
  2:{ cbn. split; [right; repeat split; discriminate|discriminate]. }
  pose proof (create_step_events (NewLinearClient (Config.APIKey cfg)) cfg ctx team w1)
    as Hc.
  destruct (create_block _ cfg ctx team _) as [[results|msg] st2].
  2:{ cbn. destruct Hc as (_ & _ & Hmsg).
      split; [right; repeat split; exact Hmsg|discriminate]. }
  pose proof (reconcile_step_events (NewLinearClient (Config.APIKey cfg)) cfg ctx team
                results (world st2)) as Hr.
  destruct (reconcile_block _ cfg ctx team results _) as [results' st3].
  cbn [fst completed ExecuteResponse.Success ExecuteResponse.Error
       ExecuteResponse.Message].
  split; [left; auto|]. intros _ _.
  destruct Hc as (_ & _ & Hres & _). destruct Hr as ((lines & -> & Hlines) & _).
  apply Join_nonempty.
  - destruct (results ++ lines); discriminate.
  - destruct (Nat.eqb _ 0); [apply Forall_app; split|];
      repeat (apply Forall_app; split); try assumption;
      repeat constructor; discriminate.
Qed.

(** X3. A real run starts with the team lookup, for the configured team id
    and key, and makes no other; it makes at most one create-issue call, and
    none when create_release_issue is disabled. *)
Theorem post_publish_call_discipline cfg ctx w :
  let tr := snd (run (post_publish cfg ctx false) w) in
  exists r rest,
    tr = EvGetTeam (Config.TeamID cfg) (Config.TeamKey cfg) r :: rest
    /\ Forall (fun e => is_get_team e = false) rest
    /\ length (List.filter is_create rest)
       <= (if Config.CreateReleaseIssue cfg then 1 else 0).
Proof.
  rewrite post_publish_run. cbv zeta.
  destruct (GetTeam _ _ _ w) as [[team|err] w1].
  2:{ cbn. eexists _, []. split; [reflexivity|]. split; [constructor|cbn; lia]. }
  pose proof (create_step_events (NewLinearClient (Config.APIKey cfg)) cfg ctx team w1)
    as Hc.
  destruct (create_block _ cfg ctx team _) as [created st2].
  destruct Hc as (Hevents & Hcount & _).
  assert (Forall (fun e => is_get_team e = false) (trace st2)) as Hnt.
  { eapply Forall_impl; [exact Hevents|]. intros []; cbn; (reflexivity || discriminate). }
  destruct created as [results|msg].
  2:{ cbn. eexists _, _. split; [reflexivity|]. split; assumption. }
  pose proof (reconcile_step_events (NewLinearClient (Config.APIKey cfg)) cfg ctx team
                results (world st2)) as Hr.
  destruct (reconcile_block _ cfg ctx team results _) as [results' st3].
  destruct Hr as (_ & _ & Hrec). cbn [snd].
  eexists _, _. split; [reflexivity|]. split.
  - apply Forall_app. split; [exact Hnt|].
    eapply Forall_impl; [exact Hrec|]. intros e [He _]. exact He.
  - rewrite List.filter_app, length_app.
    assert (List.filter is_create (trace st3) = []) as ->.
    { clear - Hrec. induction Hrec as [|e l [_ He] _ IH]; [reflexivity|].
      cbn [List.filter]. rewrite He. exact IH. }
    cbn [length]. lia.
Qed.

(** X4. The identifiers that the plan-time hook reports are the ones a real
    post-publish run works on: a run that succeeds with either toggle on
    fetches exactly those identifiers, in that order, and any other run
    fetches none. *)
Theorem publish_fetches_planned_issues cfg ctx w dryRun' w' :
  let planned := linked_issues cfg ctx in
  let '(resp, tr) := run (post_publish cfg ctx false) w in
  ExecuteResponse.Outputs (fst (run (post_plan cfg ctx dryRun') w'))
    !! "linked_issues" = Some planned
  /\ fetched_ids tr
     = (if ExecuteResponse.Success resp
           && (Config.UpdateLinkedIssues cfg || Config.AddReleaseComment cfg)
        then planned else []).
Proof.
  cbv zeta.
  assert (ExecuteResponse.Outputs (fst (run (post_plan cfg ctx dryRun') w'))
            !! "linked_issues" = Some (linked_issues cfg ctx)) as Hplan.
  { unfold run, handlePostPlan, ret.
    destruct (Nat.eqb (length (linked_issues cfg ctx)) 0) eqn:Hlen; cbn.
    - apply length_zero_nil in Hlen. rewrite Hlen. apply lookup_singleton_eq.
    - apply lookup_singleton_eq. }
  rewrite post_publish_run. cbv zeta.
  destruct (GetTeam _ _ _ w) as [[team|err] w1]; [|split; [exact Hplan|reflexivity]].
  pose proof (create_step_events (NewLinearClient (Config.APIKey cfg)) cfg ctx team w1)
    as Hc.
  destruct (create_block _ cfg ctx team _) as [created st2].
  destruct Hc as (Hevents & _ & _).
  assert (fetched_ids (trace st2) = []) as Hnf.
  { apply fetched_ids_none. eapply Forall_impl; [exact Hevents|].
    intros []; cbn; (reflexivity || discriminate). }
  destruct created as [results|msg].
  2:{ split; [exact Hplan|]. cbn. exact Hnf. }
  pose proof (reconcile_step_events (NewLinearClient (Config.APIKey cfg)) cfg ctx team
                results (world st2)) as Hr.
  destruct (reconcile_block _ cfg ctx team results _) as [results' st3].
  destruct Hr as (_ & Hids & _). split; [exact Hplan|].
  cbn [fetched_ids completed ExecuteResponse.Success andb].
  rewrite fetched_ids_app, Hnf, Hids. reflexivity.
Qed.

(** X10. Nothing to do is not an error: when no release issue is to be
    created and either both toggles are off or the commits mention no issue,
    a real run makes the team lookup and nothing else, and answers success
    with the message "No actions taken". *)
Theorem nothing_to_do cfg ctx w team w1 :
  GetTeam (NewLinearClient (Config.APIKey cfg))
    (Config.TeamID cfg) (Config.TeamKey cfg) w = (Ok team, w1) ->
  Config.CreateReleaseIssue cfg = false ->
  (Config.UpdateLinkedIssues cfg || Config.AddReleaseComment cfg = false
   \/ linked_issues cfg ctx = []) ->
  run (post_publish cfg ctx false) w
  = ({| ExecuteResponse.Success := true;
        ExecuteResponse.Message := "No actions taken";
        ExecuteResponse.Error := EmptyString;
        ExecuteResponse.Outputs := ∅ |},
     [EvGetTeam (Config.TeamID cfg) (Config.TeamKey cfg) (Ok team)]).
Proof.
  intros Hteam Hcreate Hnone. rewrite post_publish_run. cbv zeta. rewrite Hteam.
  unfold create_step, reconcile_step. rewrite Hcreate. cbn [ret world trace].
  destruct Hnone as [->| ->]; [reflexivity|].
  destruct (_ || _); reflexivity.
Qed.

End PostPublishRuns.

(** ** More on the reconciliation of linked issues *)

Section ReconciliationMore.

Context {W : Type}.
Variable time_Now : W -> string * W.
Variable Template : Type.
Variable template_Parse : string -> result Template.
Variable template_Execute : Template -> templateData.t -> result string.
Variable equalFoldUnicode : string -> string -> bool.

Local Abbreviation render_body :=
  (renderTemplate_body time_Now Template template_Parse template_Execute).
Local Abbreviation render_block :=
  (render_comment time_Now Template template_Parse template_Execute).
Local Abbreviation process_linked :=
  (processLinkedIssues time_Now Template template_Parse template_Execute
     equalFoldUnicode).
Local Abbreviation fold_eq := (EqualFold equalFoldUnicode).

(** The lookup stops at the first state whose name folds to the configured
    one. *)
Lemma find_released_state_first before state after name d :
  existsb (fun s => fold_eq (State.Name s) name) before = false ->
  fold_eq (State.Name state) name = true ->
  find_released_state equalFoldUnicode (before ++ state :: after) name d
  = State.ID state.
Proof.
  induction before as [|s before IH]; cbn [app existsb find_released_state].
  - intros _ ->. reflexivity.
  - intros H Hs. apply orb_false_iff in H as [-> H]. apply IH; assumption.
Qed.

(** The run of processLinkedIssues in terms of its two setup blocks. *)
Lemma process_linked_run client cfg ctx team issueIDs w stateID errs :
  released_state_id equalFoldUnicode cfg team = (stateID, errs) ->
  exists comment errs0 cfg' tr0 tr,
    run (render_block cfg ctx errs) w = ((comment, errs0, cfg'), tr0)
    /\ run (process_linked client cfg ctx team issueIDs) w
       = ((ok_updates tr, ok_comments tr, errs0 ++ warnings_of EmptyString tr, cfg'),
          tr0 ++ tr)
    /\ fetched_ids (tr0 ++ tr) = issueIDs
    /\ ok_updates (tr0 ++ tr) = ok_updates tr
    /\ ok_comments (tr0 ++ tr) = ok_comments tr
    /\ Config.UpdateLinkedIssues cfg' = Config.UpdateLinkedIssues cfg
    /\ match head (tr0 ++ tr) with
       | Some e => is_render e = true \/ is_fetch e = true
       | None => True
       end
    /\ protocol
         (step_ok (updates_on cfg' stateID) stateID
            (comments_on cfg' comment) comment)
         (tr0 ++ tr) None.
Proof.
  intros Hsid.
  destruct (run (render_block cfg ctx errs) w) as [[[comment errs0] cfg'] tr0] eqn:Hrc.
  destruct (processLinkedIssues_run time_Now Template template_Parse
              template_Execute equalFoldUnicode client cfg ctx team issueIDs w
              _ _ _ _ _ _ Hsid Hrc) as (loop & Hrun & _ & Hhead & _).
  destruct (processLinkedIssues_protocol time_Now Template template_Parse
              template_Execute equalFoldUnicode client cfg ctx team issueIDs w
              _ _ _ _ _ _ Hsid Hrc)
    as (tr & Hrun' & Hids & Hu & Hc & _ & Hprot).
  assert (tr = loop) as ->.
  { rewrite Hrun in Hrun'. injection Hrun' as _ _ _ H.
    apply app_inv_head in H. congruence. }
  exists comment, errs0, cfg', tr0, loop.
  split; [reflexivity|]. split; [exact Hrun|]. split; [exact Hids|].
  split; [exact Hu|]. split; [exact Hc|].
  apply (render_block_cases time_Now Template template_Parse template_Execute) in Hrc
    as [(_ & _ & _ & -> & ->)|[(_ & _ & _ & -> & ->)|(e & _ & _ & _ & -> & ->)]];
    (split; [reflexivity|]); (split; [|exact Hprot]); cbn [app head]; auto.
  destruct loop as [|e0 loop]; [exact I|]. right. exact Hhead.
Qed.

(** X5. A comment template that does not render is a warning, not a failure:
    the warning is recorded once, [cfg.AddReleaseComment] is cleared and
    nothing else of the configuration changes, no comment is attempted, every
    issue is still fetched, and each fetched issue still gets its state
    update when a released state was resolved. *)
Theorem comment_render_failure_is_a_warning client cfg ctx team issueIDs w out err :
  Config.AddReleaseComment cfg = true ->
  fst (render_body (Config.CommentTemplate cfg) ctx w) = (out, Some err) ->
  let '((updated, commented, errs, cfg'), tr) :=
    run (process_linked client cfg ctx team issueIDs) w in
  let warning := "Failed to render comment template: " +:+ err in
  cfg' = Config.set_AddReleaseComment false cfg
  /\ (exists before after,
        errs = before ++ warning :: after
        /\ (warning ∉ before) /\ (warning ∉ after))
  /\ Forall (fun e => is_comment e = false) tr
  /\ commented = 0
  /\ fetched_ids tr = issueIDs
  /\ (forall stateID,
        Config.UpdateLinkedIssues cfg = true ->
        fst (released_state_id equalFoldUnicode cfg team) = stateID ->
        stateID <> EmptyString ->
        forall t1 id issue t2,
          tr = t1 ++ EvGetIssueByIdentifier id (Ok issue) :: t2 ->
          exists r t3, t2 = EvUpdateIssueState (Issue.ID issue) stateID r :: t3).
Proof.
  intros Hon Hrender.
  destruct (released_state_id equalFoldUnicode cfg team) as [stateID errs] eqn:Hsid.
  destruct (process_linked_run client cfg ctx team issueIDs w _ _ Hsid)
    as (comment & errs0 & cfg' & tr0 & tr & Hrc & -> & Hids & _ & Hc & Hupd & _ & Hprot).
  apply (render_block_cases time_Now Template template_Parse template_Execute) in Hrc
    as [(Hoff & _)|[(_ & Hr & _)|(e & _ & Hr & -> & -> & ->)]];
    [congruence|congruence|].
  assert (e = err) as -> by congruence.
  unfold comments_on in Hprot. cbn [Config.set_AddReleaseComment
                                     Config.AddReleaseComment andb] in Hprot.
  assert (Forall (fun e => is_comment e = false)
            ([EvRenderTemplate (Config.CommentTemplate cfg) comment (Some err)] ++ tr))
    as Hnocom by (eapply protocol_no_comment; [exact Hprot|reflexivity]).
  split; [reflexivity|]. split.
  { exists errs, (warnings_of EmptyString tr). split; [rewrite <- app_assoc; reflexivity|].
    split.
    - unfold released_state_id in Hsid.
      destruct (Config.UpdateLinkedIssues cfg && _) in Hsid.
      + destruct (String.eqb _ EmptyString) in Hsid; injection Hsid as <- <-.
        * intros H. apply list_elem_of_singleton in H. discriminate.
        * intros H. inversion H.
      + injection Hsid as <- <-. intros H. inversion H.
    - intros H. apply warnings_of_shape in H
        as [(i & x & H)|[(i & x & H)|(i & x & H & _)]]; discriminate. }
  split; [exact Hnocom|].
  split; [rewrite <- Hc; apply ok_comments_none, Hnocom|].
  split; [exact Hids|].
  intros sid Hu Hs Hne t1 id issue t2 Htr. cbn [fst] in Hs. subst sid.
  pose proof (protocol_split _ _ _ _ _ _ Hprot Htr) as H.
  cbn [step_ok] in H. unfold updates_on in H.
  cbn [Config.set_AddReleaseComment Config.UpdateLinkedIssues] in H.
  rewrite Hu in H.
  destruct (String.eqb_spec stateID EmptyString) as [?|_]; [contradiction|].
  cbn in H. destruct H as [r H]. destruct t2 as [|e0 t3]; [discriminate|].
  injection H as ->. eauto.
Qed.

(** X6. When the released state is found, every issue that is fetched gets a
    state update with the identifier of the first state of the team whose
    name folds to the configured name; no other state identifier is ever
    sent, and no warning about the state is recorded. *)
Theorem released_state_found_updates_every_issue client cfg ctx team issueIDs w
    before state after :
  Config.UpdateLinkedIssues cfg = true ->
  Config.ReleasedState cfg <> EmptyString ->
  Team.States team = before ++ state :: after ->
  existsb (fun s => fold_eq (State.Name s) (Config.ReleasedState cfg)) before = false ->
  fold_eq (State.Name state) (Config.ReleasedState cfg) = true ->
  State.ID state <> EmptyString ->
  let '((updated, commented, errs, _), tr) :=
    run (process_linked client cfg ctx team issueIDs) w in
  (forall t1 id issue t2,
     tr = t1 ++ EvGetIssueByIdentifier id (Ok issue) :: t2 ->
     exists r t3, t2 = EvUpdateIssueState (Issue.ID issue) (State.ID state) r :: t3)
  /\ Forall (fun e => match e with
                      | EvUpdateIssueState _ s _ => s = State.ID state
                      | _ => True
                      end) tr
  /\ (forall x, x ∈ errs -> String.prefix "State '" x = false).
Proof.
  intros Hupd Hname Hstates Hbefore Hstate Hid.
  assert (released_state_id equalFoldUnicode cfg team = (State.ID state, [])) as Hsid.
  { unfold released_state_id. rewrite Hupd, Hstates.
    destruct (String.eqb_spec (Config.ReleasedState cfg) EmptyString)
      as [?|_]; [contradiction|].
    cbn [andb negb]. rewrite (find_released_state_first _ _ _ _ _ Hbefore Hstate).
    destruct (String.eqb_spec (State.ID state) EmptyString) as [?|_];
      [contradiction|reflexivity]. }
  destruct (process_linked_run client cfg ctx team issueIDs w _ _ Hsid)
    as (comment & errs0 & cfg' & tr0 & tr & Hrc & -> & _ & _ & _ & Hu' & Hhead & Hprot).
  unfold updates_on in Hprot. rewrite Hu', Hupd in Hprot.
  destruct (String.eqb_spec (State.ID state) EmptyString) as [?|_];
    [contradiction|]. cbn [andb negb] in Hprot.
  split; [|split].
  - intros t1 id issue t2 Htr.
    pose proof (protocol_split _ _ _ _ _ _ Hprot Htr) as H. cbn [step_ok] in H.
    destruct H as [r H]. destruct t2 as [|e0 t3]; [discriminate|].
    injection H as ->. eauto.
  - eapply Forall_impl.
    + eapply protocol_carries; [exact Hprot|].
      destruct (tr0 ++ tr) as [|[] ?]; cbn in Hhead |- *; try exact I;
        destruct Hhead; discriminate.
    + intros []; cbn; auto.
  - intros x Hx. apply elem_of_app in Hx as [Hx|Hx].
    + apply (render_block_cases time_Now Template template_Parse template_Execute)
        in Hrc as [(_ & _ & -> & _)|[(_ & _ & -> & _)|(e & _ & _ & -> & _)]];
        try (inversion Hx; fail).
      apply list_elem_of_singleton in Hx as ->. reflexivity.
    + apply warnings_of_shape in Hx
        as [(i & e & ->)|[(i & e & ->)|(i & e & -> & _)]]; reflexivity.
Qed.

(** X7. A state whose name matches but whose identifier is empty counts as
    not found: the "not found" warning is recorded first, no state update is
    attempted and the updated count is 0. *)
Theorem matching_state_without_id_is_not_found client cfg ctx team issueIDs w
    before state after :
  Config.UpdateLinkedIssues cfg = true ->
  Config.ReleasedState cfg <> EmptyString ->
  Team.States team = before ++ state :: after ->
  existsb (fun s => fold_eq (State.Name s) (Config.ReleasedState cfg)) before = false ->
  fold_eq (State.Name state) (Config.ReleasedState cfg) = true ->
  State.ID state = EmptyString ->
  let '((updated, commented, errs, _), tr) :=
    run (process_linked client cfg ctx team issueIDs) w in
  (exists rest,
     errs = ("State '" +:+ Config.ReleasedState cfg
             +:+ "' not found in team workflow") :: rest)
  /\ Forall (fun e => is_update e = false) tr
  /\ updated = 0.
Proof.
  intros Hupd Hname Hstates Hbefore Hstate Hid.
  assert (released_state_id equalFoldUnicode cfg team
          = (EmptyString,
             ["State '" +:+ Config.ReleasedState cfg
              +:+ "' not found in team workflow"])) as Hsid.
  { unfold released_state_id. rewrite Hupd, Hstates.
    destruct (String.eqb_spec (Config.ReleasedState cfg) EmptyString)
      as [?|_]; [contradiction|].
    cbn [andb negb]. rewrite (find_released_state_first _ _ _ _ _ Hbefore Hstate).
    rewrite Hid. reflexivity. }
  destruct (process_linked_run client cfg ctx team issueIDs w _ _ Hsid)
    as (comment & errs0 & cfg' & tr0 & tr & Hrc & -> & _ & Hu & _ & _ & Hhead & Hprot).
  unfold updates_on in Hprot. rewrite andb_false_r in Hprot.
  assert (Forall (fun e => is_update e = false) (tr0 ++ tr)) as Hno.
  { eapply protocol_no_update; [exact Hprot|].
    destruct (tr0 ++ tr) as [|[] ?]; cbn in Hhead |- *; try exact I;
      try reflexivity; destruct Hhead; discriminate. }
  split; [|split; [exact Hno|rewrite <- Hu; apply ok_updates_none, Hno]].
  apply (render_block_cases time_Now Template template_Parse template_Execute)
    in Hrc as [(_ & _ & -> & _)|[(_ & _ & -> & _)|(e & _ & _ & -> & _)]];
    eexists; reflexivity.
Qed.

End ReconciliationMore.

(** ** Counters and warnings are bounded by the number of linked issues *)

Lemma ok_fetches_app a b : ok_fetches (a ++ b) = ok_fetches a + ok_fetches b.
Proof.
  induction a as [|e a IH]; [reflexivity|].
  destruct e as [| | |? [|]| |]; cbn [app ok_fetches]; rewrite IH; reflexivity.
Qed.

Section LoopBounds.

Context {W : Type}.
Variable client : LinearClient W.
Variable cfg : Config.t.
Variables releasedStateID comment : string.

Ltac call_step :=
  match goal with
  | |- context [GetIssueByIdentifier ?c ?i ?w] =>
      destruct (GetIssueByIdentifier c i w) as [[?|?] ?] eqn:?
  | |- context [UpdateIssueState ?c ?i ?s ?w] =>
      destruct (UpdateIssueState c i s w) as [[?|] ?] eqn:?
  | |- context [AddComment ?c ?i ?b ?w] =>
      destruct (AddComment c i b w) as [[?|] ?] eqn:?
  end.

(** One iteration makes one to three calls, and each of its two optional
    calls adds one to a counter or one warning. *)
Lemma process_issue_bounds updated commented errs issueID st :
  let r := process_issue client cfg releasedStateID comment
             (updated, commented, errs) issueID st in
  exists seg u c ws,
    trace (snd r) = trace st ++ seg
    /\ fst r = (u + updated, c + commented, errs ++ ws)
    /\ length seg <= 3
    /\ ok_fetches seg <= 1
    /\ u <= ok_fetches seg /\ c <= ok_fetches seg
    /\ u + c + length ws <= 2.
Proof.
  unfold process_issue, bind, perform, ret.
  destruct (Config.UpdateLinkedIssues cfg && negb (String.eqb releasedStateID EmptyString));
    destruct (Config.AddReleaseComment cfg && negb (String.eqb comment EmptyString));
    repeat (call_step; cbn [fst snd world trace]);
    cbn [fst snd world trace];
    rewrite <- ?app_assoc; cbn [app];
    match goal with
    | |- exists seg u c ws,
          _ ++ ?s = _ ++ seg /\ (?u1, ?c1, ?e1) = _ /\ _ =>
        let u := lazymatch u1 with S _ => constr:(1) | _ => constr:(0) end in
        let c := lazymatch c1 with S _ => constr:(1) | _ => constr:(0) end in
        let ws := lazymatch e1 with
                  | _ ++ ?ws => ws
                  | _ => constr:(@nil string)
                  end in
        exists s, u, c, ws
    end;
    cbn [app length ok_fetches Nat.add];
    rewrite <- ?app_assoc, ?app_nil_r; cbn [app];
    repeat split; lia.
Qed.

Lemma process_issues_bounds issueIDs : forall updated commented errs st,
  let r := process_issues client cfg releasedStateID comment issueIDs
             (updated, commented, errs) st in
  exists tr u c ws,
    trace (snd r) = trace st ++ tr
    /\ fst r = (u + updated, c + commented, errs ++ ws)
    /\ length tr <= 3 * length issueIDs
    /\ ok_fetches tr <= length issueIDs
    /\ u <= ok_fetches tr /\ c <= ok_fetches tr
    /\ u + c + length ws <= 2 * length issueIDs.
Proof.
  induction issueIDs as [|issueID issueIDs IH]; intros updated commented errs st r.
  - exists [], 0, 0, []. subst r. cbn. rewrite !app_nil_r. repeat split; lia.
  - subst r. cbn [process_issues]. unfold bind.
    destruct (process_issue_bounds updated commented errs issueID st)
      as (seg & u1 & c1 & ws1 & Htr & Hres & Hlen & Hf & Hu & Hc & Hsum).
    destruct (process_issue client cfg releasedStateID comment
                (updated, commented, errs) issueID st) as [[[u' c'] errs'] st1].
    cbn [fst snd] in Htr, Hres. injection Hres as -> -> ->.
    cbv beta iota zeta.
    destruct (IH (u1 + updated) (c1 + commented) (errs ++ ws1) st1)
      as (tr & u2 & c2 & ws2 & Htr' & Hres' & Hlen' & Hf' & Hu' & Hc' & Hsum').
    exists (seg ++ tr), (u2 + u1), (c2 + c1), (ws1 ++ ws2).
    rewrite Htr', Htr, Hres', <- !app_assoc, ok_fetches_app, !length_app.
    cbn [length]. repeat split; try lia.
    do 2 (f_equal; try reflexivity); lia.
Qed.

End LoopBounds.

Section ReconciliationBounds.

Context {W : Type}.
Variable time_Now : W -> string * W.
Variable Template : Type.
Variable template_Parse : string -> result Template.
Variable template_Execute : Template -> templateData.t -> result string.
Variable equalFoldUnicode : string -> string -> bool.

Local Abbreviation render_block :=
  (render_comment time_Now Template template_Parse template_Execute).
Local Abbreviation process_linked :=
  (processLinkedIssues time_Now Template template_Parse template_Execute
     equalFoldUnicode).

(** X8. What a reconciliation reports is bounded by its input: no more
    issues are counted as updated, or as commented, than were fetched
    successfully, and no more are fetched successfully than were given; the
    run makes at most three calls per issue after at most one render; and the
    successes and the warnings together are at most two per issue, plus the
    two warnings that can precede the loop. *)
Theorem reconciliation_is_bounded client cfg ctx team issueIDs w :
  let '((updated, commented, errs, _), tr) :=
    run (process_linked client cfg ctx team issueIDs) w in
  updated <= ok_fetches tr
  /\ commented <= ok_fetches tr
  /\ ok_fetches tr <= length issueIDs
  /\ length tr <= 1 + 3 * length issueIDs
  /\ updated + commented + length errs <= 2 + 2 * length issueIDs.
Proof.
  unfold run, processLinkedIssues.
  assert (exists stateID errs,
            released_state_id equalFoldUnicode cfg team = (stateID, errs)
            /\ length errs <= 1) as (stateID & errs & -> & Herrs).
  { unfold released_state_id.
    destruct (Config.UpdateLinkedIssues cfg && _);
      [destruct (String.eqb _ EmptyString)|]; eexists _, _;
      (split; [reflexivity|cbn; lia]). }
  unfold bind at 1.
  assert (exists comment errs0 cfg' tr0 w0,
            render_block cfg ctx errs {| world := w; trace := [] |}
            = ((comment, errs0, cfg'), {| world := w0; trace := tr0 |})
            /\ length errs0 <= 1 + length errs
            /\ length tr0 <= 1 /\ ok_fetches tr0 = 0)
    as (comment & errs0 & cfg' & tr0 & w0 & -> & Herrs0 & Htr0 & Hf0).
  { unfold render_comment, renderTemplate, bind, perform, ret.
    destruct (Config.AddReleaseComment cfg); cbn [world trace].
    - destruct (renderTemplate_body _ _ _ _ _ _ _) as [[comment [err|]] w0];
        eexists _, _, _, _, _; (split; [reflexivity|]);
        rewrite ?length_app; cbn; repeat split; lia.
    - eexists _, _, _, _, _. split; [reflexivity|]. cbn. repeat split; lia. }
  unfold bind, ret.
  destruct (process_issues_bounds client cfg' stateID comment issueIDs 0 0 errs0
              {| world := w0; trace := tr0 |})
    as (tr & u & c & ws & Htr & Hres & Hlen & Hf & Hu & Hc & Hsum).
  destruct (process_issues client cfg' stateID comment issueIDs (0, 0, errs0) _)
    as [[[u' c'] errs'] st2].
  cbn [fst snd trace] in Htr, Hres. injection Hres as -> -> ->.
  rewrite Htr, ok_fetches_app, !length_app, Hf0, !Nat.add_0_r.
  repeat split; lia.
Qed.

End ReconciliationBounds.

(** ** Execute and parseConfig *)

Lemma append_labels_strings labels l :
  append_labels labels l = labels ++ omap as_string l.
Proof.
  revert labels. induction l as [|a l IH]; intros labels; cbn [append_labels omap].
  - rewrite app_nil_r. reflexivity.
  - destruct a; cbn [as_string]; rewrite IH, <- ?app_assoc; reflexivity.
Qed.

Section ExecuteFrame.

Context {W : Type}.
Variable NewLinearClient : string -> LinearClient W.
Variable time_Now : W -> string * W.
Variable Template : Type.
Variable template_Parse : string -> result Template.
Variable template_Execute : Template -> templateData.t -> result string.
Variable equalFoldUnicode : string -> string -> bool.
Variable NewConfigParser : gmap string any -> ConfigParser.

Local Abbreviation execute_hook :=
  (Execute NewLinearClient time_Now Template template_Parse template_Execute
     equalFoldUnicode NewConfigParser).

(** X9. Only a PostPublish request that is not a dry run reaches Linear: on
    any other request Execute succeeds without an error and calls no
    operation of the client, and on any hook other than PostPublish it does
    not even render a template. *)
Theorem only_a_real_publish_reaches_linear req w :
  ExecuteRequest.Hook_ req <> HookPostPublish \/ ExecuteRequest.DryRun req = true ->
  let '(resp, tr) := run (execute_hook req) w in
  ExecuteResponse.Success resp = true
  /\ ExecuteResponse.Error resp = EmptyString
  /\ Forall (fun e => is_gateway e = false) tr
  /\ (ExecuteRequest.Hook_ req <> HookPostPublish -> tr = []).
Proof.
  intros Hreq. unfold Execute.
  destruct (ExecuteRequest.Hook_ req) eqn:Hhook.
  - unfold handlePostPlan. destruct (Nat.eqb _ 0); cbn; auto.
  - destruct Hreq as [Hreq|Hdry]; [contradiction|]. rewrite Hdry.
    rewrite (dry_run_result NewLinearClient time_Now Template template_Parse
               template_Execute equalFoldUnicode).
    cbn [ExecuteResponse.Success ExecuteResponse.Error].
    split; [reflexivity|]. split; [reflexivity|]. split; [|contradiction].
    destruct (Config.CreateReleaseIssue _), (Config.AddReleaseComment _);
      cbn [app]; repeat constructor.
  - cbn. auto.
  - cbn. auto.
Qed.

End ExecuteFrame.

Section ReleaseIssueBlock.

Variable NewConfigParser : gmap string any -> ConfigParser.

(** X12. The labels of the release issue.  Without a [release_issue] map in
    the configuration the one label is "release".  With one, the labels are
    the string elements of its [labels] list, in order, anything else in the
    list being dropped; there is no default: a block without a [labels] list
    gives no label at all. *)
Theorem release_issue_labels raw :
  ReleaseIssueConfig.Labels (Config.ReleaseIssue (parseConfig NewConfigParser raw))
  = match raw !! "release_issue" with
    | Some (AMap block) =>
        match (list_to_map block : gmap string any) !! "labels" with
        | Some (ASlice labels) => omap as_string labels
        | _ => []
        end
    | _ => ["release"]
    end.
Proof.
  unfold parseConfig. cbv zeta.
  set (fields := Config.mk _ _ _ _ _ _ _ _ _ _ _).
  match goal with
  | |- context [if ?c then _ else _] => destruct c
  end;
    cbn [Config.set_IssuePrefix Config.ReleaseIssue];
    (destruct (raw !! "release_issue") as [[| | | |block]|];
     cbn [Config.set_ReleaseIssue Config.ReleaseIssue ReleaseIssueConfig.Labels];
     try reflexivity;
     destruct (_ !! "labels") as [[| | |labels|]|];
     cbn [ReleaseIssueConfig.Labels]; try reflexivity;
     apply append_labels_strings).
Qed.

End ReleaseIssueBlock.

(** ** Validate *)

Lemma Build_AddError_errors field message vb :
  ValidateResponse.Errors (Build (AddError field message vb)) <> [].
Proof.
  unfold Build, AddError. cbn [ValidateResponse.Errors].
  destruct vb; discriminate.
Qed.

Section ValidationProps.

Context {W : Type}.
Variable NewConfigParser : gmap string any -> ConfigParser.
Variable GetViewer : Client.t -> W -> result Viewer.t * W.

Local Abbreviation validate := (Validate NewConfigParser GetViewer).
Local Abbreviation parsed := (parseConfig NewConfigParser).

(** X13. Validate reports no error exactly when the API key starts with
    [lin_api_], a team id or a team key is set, the priority of the release
    issue is between 0 and 4, and the viewer query with that key succeeds. *)
Theorem validate_accepts_iff config w :
  let cfg := parsed config in
  ValidateResponse.Errors (fst (validate config w)) = []
  <-> (HasPrefix (Config.APIKey cfg) "lin_api_" = true
       /\ (Config.TeamID cfg <> EmptyString \/ Config.TeamKey cfg <> EmptyString)
       /\ (0 <= ReleaseIssueConfig.Priority (Config.ReleaseIssue cfg) <= 4)%Z
       /\ exists viewer,
            fst (GetViewer (Client.NewLinearClient (Config.APIKey cfg)) w)
            = Ok viewer).
Proof.
  intros cfg. unfold Validate. fold cfg.
  destruct (String.eqb_spec (Config.APIKey cfg) EmptyString) as [Hkey|Hkey].
  { cbn [fst]. rewrite Hkey. split.
    - intros H. destruct (Build_AddError_errors _ _ _ H).
    - intros [H _]. discriminate. }
  cbn [negb andb].
  destruct (HasPrefix (Config.APIKey cfg) "lin_api_") eqn:Hpre; cbn [negb].
  2:{ cbn [fst]. split.
      - intros H. destruct (Build_AddError_errors _ _ _ H).
      - intros [H _]. discriminate. }
  destruct (GetViewer _ w) as [[viewer|err] w'] eqn:Hview; cbn [fst].
  2:{ split.
      - intros H. destruct (Build_AddError_errors _ _ _ H).
      - intros (_ & _ & _ & v & H). discriminate. }
  destruct (String.eqb_spec (Config.TeamID cfg) EmptyString) as [Hid|Hid];
    destruct (String.eqb_spec (Config.TeamKey cfg) EmptyString) as [Hk|Hk];
    destruct (Z.ltb_spec (ReleaseIssueConfig.Priority (Config.ReleaseIssue cfg)) 0);
    destruct (Z.ltb_spec 4 (ReleaseIssueConfig.Priority (Config.ReleaseIssue cfg)));
    cbn [andb orb];
    (split;
     [intros Herrors;
      try (destruct (Build_AddError_errors _ _ _ Herrors));
      repeat split; eauto; lia
     |try reflexivity; intros (_ & [?|?] & ? & _); try contradiction; lia]).
Qed.

(** The connectivity probe is made exactly when the API key starts with
    [lin_api_], whatever else is wrong with the configuration, and it is the
    only thing Validate does to the world. *)
Lemma Validate_world config w :
  let cfg := parsed config in
  snd (validate config w)
  = if HasPrefix (Config.APIKey cfg) "lin_api_"
    then snd (GetViewer (Client.NewLinearClient (Config.APIKey cfg)) w)
    else w.
Proof.
  intros cfg. unfold Validate. fold cfg.
  destruct (String.eqb_spec (Config.APIKey cfg) EmptyString) as [Hkey|Hkey].
  { rewrite Hkey. reflexivity. }
  cbn [negb andb].
  destruct (HasPrefix (Config.APIKey cfg) "lin_api_"); [|reflexivity].
  destruct (GetViewer _ w) as [[viewer|err] w']; reflexivity.
Qed.

(** X15. Validate reports at most one error for each field, in the order
    team_id, release_issue.priority, api_key; a configuration without an API
    key gets the one error that the key is required, whatever else is wrong
    with it. *)
Theorem validate_errors_ordered config w :
  let resp := fst (validate config w) in
  map ValidationError.Field (ValidateResponse.Errors resp)
    `sublist_of` ["team_id"; "release_issue.priority"; "api_key"]
  /\ (Config.APIKey (parsed config) = EmptyString ->
      ValidateResponse.Errors resp
      = [ValidationError.mk "api_key" "Linear API key is required"]).
Proof.
  intros resp. subst resp. unfold Validate.
  set (cfg := parsed config).
  destruct (String.eqb_spec (Config.APIKey cfg) EmptyString) as [Hkey|Hkey].
  { cbn. split; [|reflexivity]. repeat constructor. }
  split; [|contradiction].
  cbn [negb andb].
  destruct (String.eqb (Config.TeamID cfg) EmptyString
            && String.eqb (Config.TeamKey cfg) EmptyString);
    destruct ((ReleaseIssueConfig.Priority (Config.ReleaseIssue cfg) <? 0)%Z
              || (4 <? ReleaseIssueConfig.Priority (Config.ReleaseIssue cfg))%Z);
    destruct (HasPrefix (Config.APIKey cfg) "lin_api_"); cbn [negb];
    try (destruct (GetViewer _ w) as [[viewer|err] w']);
    cbn; repeat constructor.
Qed.

End ValidationProps.

(** ** The client *)

Section ClientProps.

Context {W : Type}.
Variable json_Marshal : GraphQLRequest.t -> result string.
Variable request_error : string -> string -> option error.
Variable http_Do : HTTPClient.t -> Request.t -> W -> result Response.t * W.
Variable decode_response : string -> result GraphQLResponse.t.
Variable decode_viewer : string -> result Viewer.t.
Variable decode_team : string -> result TeamNode.t.
Variable decode_teams : string -> result (list TeamNode.t).
Variable decode_issue : string -> result Issue.t.
Variable decode_issue_create : string -> result (bool * Issue.t).
Variable decode_issue_update : string -> result bool.
Variable decode_comment_create : string -> result bool.

Local Abbreviation exec :=
  (Client.execute json_Marshal request_error http_Do decode_response).
Local Abbreviation get_viewer :=
  (Client.GetViewer json_Marshal request_error http_Do decode_response decode_viewer).
Local Abbreviation get_team :=
  (Client.GetTeam json_Marshal request_error http_Do decode_response
     decode_team decode_teams).
Local Abbreviation get_issue :=
  (Client.GetIssueByIdentifier json_Marshal request_error http_Do decode_response
     decode_issue).
Local Abbreviation create_issue :=
  (Client.CreateIssue json_Marshal request_error http_Do decode_response
     decode_issue_create).
Local Abbreviation update_issue_state :=
  (Client.UpdateIssueState json_Marshal request_error http_Do decode_response
     decode_issue_update).
Local Abbreviation add_comment :=
  (Client.AddComment json_Marshal request_error http_Do decode_response
     decode_comment_create).
Local Abbreviation ok_answer := (answered http_Do decode_response).

(** [execute] returns a response and no error only for a clean answer. *)
Lemma execute_responded c query variables w resp w' :
  exec c query variables w = (Responded resp None, w') ->
  ok_answer c w w' (GraphQLResponse.Data resp).
Proof.
  unfold Client.execute, Client.NewRequestWithContext, answered.
  destruct (json_Marshal _) as [jsonBody|?]; [|discriminate].
  destruct (request_error _ _); [discriminate|].
  match goal with
  | |- context [http_Do ?h ?r w] =>
      set (req := r); destruct (http_Do h req w) as [[httpResp|?] w1] eqn:Hdo
  end; [|discriminate].
  destruct (Response.Body httpResp) as [body|?] eqn:Hbody; [|discriminate].
  destruct (Nat.eqb_spec (Response.StatusCode httpResp) 200) as [Hstatus|?];
    [|discriminate]. cbn [negb].
  destruct (decode_response body) as [gqlResp|?] eqn:Hdecode; [|discriminate].
  destruct (GraphQLResponse.Errors gqlResp) eqn:Herrors; [|discriminate].
  intros H. injection H as <- <-.
  exists req, httpResp, body, gqlResp. repeat split; assumption.
Qed.

Ltac by_execute :=
  match goal with
  | |- context [exec ?c ?q ?v ?w] =>
      let H := fresh "Hexec" in
      destruct (exec c q v w) as [[resp [?|]|?] ?] eqn:H;
      [discriminate| |discriminate];
      apply execute_responded in H
  end.

(** X16. A method of the client succeeds only on a clean answer: the service
    answered a request to the client's endpoint with status 200 and a body
    that decodes to a response without errors, and the data of that response
    decodes to the value returned; a lookup returns no issue without an id,
    and a mutation succeeds only when the answer says [success: true]. *)
Theorem client_success_needs_a_clean_answer c w w' :
  (forall viewer,
     get_viewer c w = (Ok viewer, w') ->
     exists data, ok_answer c w w' data /\ decode_viewer data = Ok viewer)
  /\ (forall identifier issue,
        get_issue c identifier w = (Ok issue, w') ->
        Issue.ID issue <> EmptyString
        /\ exists data, ok_answer c w w' data /\ decode_issue data = Ok issue)
  /\ (forall input issue,
        create_issue c input w = (Ok issue, w') ->
        exists data,
          ok_answer c w w' data /\ decode_issue_create data = Ok (true, issue))
  /\ (forall issueID stateID,
        update_issue_state c issueID stateID w = (None, w') ->
        exists data, ok_answer c w w' data /\ decode_issue_update data = Ok true)
  /\ (forall issueID body,
        add_comment c issueID body w = (None, w') ->
        exists data, ok_answer c w w' data /\ decode_comment_create data = Ok true).
Proof.
  split; [|split; [|split; [|split]]].
  - intros viewer. unfold Client.GetViewer. by_execute.
    destruct (decode_viewer _) eqn:Hd; [|discriminate].
    intros H. injection H as <- <-. eauto.
  - intros identifier issue. unfold Client.GetIssueByIdentifier. by_execute.
    destruct (decode_issue _) as [i|] eqn:Hd; [|discriminate].
    destruct (String.eqb_spec (Issue.ID i) EmptyString); [discriminate|].
    intros H. injection H as <- <-. eauto.
  - intros input issue. unfold Client.CreateIssue. by_execute.
    destruct (decode_issue_create _) as [[[|] i]|] eqn:Hd; try discriminate.
    intros H. injection H as <- <-. eauto.
  - intros issueID stateID. unfold Client.UpdateIssueState. by_execute.
    destruct (decode_issue_update _) as [[|]|] eqn:Hd; try discriminate.
    intros H. injection H as <-. eauto.
  - intros issueID body. unfold Client.AddComment. by_execute.
    destruct (decode_comment_create _) as [[|]|] eqn:Hd; try discriminate.
    intros H. injection H as <-. eauto.
Qed.

Lemma find_team_by_key_ok nodes teamKey team :
  Client.find_team_by_key nodes teamKey = Ok team ->
  exists before node after,
    nodes = before ++ node :: after
    /\ Forall (fun n => TeamNode.Key n <> teamKey) before
    /\ TeamNode.Key node = teamKey
    /\ team = Client.team_of_node node.
Proof.
  induction nodes as [|n nodes IH]; cbn [Client.find_team_by_key]; [discriminate|].
  destruct (String.eqb_spec (TeamNode.Key n) teamKey) as [Hkey|Hkey].
  - intros H. injection H as <-. exists [], n, nodes. auto.
  - intros H. destruct (IH H) as (before & node & after & -> & Hb & Hn & ->).
    exists (n :: before), node, after. auto.
Qed.

(** X17. A team looked up by key (no team id being given) is the first team
    of the service's list whose key is exactly the one asked for; in
    particular the team returned has that key, and the lookup was made with a
    key that is not empty. *)
Theorem team_by_key_is_first_exact_match c teamKey w team w' :
  get_team c EmptyString teamKey w = (Ok team, w') ->
  Team.Key team = teamKey
  /\ teamKey <> EmptyString
  /\ exists data nodes before node after,
       ok_answer c w w' data
       /\ decode_teams data = Ok nodes
       /\ nodes = before ++ node :: after
       /\ Forall (fun n => TeamNode.Key n <> teamKey) before
       /\ team = Client.team_of_node node.
Proof.
  unfold Client.GetTeam. cbn [String.eqb negb].
  destruct (String.eqb_spec teamKey EmptyString) as [|Hkey]; [discriminate|].
  cbn [negb]. by_execute.
  destruct (decode_teams _) as [nodes|] eqn:Hd; [|discriminate].
  intros H. injection H as Hfind <-.
  apply find_team_by_key_ok in Hfind
    as (before & node & after & -> & Hb & Hn & ->).
  split; [exact Hn|]. split; [exact Hkey|].
  exists (GraphQLResponse.Data resp), (before ++ node :: after), before, node, after.
  auto.
Qed.

(** X18. When a team id is given the team key plays no part: the lookup is
    the same whatever the key, and the team returned is the one the service
    answers for the id, its key not being compared with the one
    configured. *)
Theorem team_id_takes_precedence c teamID teamKey w :
  teamID <> EmptyString ->
  get_team c teamID teamKey w = get_team c teamID EmptyString w
  /\ forall team w',
       get_team c teamID teamKey w = (Ok team, w') ->
       exists data node,
         ok_answer c w w' data
         /\ decode_team data = Ok node
         /\ team = Client.team_of_node node.
Proof.
  intros Hid. unfold Client.GetTeam.
  destruct (String.eqb_spec teamID EmptyString) as [|_]; [contradiction|].
  cbn [negb]. split; [reflexivity|].
  intros team w'. by_execute.
  destruct (decode_team _) as [node|] eqn:Hd; [|discriminate].
  intros H. injection H as <- <-. eauto.
Qed.

End ClientProps.

Section ClientWire.

Context {W : Type}.
Variable json_Marshal : GraphQLRequest.t -> result string.
Variable request_error : string -> string -> option error.
Variable http_Do : HTTPClient.t -> Request.t -> W -> result Response.t * W.
Variable decode_response : string -> result GraphQLResponse.t.
Variable decode_viewer : string -> result Viewer.t.
Variable decode_team : string -> result TeamNode.t.
Variable decode_teams : string -> result (list TeamNode.t).
Variable decode_issue : string -> result Issue.t.
Variable decode_issue_create : string -> result (bool * Issue.t).
Variable decode_issue_update : string -> result bool.
Variable decode_comment_create : string -> result bool.

Local Abbreviation exec :=
  (Client.execute json_Marshal request_error (logged_Do http_Do) decode_response).
Local Abbreviation get_viewer :=
  (Client.GetViewer json_Marshal request_error (logged_Do http_Do)
     decode_response decode_viewer).
Local Abbreviation get_team :=
  (Client.GetTeam json_Marshal request_error (logged_Do http_Do) decode_response
     decode_team decode_teams).
Local Abbreviation get_issue :=
  (Client.GetIssueByIdentifier json_Marshal request_error (logged_Do http_Do)
     decode_response decode_issue).
Local Abbreviation create_issue :=
  (Client.CreateIssue json_Marshal request_error (logged_Do http_Do)
     decode_response decode_issue_create).
Local Abbreviation update_issue_state :=
  (Client.UpdateIssueState json_Marshal request_error (logged_Do http_Do)
     decode_response decode_issue_update).
Local Abbreviation add_comment :=
  (Client.AddComment json_Marshal request_error (logged_Do http_Do)
     decode_response decode_comment_create).

Lemma execute_sends_at_most_one c query variables w log :
  sends_at_most_one c log (snd (exec c query variables (w, log))).
Proof.
  unfold Client.execute, Client.NewRequestWithContext, sends_at_most_one.
  destruct (json_Marshal _) as [jsonBody|?]; [|left; reflexivity].
  destruct (request_error _ _); [left; reflexivity|].
  right.
  match goal with
  | |- context [logged_Do http_Do ?h ?r (w, log)] => exists r
  end.
  split.
  - unfold logged_Do. cbn [fst snd].
    destruct (http_Do _ _ w) as [[httpResp|?] w1]; [|reflexivity].
    destruct (Response.Body httpResp); [|reflexivity].
    destruct (negb _); [reflexivity|].
    destruct (decode_response _) as [gqlResp|?]; [|reflexivity].
    destruct (GraphQLResponse.Errors gqlResp); reflexivity.
  - unfold wire_ok, Request.Header_Set.
    cbn [Request.Method Request.URL Request.Header].
    split; [reflexivity|]. split; [reflexivity|]. split.
    + rewrite lookup_insert_ne by discriminate. apply lookup_insert_eq.
    + apply lookup_insert_eq.
Qed.

Ltac pick_variables :=
  match goal with
  | |- exists variables, _ = snd (exec _ _ variables _) =>
      match goal with
      | |- context [exec _ _ (Some ?v) _] => exists (Some v)
      | |- context [exec _ _ None _] => exists None
      end
  end.

Ltac same_world :=
  match goal with
  | |- context [exec ?c ?q ?v ?w] =>
      destruct (exec c q v w) as [[? [?|]|?] ?]; cbn [snd]; try reflexivity
  end;
  repeat match goal with
         | |- context [match ?x with _ => _ end] => destruct x; cbn [snd]
         end;
  reflexivity.

Lemma GetViewer_world c wl :
  snd (get_viewer c wl) = snd (exec c viewerQuery None wl).
Proof. unfold Client.GetViewer. same_world. Qed.

Lemma GetTeam_world c teamID teamKey wl :
  snd (get_team c teamID teamKey wl) = wl
  \/ exists query variables,
       snd (get_team c teamID teamKey wl) = snd (exec c query variables wl).
Proof.
  unfold Client.GetTeam.
  destruct (negb (String.eqb teamID EmptyString)).
  - right. exists teamByIDQuery, (Some {[ "id" := AString teamID ]}). same_world.
  - destruct (negb (String.eqb teamKey EmptyString)); [|left; reflexivity].
    right. exists teamsQuery, None. same_world.
Qed.

Lemma GetIssueByIdentifier_world c identifier wl :
  exists variables,
    snd (get_issue c identifier wl) = snd (exec c issueQuery variables wl).
Proof. unfold Client.GetIssueByIdentifier. pick_variables. same_world. Qed.

Lemma CreateIssue_world c input wl :
  exists variables,
    snd (create_issue c input wl) = snd (exec c createIssueMutation variables wl).
Proof. unfold Client.CreateIssue. pick_variables. same_world. Qed.

Lemma UpdateIssueState_world c issueID stateID wl :
  exists variables,
    snd (update_issue_state c issueID stateID wl)
    = snd (exec c updateIssueStateMutation variables wl).
Proof. unfold Client.UpdateIssueState. pick_variables. same_world. Qed.

Lemma AddComment_world c issueID body wl :
  exists variables,
    snd (add_comment c issueID body wl)
    = snd (exec c addCommentMutation variables wl).
Proof. unfold Client.AddComment. pick_variables. same_world. Qed.

(** X19. On the wire, every method of the client sends at most one request,
    and what it sends is a POST to the client's endpoint with the content
    type of JSON and the client's key as the Authorization header.  A team
    lookup with neither an id nor a key sends nothing and reports that one of
    them is required. *)
Theorem client_requests_on_the_wire c w log :
  sends_at_most_one c log (snd (get_viewer c (w, log)))
  /\ (forall teamID teamKey,
        sends_at_most_one c log (snd (get_team c teamID teamKey (w, log))))
  /\ (forall identifier,
        sends_at_most_one c log (snd (get_issue c identifier (w, log))))
  /\ (forall input, sends_at_most_one c log (snd (create_issue c input (w, log))))
  /\ (forall issueID stateID,
        sends_at_most_one c log
          (snd (update_issue_state c issueID stateID (w, log))))
  /\ (forall issueID body,
        sends_at_most_one c log (snd (add_comment c issueID body (w, log))))
  /\ get_team c EmptyString EmptyString (w, log)
     = (Err "either team_id or team_key is required", (w, log)).
Proof.
  split; [|split; [|split; [|split; [|split; [|split]]]]].
  - rewrite GetViewer_world. apply execute_sends_at_most_one.
  - intros teamID teamKey.
    destruct (GetTeam_world c teamID teamKey (w, log)) as [->|(q & v & ->)].
    + left. reflexivity.
    + apply execute_sends_at_most_one.
  - intros identifier.
    destruct (GetIssueByIdentifier_world c identifier (w, log)) as [v ->].
    apply execute_sends_at_most_one.
  - intros input. destruct (CreateIssue_world c input (w, log)) as [v ->].
    apply execute_sends_at_most_one.
  - intros issueID stateID.
    destruct (UpdateIssueState_world c issueID stateID (w, log)) as [v ->].
    apply execute_sends_at_most_one.
  - intros issueID body.
    destruct (AddComment_world c issueID body (w, log)) as [v ->].
    apply execute_sends_at_most_one.
  - reflexivity.
Qed.

End ClientWire.

(** ** Invariants of whole runs *)

Lemma preserves_ret {W A} (J : Run W -> Prop) (a : A) : preserves J (ret a).
Proof. intros st H. exact H. Qed.

Lemma preserves_bind {W A B} (J : Run W -> Prop) (m : M W A) (k : A -> M W B) :
  preserves J m -> (forall a, preserves J (k a)) -> preserves J (bind m k).
Proof.
  intros Hm Hk st H. unfold bind. specialize (Hm st H).
  destruct (m st) as [a st1]. apply Hk. exact Hm.
Qed.

Ltac preserves_step :=
  match goal with
  | |- preserves _ (bind _ _) => apply preserves_bind; [|intros ?]
  | |- preserves _ (ret _) => apply preserves_ret
  | |- preserves _ (match ?x with _ => _ end) => destruct x
  end.

Section RunInvariants.

Context {W : Type}.
Variable NewLinearClient : string -> LinearClient W.
Variable time_Now : W -> string * W.
Variable Template : Type.
Variable template_Parse : string -> result Template.
Variable template_Execute : Template -> templateData.t -> result string.
Variable equalFoldUnicode : string -> string -> bool.
Variable NewConfigParser : gmap string any -> ConfigParser.

Local Abbreviation render :=
  (renderTemplate time_Now Template template_Parse template_Execute).
Local Abbreviation create_release :=
  (createReleaseIssue time_Now Template template_Parse template_Execute).
Local Abbreviation process_linked :=
  (processLinkedIssues time_Now Template template_Parse template_Execute
     equalFoldUnicode).
Local Abbreviation post_publish :=
  (handlePostPublish NewLinearClient time_Now Template template_Parse
     template_Execute equalFoldUnicode).
Local Abbreviation execute_hook :=
  (Execute NewLinearClient time_Now Template template_Parse template_Execute
     equalFoldUnicode NewConfigParser).

Variable J : Run W -> Prop.
Variable ctx : ReleaseContext.t.
Hypothesis render_ok : forall tmplStr, preserves J (render tmplStr ctx).

Lemma preserves_createReleaseIssue client cfg team :
  respects J client -> preserves J (create_release client cfg ctx team).
Proof.
  intros (_ & _ & Hcreate & _). unfold createReleaseIssue.
  repeat first [apply render_ok | apply Hcreate | preserves_step].
Qed.

Lemma preserves_process_issue client cfg stateID comment acc issueID :
  respects J client ->
  preserves J (process_issue client cfg stateID comment acc issueID).
Proof.
  intros (_ & Hget & _ & Hupdate & Hcomment). unfold process_issue.
  destruct acc as [[updated commented] errs].
  repeat first [apply Hget | apply Hupdate | apply Hcomment | preserves_step].
Qed.

Lemma preserves_process_issues client cfg stateID comment issueIDs :
  respects J client ->
  forall acc, preserves J (process_issues client cfg stateID comment issueIDs acc).
Proof.
  intros Hclient. induction issueIDs as [|issueID issueIDs IH]; intros acc;
    cbn [process_issues].
  - apply preserves_ret.
  - apply preserves_bind; [apply preserves_process_issue, Hclient|exact IH].
Qed.

Lemma preserves_processLinkedIssues client cfg team issueIDs :
  respects J client -> preserves J (process_linked client cfg ctx team issueIDs).
Proof.
  intros Hclient. unfold processLinkedIssues, render_comment.
  destruct (released_state_id equalFoldUnicode cfg team) as [stateID errs].
  repeat first [apply render_ok | apply preserves_process_issues, Hclient
               | preserves_step].
Qed.

Lemma preserves_handlePostPublish cfg dryRun :
  (dryRun = false -> respects J (NewLinearClient (Config.APIKey cfg))) ->
  preserves J (post_publish cfg ctx dryRun).
Proof.
  intros Hclient. unfold handlePostPublish. destruct dryRun.
  - repeat first [apply render_ok | preserves_step].
  - specialize (Hclient eq_refl). pose proof Hclient as (Hteam & _).
    apply preserves_bind; [apply Hteam|]. intros [team|err]; [|apply preserves_ret].
    apply preserves_bind.
    + repeat first [apply preserves_createReleaseIssue, Hclient | preserves_step].
    + intros [results|msg]; [|apply preserves_ret].
      apply preserves_bind; [|intros ?; apply preserves_ret].
      repeat first [apply preserves_processLinkedIssues, Hclient | preserves_step].
Qed.

Lemma preserves_Execute req :
  ExecuteRequest.Context req = ctx ->
  (ExecuteRequest.Hook_ req = HookPostPublish ->
   ExecuteRequest.DryRun req = false ->
   respects J (NewLinearClient
                 (Config.APIKey
                    (parseConfig NewConfigParser (ExecuteRequest.Config_ req))))) ->
  preserves J (execute_hook req).
Proof.
  intros Hctx Hclient. unfold Execute. rewrite Hctx.
  destruct (ExecuteRequest.Hook_ req).
  - unfold handlePostPlan. repeat preserves_step.
  - apply preserves_handlePostPublish. intros Hdry. apply Hclient; auto.
  - apply preserves_ret.
  - apply preserves_ret.
Qed.

End RunInvariants.

Lemma preserves_trace_Forall {W A} (P : Event -> Prop) (op : W -> A * W)
    (ev : A -> Event) :
  (forall w, P (ev (fst (op w)))) ->
  preserves (fun st => Forall P (trace st)) (perform op ev).
Proof.
  intros Hop st H. unfold perform. specialize (Hop (world st)).
  destruct (op (world st)) as [a w']. cbn [snd trace fst] in *.
  apply Forall_app. split; [exact H|]. constructor; [exact Hop|constructor].
Qed.

(** On a trace that follows the protocol of the reconciliation, the updates
    and the comments are addressed to the issues fetched before them. *)
Lemma protocol_well_addressed updOn stateID comOn comment after :
  (updOn = true -> stateID <> EmptyString) ->
  (comOn = true -> comment <> EmptyString) ->
  forall tr e,
    protocol (step_ok updOn stateID comOn comment) (e :: tr) after ->
    Forall fetch_has_id (e :: tr) ->
    well_addressed e ->
    Forall well_addressed (e :: tr).
Proof.
  intros Hupd Hcom. induction tr as [|e' tr IH]; intros e Hprot Hfetch He.
  { constructor; [exact He|constructor]. }
  constructor; [exact He|].
  cbn [protocol] in Hprot. destruct Hprot as [Hstep Hprot].
  inversion Hfetch as [|? ? Hfe Hfetch']; subst.
  apply IH; [exact Hprot|exact Hfetch'|].
  assert (fetch_or_end (Some e') -> well_addressed e') as Hfetch_next.
  { destruct e'; cbn; try discriminate; auto. }
  destruct e as [| | |id [issue|]|issueID s r|]; cbn [step_ok] in Hstep;
    try contradiction; try (apply Hfetch_next; exact Hstep).
  - cbn [fetch_has_id] in Hfe.
    destruct updOn; [destruct Hstep as [r Hr]; injection Hr as ->; cbn; auto|].
    destruct comOn; [destruct Hstep as [r Hr]; injection Hr as ->; cbn; auto|].
    apply Hfetch_next; exact Hstep.
  - cbn [well_addressed] in He. destruct He as [Hi _].
    destruct comOn; [destruct Hstep as [r' Hr]; injection Hr as ->; cbn; auto|].
    apply Hfetch_next; exact Hstep.
Qed.

(** ** The hooks over the client *)

Section OverTheWire.

Context {W : Type}.
Variable json_Marshal : GraphQLRequest.t -> result string.
Variable request_error : string -> string -> option error.
Variable http_Do : HTTPClient.t -> Request.t -> W -> result Response.t * W.
Variable decode_response : string -> result GraphQLResponse.t.
Variable decode_viewer : string -> result Viewer.t.
Variable decode_team : string -> result TeamNode.t.
Variable decode_teams : string -> result (list TeamNode.t).
Variable decode_issue : string -> result Issue.t.
Variable decode_issue_create : string -> result (bool * Issue.t).
Variable decode_issue_update : string -> result bool.
Variable decode_comment_create : string -> result bool.
Variable time_Now : W -> string * W.
Variable Template : Type.
Variable template_Parse : string -> result Template.
Variable template_Execute : Template -> templateData.t -> result string.
Variable equalFoldUnicode : string -> string -> bool.
Variable NewConfigParser : gmap string any -> ConfigParser.

Local Abbreviation client_of c :=
  (Client.ops json_Marshal request_error (logged_Do http_Do) decode_response
     decode_team decode_teams decode_issue decode_issue_create
     decode_issue_update decode_comment_create c).
Local Abbreviation linear key := (client_of (Client.NewLinearClient key)).
Local Abbreviation execute_hook :=
  (Execute (fun key => linear key) (unlogged time_Now) Template template_Parse
     template_Execute equalFoldUnicode NewConfigParser).
Local Abbreviation get_viewer :=
  (Client.GetViewer json_Marshal request_error (logged_Do http_Do)
     decode_response decode_viewer).
Local Abbreviation render :=
  (renderTemplate (unlogged time_Now) Template template_Parse template_Execute).

Lemma render_sends_nothing tmplStr ctx wl :
  snd (snd (renderTemplate_body (unlogged time_Now) Template template_Parse
              template_Execute tmplStr ctx wl)) = snd wl.
Proof.
  unfold renderTemplate_body, unlogged.
  destruct (template_Parse tmplStr); [|reflexivity].
  destruct (time_Now (fst wl)). destruct (template_Execute _ _); reflexivity.
Qed.

Lemma render_on_the_wire c log tmplStr ctx :
  preserves (on_the_wire c log) (render tmplStr ctx).
Proof.
  intros st (sent & Hlog & Hsent & Hlen). unfold renderTemplate, perform.
  pose proof (render_sends_nothing tmplStr ctx (world st)) as Hsame.
  destruct (renderTemplate_body _ _ _ _ _ _ _) as [r wl']. cbn [snd] in *.
  exists sent. cbn [world trace]. rewrite Hsame, List.filter_app, length_app.
  repeat split; [assumption|assumption|lia].
Qed.

Lemma call_on_the_wire {A} c log (op : W * list Request.t -> A * (W * list Request.t))
    (ev : A -> Event) :
  (forall wl, sends_at_most_one c (snd wl) (snd (op wl))) ->
  (forall a, is_gateway (ev a) = true) ->
  preserves (on_the_wire c log) (perform op ev).
Proof.
  intros Hop Hev st (sent & Hlog & Hsent & Hlen). unfold perform.
  specialize (Hop (world st)).
  destruct (op (world st)) as [a wl']. cbn [snd world trace] in *.
  unfold on_the_wire. cbn [world trace].
  rewrite List.filter_app, length_app. cbn [List.filter]. rewrite Hev. cbn [length].
  destruct Hop as [Hsame|(req & Hone & Hreq)].
  - exists sent. rewrite Hsame. repeat split; [assumption|assumption|lia].
  - exists (sent ++ [req]). rewrite Hone, Hlog, <- app_assoc, length_app.
    cbn [length]. repeat split; [|lia].
    apply Forall_app. split; [assumption|]. constructor; [assumption|constructor].
Qed.

Lemma client_on_the_wire c log : respects (on_the_wire c log) (client_of c).
Proof.
  unfold respects, Client.ops.
  cbn [GetTeam GetIssueByIdentifier CreateIssue UpdateIssueState AddComment].
  split; [|split; [|split; [|split]]]; intros;
    (apply call_on_the_wire; [intros [w log']|reflexivity]).
  - destruct (GetTeam_world json_Marshal request_error http_Do decode_response
                decode_team decode_teams c teamID teamKey (w, log'))
      as [->|(q & v & ->)]; [left; reflexivity|apply execute_sends_at_most_one].
  - destruct (GetIssueByIdentifier_world json_Marshal request_error http_Do
                decode_response decode_issue c identifier (w, log')) as [v ->].
    apply execute_sends_at_most_one.
  - destruct (CreateIssue_world json_Marshal request_error http_Do
                decode_response decode_issue_create c input (w, log')) as [v ->].
    apply execute_sends_at_most_one.
  - destruct (UpdateIssueState_world json_Marshal request_error http_Do
                decode_response decode_issue_update c issueID stateID (w, log'))
      as [v ->].
    apply execute_sends_at_most_one.
  - destruct (AddComment_world json_Marshal request_error http_Do
                decode_response decode_comment_create c issueID body (w, log'))
      as [v ->].
    apply execute_sends_at_most_one.
Qed.

(** X20. The hooks over the HTTP client.  Whatever the request, everything
    Execute sends is a POST to the Linear endpoint, authorised with the API
    key of the parsed configuration, and it sends no more requests than it
    makes calls of the client; a dry run, and any hook other than
    PostPublish, sends nothing at all. *)
Theorem requests_of_a_run_are_authorised req w log :
  let cfg := parseConfig NewConfigParser (ExecuteRequest.Config_ req) in
  let st := snd (execute_hook req {| world := (w, log); trace := [] |}) in
  (exists sent,
     snd (world st) = log ++ sent
     /\ Forall (fun r =>
                  wire_ok (Client.NewLinearClient (Config.APIKey cfg)) r
                  /\ Request.URL r = Client.linearAPIEndpoint) sent
     /\ length sent <= length (List.filter is_gateway (trace st)))
  /\ (ExecuteRequest.Hook_ req <> HookPostPublish
      \/ ExecuteRequest.DryRun req = true ->
      snd (world st) = log).
Proof.
  intros cfg st. split.
  - assert (on_the_wire (Client.NewLinearClient (Config.APIKey cfg)) log st)
      as (sent & Hlog & Hsent & Hlen).
    { apply (preserves_Execute (fun key => linear key) (unlogged time_Now) Template
               template_Parse template_Execute equalFoldUnicode NewConfigParser
               _ (ExecuteRequest.Context req)).
      - intros tmplStr. apply render_on_the_wire.
      - reflexivity.
      - intros _ _. apply client_on_the_wire.
      - exists []. cbn. rewrite app_nil_r. repeat split; [constructor|lia]. }
    exists sent. repeat split; [assumption| |assumption].
    eapply Forall_impl; [exact Hsent|]. intros r Hr. split; [exact Hr|apply Hr].
  - intros Hquiet.
    apply (preserves_Execute (fun key => linear key) (unlogged time_Now) Template
             template_Parse template_Execute equalFoldUnicode NewConfigParser
             (fun st => snd (world st) = log) (ExecuteRequest.Context req)).
    + intros tmplStr st0 H0. unfold renderTemplate, perform.
      pose proof (render_sends_nothing tmplStr (ExecuteRequest.Context req)
                    (world st0)) as Hsame.
      destruct (renderTemplate_body _ _ _ _ _ _ _) as [r wl']. cbn [snd world] in *.
      congruence.
    + reflexivity.
    + intros Hhook Hdry. destruct Hquiet as [H|H]; [contradiction|congruence].
    + reflexivity.
Qed.

(** X21. Validate over the HTTP client sends at most one request, the viewer
    query to the Linear endpoint authorised with the configured key; a key
    that does not start with [lin_api_] is never sent. *)
Theorem validate_sends_well_formed_keys_only config w log :
  let cfg := parseConfig NewConfigParser config in
  let wl := snd (Validate NewConfigParser get_viewer config (w, log)) in
  sends_at_most_one (Client.NewLinearClient (Config.APIKey cfg)) log wl
  /\ (HasPrefix (Config.APIKey cfg) "lin_api_" = false -> wl = (w, log)).
Proof.
  intros cfg wl. subst wl. rewrite Validate_world. fold cfg.
  destruct (HasPrefix (Config.APIKey cfg) "lin_api_").
  - split; [|discriminate]. rewrite GetViewer_world.
    apply execute_sends_at_most_one.
  - split; [left; reflexivity|reflexivity].
Qed.

End OverTheWire.

Section OverTheClient.

Context {W : Type}.
Variable json_Marshal : GraphQLRequest.t -> result string.
Variable request_error : string -> string -> option error.
Variable http_Do : HTTPClient.t -> Request.t -> W -> result Response.t * W.
Variable decode_response : string -> result GraphQLResponse.t.
Variable decode_team : string -> result TeamNode.t.
Variable decode_teams : string -> result (list TeamNode.t).
Variable decode_issue : string -> result Issue.t.
Variable decode_issue_create : string -> result (bool * Issue.t).
Variable decode_issue_update : string -> result bool.
Variable decode_comment_create : string -> result bool.
Variable time_Now : W -> string * W.
Variable Template : Type.
Variable template_Parse : string -> result Template.
Variable template_Execute : Template -> templateData.t -> result string.
Variable equalFoldUnicode : string -> string -> bool.

Local Abbreviation client_of c :=
  (Client.ops json_Marshal request_error http_Do decode_response
     decode_team decode_teams decode_issue decode_issue_create
     decode_issue_update decode_comment_create c).
Local Abbreviation process_linked :=
  (processLinkedIssues time_Now Template template_Parse template_Execute
     equalFoldUnicode).
Local Abbreviation get_issue :=
  (Client.GetIssueByIdentifier json_Marshal request_error http_Do decode_response
     decode_issue).

Lemma GetIssueByIdentifier_has_id c identifier w :
  match fst (get_issue c identifier w) with
  | Ok issue => Issue.ID issue <> EmptyString
  | Err _ => True
  end.
Proof.
  unfold Client.GetIssueByIdentifier.
  destruct (Client.execute _ _ _ _ _ _ _ _) as [[resp [?|]|?] w']; try exact I.
  destruct (decode_issue _) as [issue|]; [|exact I].
  destruct (String.eqb_spec (Issue.ID issue) EmptyString); [exact I|assumption].
Qed.

Lemma client_fetches_have_ids c :
  respects (fun st => Forall fetch_has_id (trace st)) (client_of c).
Proof.
  unfold respects, Client.ops.
  cbn [GetTeam GetIssueByIdentifier CreateIssue UpdateIssueState AddComment].
  split; [|split; [|split; [|split]]]; intros;
    apply preserves_trace_Forall; intros w; try exact I.
  apply GetIssueByIdentifier_has_id.
Qed.

(** X22. The reconciliation over the client never makes a call that cannot
    be meant: every state update and every comment is addressed to an issue
    id that is not empty (the id of the issue fetched just before), no update
    carries an empty state id, and no comment an empty body. *)
Theorem reconciliation_calls_are_well_addressed c cfg ctx team issueIDs w :
  Forall well_addressed
    (snd (run (process_linked (client_of c) cfg ctx team issueIDs) w)).
Proof.
  destruct (released_state_id equalFoldUnicode cfg team) as [stateID errs] eqn:Hsid.
  destruct (process_linked_run time_Now Template template_Parse template_Execute
              equalFoldUnicode (client_of c) cfg ctx team issueIDs w _ _ Hsid)
    as (comment & errs0 & cfg' & tr0 & tr & _ & Hrun & _ & _ & _ & _ & Hhead & Hprot).
  assert (Forall fetch_has_id
            (snd (run (process_linked (client_of c) cfg ctx team issueIDs) w)))
    as Hfetch.
  { unfold run.
    pose proof (preserves_processLinkedIssues time_Now Template template_Parse
                  template_Execute equalFoldUnicode
                  (fun st => Forall fetch_has_id (trace st)) ctx) as H.
    specialize (H ltac:(intros tmplStr; apply preserves_trace_Forall;
                        intros; exact I)
                  (client_of c) cfg team issueIDs (client_fetches_have_ids c)
                  {| world := w; trace := [] |} ltac:(constructor)).
    destruct (process_linked _ _ _ _ _ _) as [out st]. exact H. }
  rewrite Hrun in Hfetch |- *. cbn [snd] in *.
  destruct (tr0 ++ tr) as [|e rest]; [constructor|].
  eapply protocol_well_addressed; [| |exact Hprot|exact Hfetch|].
  - unfold updates_on. intros H. apply andb_true_iff in H as [_ H].
    apply negb_true_iff, String.eqb_neq in H. exact H.
  - unfold comments_on. intros H. apply andb_true_iff in H as [_ H].
    apply negb_true_iff, String.eqb_neq in H. exact H.
  - cbn [head] in Hhead. destruct e; cbn in Hhead |- *; try exact I;
      destruct Hhead; discriminate.
Qed.

End OverTheClient.

(** ** The further properties on the scripted world *)

Lemma team_lookup_failure_witness :
  let cfg := Scenario.lost_team in
  let ctx := Demo.release "main" ["feat: add X NOPE-1"] [] in
  GetTeam (Demo.NewLinearClient (Config.APIKey cfg))
    (Config.TeamID cfg) (Config.TeamKey cfg) 0
  = (Err "team with key NOPE not found", 1)
  /\ run (Demo.handlePostPublish cfg ctx false) 0
     = (failure "Failed to get team: team with key NOPE not found",
        [EvGetTeam EmptyString "NOPE" (Err "team with key NOPE not found")]).
Proof.
  intros cfg ctx. split; [reflexivity|].
  apply (team_lookup_failure_is_fatal Demo.NewLinearClient Demo.time_Now
           Demo.Template Demo.template_Parse Demo.template_Execute
           Demo.equalFoldUnicode cfg ctx 0 "team with key NOPE not found" 1).
  reflexivity.
Defined.

Lemma nothing_to_do_witness :
  let cfg := Demo.config "Done" false true true "Release {{.Version}}"
               "Released in {{.Version}}" in
  let ctx := Demo.release "main" ["feat: tidy up"] [] in
  GetTeam (Demo.NewLinearClient (Config.APIKey cfg))
    (Config.TeamID cfg) (Config.TeamKey cfg) 0 = (Ok Demo.team, 1)
  /\ Config.CreateReleaseIssue cfg = false
  /\ extractIssues Demo.equalFoldUnicode (commitMessages ctx) (Config.IssuePrefix cfg)
     = []
  /\ ExecuteResponse.Message (fst (run (Demo.handlePostPublish cfg ctx false) 0))
     = "No actions taken".
Proof.
  intros cfg ctx.
  assert (extractIssues Demo.equalFoldUnicode (commitMessages ctx)
            (Config.IssuePrefix cfg) = []) as Hnone by reflexivity.
  split; [reflexivity|]. split; [reflexivity|]. split; [exact Hnone|].
  unfold Demo.handlePostPublish.
  rewrite (nothing_to_do Demo.NewLinearClient Demo.time_Now Demo.Template
             Demo.template_Parse Demo.template_Execute Demo.equalFoldUnicode
             cfg ctx 0 Demo.team 1 eq_refl eq_refl (or_intror Hnone)).
  reflexivity.
Defined.

Lemma comment_render_failure_witness :
  let cfg := Demo.config "Done" false true true "Release {{.Version}}" "{{" in
  let ctx := Demo.release "main" [] [] in
  Config.AddReleaseComment cfg = true
  /\ fst (renderTemplate_body Demo.time_Now Demo.Template Demo.template_Parse
            Demo.template_Execute (Config.CommentTemplate cfg) ctx 0)
     = (EmptyString, Some "template: :1: unclosed action")
  /\ fetched_ids
       (snd (run (Demo.processLinkedIssues Demo.client cfg ctx Demo.team
                    ["ENG-123"; "ENG-404"]) 0))
     = ["ENG-123"; "ENG-404"].
Proof.
  intros cfg ctx. split; [reflexivity|]. split; [reflexivity|].
  pose proof (comment_render_failure_is_a_warning Demo.time_Now Demo.Template
                Demo.template_Parse Demo.template_Execute Demo.equalFoldUnicode
                Demo.client cfg ctx Demo.team ["ENG-123"; "ENG-404"] 0
                EmptyString "template: :1: unclosed action" eq_refl eq_refl) as H.
  unfold Demo.processLinkedIssues.
  destruct (run _ 0) as [[[[updated commented] errs] cfg'] tr]. apply H.
Defined.

Lemma released_state_found_witness :
  let cfg := Demo.config "done" false true true "Release {{.Version}}"
               "Released in {{.Version}}" in
  let ctx := Demo.release "main" [] [] in
  let before := [State.mk "s1" "Backlog" "backlog";
                 State.mk "s2" "In Progress" "started"] in
  let state := State.mk "s3" "Done" "completed" in
  Config.UpdateLinkedIssues cfg = true
  /\ Config.ReleasedState cfg <> EmptyString
  /\ Team.States Demo.team = before ++ state :: []
  /\ existsb (fun s => EqualFold Demo.equalFoldUnicode (State.Name s)
                         (Config.ReleasedState cfg)) before = false
  /\ EqualFold Demo.equalFoldUnicode (State.Name state) (Config.ReleasedState cfg)
     = true
  /\ State.ID state <> EmptyString
  /\ Forall (fun e => match e with
                      | EvUpdateIssueState _ s _ => s = "s3"
                      | _ => True
                      end)
       (snd (run (Demo.processLinkedIssues Demo.client cfg ctx Demo.team
                    ["ENG-123"; "ENG-500"]) 0)).
Proof.
  intros cfg ctx before state.
  assert (Config.ReleasedState cfg <> EmptyString) as Hname by discriminate.
  assert (State.ID state <> EmptyString) as Hid by discriminate.
  split; [reflexivity|]. split; [exact Hname|]. split; [reflexivity|].
  split; [reflexivity|]. split; [reflexivity|]. split; [exact Hid|].
  pose proof (released_state_found_updates_every_issue Demo.time_Now Demo.Template
                Demo.template_Parse Demo.template_Execute Demo.equalFoldUnicode
                Demo.client cfg ctx Demo.team ["ENG-123"; "ENG-500"] 0
                before state [] eq_refl Hname eq_refl eq_refl eq_refl Hid) as H.
  unfold Demo.processLinkedIssues.
  destruct (run _ 0) as [[[[updated commented] errs] cfg'] tr]. apply H.
Defined.

Lemma state_without_id_witness :
  let cfg := Demo.config "Done" false true true "Release {{.Version}}"
               "Released in {{.Version}}" in
  let ctx := Demo.release "main" [] [] in
  let before := [State.mk "s1" "Backlog" "backlog"] in
  let state := State.mk EmptyString "Done" "completed" in
  Config.UpdateLinkedIssues cfg = true
  /\ Config.ReleasedState cfg <> EmptyString
  /\ Team.States Scenario.blank_state_team = before ++ state :: []
  /\ existsb (fun s => EqualFold Demo.equalFoldUnicode (State.Name s)
                         (Config.ReleasedState cfg)) before = false
  /\ EqualFold Demo.equalFoldUnicode (State.Name state) (Config.ReleasedState cfg)
     = true
  /\ State.ID state = EmptyString
  /\ Forall (fun e => is_update e = false)
       (snd (run (Demo.processLinkedIssues Demo.client cfg ctx
                    Scenario.blank_state_team ["ENG-123"; "ENG-500"]) 0)).
Proof.
  intros cfg ctx before state.
  assert (Config.ReleasedState cfg <> EmptyString) as Hname by discriminate.
  split; [reflexivity|]. split; [exact Hname|]. split; [reflexivity|].
  split; [reflexivity|]. split; [reflexivity|]. split; [reflexivity|].
  pose proof (matching_state_without_id_is_not_found Demo.time_Now Demo.Template
                Demo.template_Parse Demo.template_Execute Demo.equalFoldUnicode
                Demo.client cfg ctx Scenario.blank_state_team
                ["ENG-123"; "ENG-500"] 0
                before state [] eq_refl Hname eq_refl eq_refl eq_refl eq_refl) as H.
  unfold Demo.processLinkedIssues.
  destruct (run _ 0) as [[[[updated commented] errs] cfg'] tr]. apply H.
Defined.

Lemma dry_run_request_witness :
  let req := ExecuteRequest.mk HookPostPublish {[ "team_key" := AString "ENG" ]}
               (Demo.release "main" ["feat: add X ENG-123"] []) true in
  (ExecuteRequest.Hook_ req <> HookPostPublish \/ ExecuteRequest.DryRun req = true)
  /\ Forall (fun e => is_gateway e = false) (snd (run (Demo.Execute req) 0)).
Proof.
  intros req.
  assert (ExecuteRequest.Hook_ req <> HookPostPublish
          \/ ExecuteRequest.DryRun req = true) as Hreq by (right; reflexivity).
  split; [exact Hreq|].
  pose proof (only_a_real_publish_reaches_linear Demo.NewLinearClient Demo.time_Now
                Demo.Template Demo.template_Parse Demo.template_Execute
                Demo.equalFoldUnicode Demo.NewConfigParser req 0 Hreq) as H.
  unfold Demo.Execute.
  destruct (run _ 0) as [resp tr]. apply H.
Defined.

Lemma team_by_key_witness :
  let c := Client.NewLinearClient "lin_api_test" in
  Scenario.GetTeam c EmptyString "ENG" 0 = (Ok Demo.team, 1)
  /\ Team.Key Demo.team = "ENG".
Proof.
  intros c.
  assert (Scenario.GetTeam c EmptyString "ENG" 0 = (Ok Demo.team, 1)) as Hteam
    by reflexivity.
  split; [exact Hteam|].
  apply (team_by_key_is_first_exact_match Scenario.json_Marshal
           Scenario.request_error Scenario.http_Do Scenario.decode_response
           Scenario.decode_team Scenario.decode_teams c "ENG" 0 Demo.team 1 Hteam).
Defined.

Lemma team_id_precedence_witness :
  let c := Client.NewLinearClient "lin_api_test" in
  "team-1" <> EmptyString
  /\ Scenario.GetTeam c "team-1" "OPS" 0 = Scenario.GetTeam c "team-1" EmptyString 0.
Proof.
  intros c.
  assert ("team-1" <> EmptyString) as Hid by discriminate.
  split; [exact Hid|].
  apply (team_id_takes_precedence Scenario.json_Marshal
           Scenario.request_error Scenario.http_Do Scenario.decode_response
           Scenario.decode_team Scenario.decode_teams c "team-1" "OPS" 0 Hid).
Defined.

(** ** What is fatal, and what the release issue is made of *)

(** Of the configuration, the release issue takes the priority and the
    project; it is never given an assignee. *)
Lemma gqlInput_release_issue cfg team title description :
  let payload := Client.gqlInput (release_issue_input cfg team title description) in
  let priority := ReleaseIssueConfig.Priority (Config.ReleaseIssue cfg) in
  payload !! "teamId" = Some (AString (Team.ID team))
  /\ payload !! "title" = Some (AString title)
  /\ payload !! "description"
     = (if String.eqb description EmptyString then None
        else Some (AString description))
  /\ payload !! "priority"
     = (if (0 <? priority)%Z then Some (AInt priority) else None)
  /\ payload !! "projectId"
     = (if String.eqb (Config.ProjectID cfg) EmptyString then None
        else Some (AString (Config.ProjectID cfg)))
  /\ forall key,
       key ∉ ["teamId"; "title"; "description"; "priority"; "projectId"] ->
       payload !! key = None.
Proof.
  unfold Client.gqlInput, release_issue_input.
  destruct (String.eqb (Config.ProjectID cfg) EmptyString) eqn:Hproject;
    cbn [negb CreateIssueInput.TeamID CreateIssueInput.Title
         CreateIssueInput.Description CreateIssueInput.Priority
         CreateIssueInput.ProjectID CreateIssueInput.AssigneeID String.eqb];
    rewrite ?Hproject; cbn [negb];
    destruct (String.eqb description EmptyString);
    destruct (0 <? ReleaseIssueConfig.Priority (Config.ReleaseIssue cfg))%Z;
    cbn [negb];
    (repeat split;
     [repeat (rewrite lookup_insert_ne by discriminate);
      first [apply lookup_insert_eq | apply lookup_empty].. |
      intros key Hkey;
      repeat (rewrite lookup_insert_ne
                by (intros <-; apply Hkey; repeat constructor));
      apply lookup_empty]).
Qed.

Section Fatal.

Context {W : Type}.
Variable NewLinearClient : string -> LinearClient W.
Variable time_Now : W -> string * W.
Variable Template : Type.
Variable template_Parse : string -> result Template.
Variable template_Execute : Template -> templateData.t -> result string.
Variable equalFoldUnicode : string -> string -> bool.

Local Abbreviation render_body :=
  (renderTemplate_body time_Now Template template_Parse template_Execute).
Local Abbreviation create_block :=
  (create_step time_Now Template template_Parse template_Execute).
Local Abbreviation reconcile_block :=
  (reconcile_step time_Now Template template_Parse template_Execute
     equalFoldUnicode).
Local Abbreviation post_publish :=
  (handlePostPublish NewLinearClient time_Now Template template_Parse
     template_Execute equalFoldUnicode).
Local Abbreviation issue_fails :=
  (release_issue_fails time_Now Template template_Parse template_Execute).

(** X23. A real run fails exactly when the team lookup fails or, the release
    issue being enabled, its title or description does not render or the
    create-issue call fails.  Nothing that happens to a linked issue makes
    the run fail. *)
Theorem only_setup_failures_are_fatal cfg ctx w :
  ExecuteResponse.Success (fst (run (post_publish cfg ctx false) w))
  = (let client := NewLinearClient (Config.APIKey cfg) in
     match GetTeam client (Config.TeamID cfg) (Config.TeamKey cfg) w with
     | (Err _, _) => false
     | (Ok team, w1) =>
         negb (Config.CreateReleaseIssue cfg && issue_fails client cfg ctx team w1)
     end).
Proof.
  rewrite (post_publish_run NewLinearClient time_Now Template template_Parse
             template_Execute equalFoldUnicode).
  cbv zeta.
  destruct (GetTeam _ _ _ w) as [[team|err] w1]; [|reflexivity].
  unfold create_step, release_issue_fails, createReleaseIssue, renderTemplate,
    bind, perform, ret.
  destruct (Config.CreateReleaseIssue cfg); cbn [andb negb world trace].
  2:{ destruct (reconcile_block _ _ _ _ _ _). reflexivity. }
  destruct (render_body (ReleaseIssueConfig.Title _) ctx w1) as [[title [e|]] w2];
    cbn [world trace fst snd]; [reflexivity|].
  destruct (render_body (ReleaseIssueConfig.Description _) ctx w2)
    as [[description [e|]] w3]; cbn [world trace fst snd]; [reflexivity|].
  destruct (CreateIssue _ _ w3) as [[issue|e] w4]; cbn [world trace fst snd];
    [|reflexivity].
  destruct (reconcile_block _ _ _ _ _ _). reflexivity.
Qed.

(** The create-issue call of the step is made with the two texts rendered
    just before it. *)
Lemma create_step_input client cfg ctx team w input r :
  let tr := trace (snd (create_block client cfg ctx team {| world := w; trace := [] |})) in
  EvCreateIssue input r ∈ tr ->
  exists title description,
    input = release_issue_input cfg team title description
    /\ EvRenderTemplate (ReleaseIssueConfig.Title (Config.ReleaseIssue cfg))
         title None ∈ tr
    /\ EvRenderTemplate (ReleaseIssueConfig.Description (Config.ReleaseIssue cfg))
         description None ∈ tr.
Proof.
  unfold create_step, createReleaseIssue, renderTemplate, bind, perform, ret.
  destruct (Config.CreateReleaseIssue cfg); cbn [world trace snd].
  2:{ intros H. inversion H. }
  destruct (render_body (ReleaseIssueConfig.Title _) ctx w) as [[title [e|]] w2];
    cbn [world trace fst snd app].
  { intros H. apply list_elem_of_singleton in H. discriminate. }
  destruct (render_body (ReleaseIssueConfig.Description _) ctx w2)
    as [[description [e|]] w3]; cbn [world trace fst snd app].
  { intros H. repeat (apply elem_of_cons in H as [H|H]; [discriminate|]).
    inversion H. }
  destruct (CreateIssue _ _ w3) as [[issue|e] w4]; cbn [world trace fst snd app];
    intros H;
    repeat (apply elem_of_cons in H as [H|H]; [try discriminate|]);
    try (inversion H; fail);
    injection H as -> ->; exists title, description;
    (split; [reflexivity|]); split; repeat constructor.
Qed.

(** X24. What the release issue is made of.  The create-issue call of a real
    run is for the team that the lookup returned, with the title and the
    description rendered just before; it carries the configured priority
    when that is positive and the configured project when there is one, an
    empty description is left out, and nothing else is sent: the labels and
    the assignee of the configuration are not used. *)
Theorem release_issue_payload cfg ctx w input r :
  let tr := snd (run (post_publish cfg ctx false) w) in
  let priority := ReleaseIssueConfig.Priority (Config.ReleaseIssue cfg) in
  let payload := Client.gqlInput input in
  EvCreateIssue input r ∈ tr ->
  exists team title description,
    head tr = Some (EvGetTeam (Config.TeamID cfg) (Config.TeamKey cfg) (Ok team))
    /\ EvRenderTemplate (ReleaseIssueConfig.Title (Config.ReleaseIssue cfg))
         title None ∈ tr
    /\ EvRenderTemplate (ReleaseIssueConfig.Description (Config.ReleaseIssue cfg))
         description None ∈ tr
    /\ payload !! "teamId" = Some (AString (Team.ID team))
    /\ payload !! "title" = Some (AString title)
    /\ payload !! "description"
       = (if String.eqb description EmptyString then None
          else Some (AString description))
    /\ payload !! "priority"
       = (if (0 <? priority)%Z then Some (AInt priority) else None)
    /\ payload !! "projectId"
       = (if String.eqb (Config.ProjectID cfg) EmptyString then None
          else Some (AString (Config.ProjectID cfg)))
    /\ forall key,
         key ∉ ["teamId"; "title"; "description"; "priority"; "projectId"] ->
         payload !! key = None.
Proof.
  cbv zeta.
  rewrite (post_publish_run NewLinearClient time_Now Template template_Parse
             template_Execute equalFoldUnicode).
  cbv zeta.
  destruct (GetTeam _ _ _ w) as [[team|err] w1]; cbn [snd].
  2:{ intros H. apply list_elem_of_singleton in H. discriminate. }
  pose proof (create_step_input (NewLinearClient (Config.APIKey cfg)) cfg ctx team
                w1 input r) as Hcreate. cbv zeta in Hcreate.
  assert (forall tail,
            EvCreateIssue input r ∈ tail ->
            Forall (fun e => is_create e = false) tail -> False) as Hnone.
  { intros tail Hin Hall. rewrite Forall_forall in Hall.
    specialize (Hall _ Hin). discriminate. }
  destruct (create_block _ cfg ctx team _) as [created st2]. cbn [snd] in Hcreate.
  assert (forall tr,
            (forall e, e ∈ trace st2 ->
                       e ∈ EvGetTeam (Config.TeamID cfg) (Config.TeamKey cfg) (Ok team)
                           :: tr) ->
            EvCreateIssue input r ∈ trace st2 ->
            exists title description,
              EvRenderTemplate (ReleaseIssueConfig.Title (Config.ReleaseIssue cfg))
                title None
              ∈ EvGetTeam (Config.TeamID cfg) (Config.TeamKey cfg) (Ok team) :: tr
              /\ EvRenderTemplate
                   (ReleaseIssueConfig.Description (Config.ReleaseIssue cfg))
                   description None
                 ∈ EvGetTeam (Config.TeamID cfg) (Config.TeamKey cfg) (Ok team) :: tr
              /\ input = release_issue_input cfg team title description) as Hmain.
  { intros tr Hsub Hin.
    destruct (Hcreate Hin) as (title & description & -> & Ht & Hd).
    exists title, description. auto. }
  assert (EvCreateIssue input r ∈ trace st2 ->
          forall tr,
            (forall e, e ∈ trace st2 ->
                       e ∈ EvGetTeam (Config.TeamID cfg) (Config.TeamKey cfg) (Ok team)
                           :: tr) ->
            exists team0 title description,
              Some (EvGetTeam (Config.TeamID cfg) (Config.TeamKey cfg) (Ok team))
              = Some (EvGetTeam (Config.TeamID cfg) (Config.TeamKey cfg) (Ok team0))
              /\ EvRenderTemplate (ReleaseIssueConfig.Title (Config.ReleaseIssue cfg))
                   title None
                 ∈ EvGetTeam (Config.TeamID cfg) (Config.TeamKey cfg) (Ok team) :: tr
              /\ EvRenderTemplate
                   (ReleaseIssueConfig.Description (Config.ReleaseIssue cfg))
                   description None
                 ∈ EvGetTeam (Config.TeamID cfg) (Config.TeamKey cfg) (Ok team) :: tr
              /\ let payload := Client.gqlInput input in
                 let priority := ReleaseIssueConfig.Priority (Config.ReleaseIssue cfg) in
                 payload !! "teamId" = Some (AString (Team.ID team0))
                 /\ payload !! "title" = Some (AString title)
                 /\ payload !! "description"
                    = (if String.eqb description EmptyString then None
                       else Some (AString description))
                 /\ payload !! "priority"
                    = (if (0 <? priority)%Z then Some (AInt priority) else None)
                 /\ payload !! "projectId"
                    = (if String.eqb (Config.ProjectID cfg) EmptyString then None
                       else Some (AString (Config.ProjectID cfg)))
                 /\ forall key,
                      key ∉ ["teamId"; "title"; "description"; "priority";
                             "projectId"] ->
                      payload !! key = None) as Hfinish.
  { intros Hin tr Hsub.
    destruct (Hmain tr Hsub Hin) as (title & description & Ht & Hd & ->).
    exists team, title, description.
    split; [reflexivity|]. split; [exact Ht|]. split; [exact Hd|].
    exact (gqlInput_release_issue cfg team title description). }
  destruct created as [results|msg]; cbn [snd head].
  2:{ intros H. apply elem_of_cons in H as [H|H]; [discriminate|].
      apply (Hfinish H). intros e He. apply elem_of_cons. right. exact He. }
  pose proof (reconcile_step_events time_Now Template template_Parse template_Execute
                equalFoldUnicode (NewLinearClient (Config.APIKey cfg)) cfg ctx team
                results (world st2)) as Hr.
  destruct (reconcile_block _ cfg ctx team results _) as [results' st3].
  destruct Hr as (_ & _ & Hrec). cbn [snd head].
  intros H. apply elem_of_cons in H as [H|H]; [discriminate|].
  apply elem_of_app in H as [H|H].
  - apply (Hfinish H). intros e He.
    apply elem_of_cons. right. apply elem_of_app. left. exact He.
  - exfalso. apply (Hnone _ H). eapply Forall_impl; [exact Hrec|].
    intros e [_ He]. exact He.
Qed.

End Fatal.

Lemma release_issue_payload_witness :
  let cfg := Demo.config "Done" true false false "Release {{.Version}}"
               "Released in {{.Version}}" in
  let ctx := Demo.release "main" [] [] in
  let input := release_issue_input cfg Demo.team "Release 1.2.3"
                 defaultReleaseDescription in
  EvCreateIssue input (Ok (Demo.issue "ENG-1000"))
    ∈ snd (run (Demo.handlePostPublish cfg ctx false) 0)
  /\ Client.gqlInput input !! "assigneeId" = None.
Proof.
  intros cfg ctx input.
  assert (EvCreateIssue input (Ok (Demo.issue "ENG-1000"))
            ∈ snd (run (Demo.handlePostPublish cfg ctx false) 0)) as Hin.
  { apply list_elem_of_In. do 3 right. left. reflexivity. }
  split; [exact Hin|].
  destruct (release_issue_payload Demo.NewLinearClient Demo.time_Now Demo.Template
              Demo.template_Parse Demo.template_Execute Demo.equalFoldUnicode
              cfg ctx 0 input (Ok (Demo.issue "ENG-1000")) Hin)
    as (team & title & description & _ & _ & _ & _ & _ & _ & _ & _ & Hrest).
  apply Hrest. intros H.
  repeat (apply elem_of_cons in H as [H|H]; [discriminate|]). inversion H.
Defined.

(** ** More commits, and the plan for a team *)

Section ExtractorGrowth.

Variable equalFoldUnicode : string -> string -> bool.

Local Abbreviation extract := (extractIssues equalFoldUnicode).

Lemma fold_add_id_extends toks : forall acc,
  exists rest, snd (fold_left add_id toks acc) = snd acc ++ rest.
Proof.
  induction toks as [|t toks IH]; intros acc; cbn [fold_left].
  - exists []. rewrite app_nil_r. reflexivity.
  - destruct (IH (add_id acc t)) as [rest ->]. unfold add_id.
    destruct (negb _); cbn [snd].
    + exists (t :: rest). rewrite <- app_assoc. reflexivity.
    + exists rest. reflexivity.
Qed.

Lemma extractIssues_NoDup commits prefix : NoDup (extract commits prefix).
Proof.
  unfold extractIssues. rewrite extract_commits_add_id.
  apply (add_id_fold equalFoldUnicode _ [] (∅, [])).
  - intros id. cbn. rewrite lookup_empty. cbn.
    split; [discriminate|]. intros H. inversion H.
  - split; [constructor|]. split.
    + intros x. reflexivity.
    + intros i j x y Hi. discriminate.
Qed.

Lemma extractIssues_app_elements commits more prefix x :
  x ∈ extract (commits ++ more) prefix
  <-> x ∈ extract commits prefix \/ x ∈ extract more prefix.
Proof.
  rewrite !extractIssues_elements, !elem_of_retained_tokens. split.
  - intros (commit & m & Hc & H). apply elem_of_app in Hc as [Hc|Hc];
      [left|right]; exists commit, m; auto.
  - intros [(commit & m & Hc & H)|(commit & m & Hc & H)];
      exists commit, m; (split; [apply elem_of_app; auto|exact H]).
Qed.

(** X14. More commits only add identifiers at the end: the identifiers
    extracted from a list of commits stay, in their order, at the front of
    what is extracted when further commits are appended, and what follows
    them are the identifiers of the further commits that are new. *)
Theorem more_commits_extend_the_issues commits more prefix :
  exists rest,
    extractIssues equalFoldUnicode (commits ++ more) prefix
    = extractIssues equalFoldUnicode commits prefix ++ rest
    /\ forall x,
         x ∈ rest
         <-> x ∈ extractIssues equalFoldUnicode more prefix
             /\ x ∉ extractIssues equalFoldUnicode commits prefix.
Proof.
  assert (exists rest,
            extract (commits ++ more) prefix = extract commits prefix ++ rest)
    as [rest Hrest].
  { unfold extractIssues. rewrite fold_left_app.
    rewrite (extract_commits_add_id equalFoldUnicode prefix more).
    apply fold_add_id_extends. }
  exists rest. split; [exact Hrest|].
  pose proof (extractIssues_NoDup (commits ++ more) prefix) as Hnodup.
  rewrite Hrest in Hnodup. apply NoDup_app in Hnodup as (_ & Hdisjoint & _).
  intros x. split.
  - intros Hx. split.
    + assert (x ∈ extract (commits ++ more) prefix) as Hin
        by (rewrite Hrest; apply elem_of_app; auto).
      apply extractIssues_app_elements in Hin as [Hin|Hin]; [|exact Hin].
      exfalso. exact (Hdisjoint x Hin Hx).
    + intros Hin. exact (Hdisjoint x Hin Hx).
  - intros [Hm Hc].
    assert (x ∈ extract (commits ++ more) prefix) as Hin
      by (apply extractIssues_app_elements; auto).
    rewrite Hrest in Hin. apply elem_of_app in Hin as [Hin|Hin];
      [contradiction|exact Hin].
Qed.

End ExtractorGrowth.

Section PlanForATeam.

Context {W : Type}.
Variable NewLinearClient : string -> LinearClient W.
Variable time_Now : W -> string * W.
Variable Template : Type.
Variable template_Parse : string -> result Template.
Variable template_Execute : Template -> templateData.t -> result string.
Variable equalFoldUnicode : string -> string -> bool.
Variable NewConfigParser : gmap string any -> ConfigParser.

Local Abbreviation execute_hook :=
  (Execute NewLinearClient time_Now Template template_Parse template_Execute
     equalFoldUnicode NewConfigParser).

(** The issue prefix is the one configured, or else the team key. *)
Lemma parseConfig_IssuePrefix raw :
  let parser := NewConfigParser raw in
  let prefix := GetString parser "issue_prefix" EmptyString EmptyString in
  let teamKey := GetString parser "team_key" EmptyString EmptyString in
  Config.IssuePrefix (parseConfig NewConfigParser raw)
  = (if String.eqb prefix EmptyString then teamKey else prefix).
Proof.
  unfold parseConfig. cbv zeta.
  set (fields := Config.mk _ _ _ _ _ _ _ _ _ _ _).
  set (parsed := match raw !! "release_issue" with Some (AMap _) => _ | _ => _ end).
  assert (exists ri, parsed = Config.set_ReleaseIssue ri fields) as [ri ->].
  { subst parsed. destruct (raw !! "release_issue") as [[]|]; eauto. }
  subst fields. cbn [Config.set_ReleaseIssue Config.IssuePrefix Config.TeamKey].
  destruct (String.eqb_spec (GetString (NewConfigParser raw) "issue_prefix"
                               EmptyString EmptyString) EmptyString) as [Hp|Hp];
    cbn [andb]; [|reflexivity].
  destruct (String.eqb_spec (GetString (NewConfigParser raw) "team_key"
                               EmptyString EmptyString) EmptyString) as [Hk|Hk];
    cbn [negb Config.set_IssuePrefix Config.set_ReleaseIssue Config.IssuePrefix
         Config.TeamKey]; congruence.
Qed.

(** X11. With a team key and no issue prefix in the configuration, the plan
    lists the issues of that team: the identifiers reported by the PostPlan
    hook are, without duplicates, the tokens matched in the descriptions of
    the commits (features, fixes, breaking changes and others) whose letters
    equal the team key up to case. *)
Theorem plan_lists_the_issues_of_the_team req w teamKey :
  ExecuteRequest.Hook_ req = HookPostPlan ->
  GetString (NewConfigParser (ExecuteRequest.Config_ req)) "issue_prefix"
    EmptyString EmptyString = EmptyString ->
  GetString (NewConfigParser (ExecuteRequest.Config_ req)) "team_key"
    EmptyString EmptyString = teamKey ->
  teamKey <> EmptyString ->
  exists ids,
    ExecuteResponse.Outputs (fst (run (execute_hook req) w)) !! "linked_issues"
    = Some ids
    /\ NoDup ids
    /\ forall id,
         id ∈ ids
         <-> exists commit m,
               commit ∈ commitMessages (ExecuteRequest.Context req)
               /\ m ∈ FindAllStringSubmatch issuePattern commit
               /\ EqualFold equalFoldUnicode (m !!! 1) teamKey = true
               /\ id = m !!! 0.
Proof.
  intros Hhook Hprefix Hkey Hne.
  exists (extractIssues equalFoldUnicode
            (commitMessages (ExecuteRequest.Context req)) teamKey).
  split; [|split].
  - unfold Execute. rewrite Hhook. unfold handlePostPlan.
    rewrite parseConfig_IssuePrefix. cbv zeta. rewrite Hprefix, Hkey.
    cbn [String.eqb].
    destruct (Nat.eqb_spec (length (extractIssues equalFoldUnicode
                                      (commitMessages (ExecuteRequest.Context req))
                                      teamKey)) 0) as [Hlen|Hlen];
      cbn [run ret fst ExecuteResponse.Outputs]; rewrite lookup_singleton_eq.
    + apply nil_length_inv in Hlen. rewrite Hlen. reflexivity.
    + reflexivity.
  - apply extractIssues_NoDup.
  - intros id. rewrite extractIssues_elements, elem_of_retained_tokens. split.
    + intros (commit & m & Hc & Hm & [Hp|Hr] & Hid); [contradiction|].
      exists commit, m. auto.
    + intros (commit & m & Hc & Hm & Hr & Hid). exists commit, m. auto.
Qed.

End PlanForATeam.

Lemma plan_for_a_team_witness :
  let ctx := Demo.release "main" ["feat: add X ENG-123 and OPS-7"] ["fix: eng-9 ENG-5"] in
  let req := ExecuteRequest.mk HookPostPlan {[ "team_key" := AString "ENG" ]} ctx false in
  ExecuteRequest.Hook_ req = HookPostPlan
  /\ GetString (Demo.NewConfigParser (ExecuteRequest.Config_ req)) "issue_prefix"
       EmptyString EmptyString = EmptyString
  /\ GetString (Demo.NewConfigParser (ExecuteRequest.Config_ req)) "team_key"
       EmptyString EmptyString = "ENG"
  /\ exists ids,
       ExecuteResponse.Outputs (fst (run (Demo.Execute req) 0)) !! "linked_issues"
       = Some ids
       /\ NoDup ids.
Proof.
  intros ctx req.
  assert ("ENG" <> EmptyString) as Hne by discriminate.
  split; [reflexivity|]. split; [reflexivity|]. split; [reflexivity|].
  destruct (plan_lists_the_issues_of_the_team Demo.NewLinearClient Demo.time_Now
              Demo.Template Demo.template_Parse Demo.template_Execute
              Demo.equalFoldUnicode Demo.NewConfigParser req 0 "ENG"
              eq_refl eq_refl eq_refl Hne) as (ids & Hout & Hnodup & _).
  exists ids. split; [exact Hout|exact Hnodup].
Defined.
